(** * The dust-disintegration field function and its animation driver

    A shallow embedding of the two SkSL fragment shaders of the repository
    ([DUST_SHADER] of the DustSnapGL component and [DUST_SNAP_SHADER] of the
    BlowAwayImage component) and of the React effect that drives them.

    Numbers.  The shaders compute with GPU floats.  Here every [float] is an
    exact rational ([Q]): sums, products, quotients, [floor], [fract], [min]
    and [abs] are the exact operations, comparisons are total, and there is
    no NaN or infinity (a division by zero yields [0] as in [Qdiv]).  The
    transcendental intrinsics ([sin], [cos], [pow]) are parameters of the
    shader: every theorem holds for whatever functions the GPU supplies.
    Equality of computed numbers is [Qeq] ([==]).  The particle size
    BlowAwayImage receives as a prop and clamps with [Math.max] before the
    shader sees it is a JavaScript number, with its infinities and its NaN
    ([JSNumber]).

    Control flow.  A constant-bound [for] loop whose body may [return] or
    [continue] is a structural recursion over the iteration count that
    yields [Some r] as soon as an iteration returns [r].

    The driver.  The [useEffect] of DustSnapGL is a transition function on
    an explicit component state with a virtual millisecond clock and a list
    of pending timers. *)

From Stdlib Require Import QArith Qround Qabs Qminmax ZArith List Lia Lqa Bool.
Import ListNotations.
Open Scope Q_scope.

(** ** SkSL scalars, vectors and colours *)

Definition Qltb (a b : Q) : bool := negb (Qle_bool b a).
Definition Qgtb (a b : Q) : bool := Qltb b a.
Definition Qleb (a b : Q) : bool := Qle_bool a b.
Definition Qgeb (a b : Q) : bool := Qle_bool b a.

Definition floorQ (a : Q) : Q := inject_Z (Qfloor a).
Definition fract (a : Q) : Q := a - floorQ a.

Record float2 := Float2 { vx : Q; vy : Q }.

Definition v2add (p q : float2) := Float2 (vx p + vx q) (vy p + vy q).
Definition v2sub (p q : float2) := Float2 (vx p - vx q) (vy p - vy q).
Definition v2adds (p : float2) (s : Q) := Float2 (vx p + s) (vy p + s).
Definition v2scale (p : float2) (s : Q) := Float2 (vx p * s) (vy p * s).
Definition v2floor (p : float2) := Float2 (floorQ (vx p)) (floorQ (vy p)).
Definition dot (p q : float2) : Q := vx p * vx q + vy p * vy q.

Record half4 := Half4 { cr : Q; cg : Q; cb : Q; ca : Q }.

(** [half4(0.0)] *)
Definition transparent : half4 := Half4 0 0 0 0.

Definition half4_eq (c d : half4) : Prop :=
  cr c == cr d /\ cg c == cg d /\ cb c == cb d /\ ca c == ca d.

(** ** Loops with constant bounds and early [return]

    [for (k = lo; k <= hi; k++) body], where the body either returns from
    the enclosing function ([Some r]) or falls through to the next
    iteration ([None], also what [continue] does). *)

Fixpoint for_loop {A : Type} (n : nat) (k : Z) (body : Z -> option A) : option A :=
  match n with
  | O => None
  | S n' =>
      match body k with
      | Some r => Some r
      | None => for_loop n' (k + 1)%Z body
      end
  end.

Definition for_range {A : Type} (lo hi : Z) (body : Z -> option A) : option A :=
  for_loop (Z.to_nat (hi - lo + 1)) lo body.

(** The offsets a pair of nested [for_range] loops visits, in the order it
    visits them: the outer counter first, the inner counter fastest. *)

Fixpoint count_from (n : nat) (k : Z) : list Z :=
  match n with
  | O => []
  | S n' => k :: count_from n' (k + 1)%Z
  end.

Definition range (lo hi : Z) : list Z := count_from (Z.to_nat (hi - lo + 1)) lo.

Definition window (lo1 hi1 lo2 hi2 : Z) : list (Z * Z) :=
  flat_map (fun i => map (fun j => (i, j)) (range lo2 hi2)) (range lo1 hi1).

(** ** DUST_SHADER (components/DustSnapGL) *)

Module DustShader.

Record Uniforms := {
  time : Q;
  imageSize : float2;
  imageOffset : float2;
  canvasOffset : float2;
  particleSize : Q;
  seed : Q;
  isCircle : Z;
  timeScale : Q;
  maxTime : Q;
  windSpeed : Q;
  verticalSpread : Q;
  turbulence : Q;
  burstStrength : Q;
  floatAmp : Q;
  reverseWindMult : Q;
  lifetimeMin : Q;
  lifetimeRange : Q;
  fadeStart : Q;
  driftX : Q;
  driftY : Q
}.

Definition SEARCH_RAD : Z := 4.

Section Shader.

(** The GPU's [sin] and [cos], and the child shader [image]. *)
Variables sin cos : Q -> Q.
Variable image : float2 -> half4.
Variable u : Uniforms.

Definition hash (p : float2) : Q :=
  fract (sin (dot p (Float2 127.1 311.7)) * 43758.5).

(** *** Per-cell quantities, as functions of the cell and of [t] *)

Definition rnd1 (cellId : float2) : Q := hash (v2adds cellId (seed u)).
Definition rnd2 (cellId : float2) : Q := fract (rnd1 cellId * 7.243).
Definition rnd3 (cellId : float2) : Q := fract (rnd1 cellId * 13.759).

Definition maxLife (cellId : float2) : Q :=
  lifetimeMin u + rnd1 cellId * lifetimeRange u.

Definition lifeRatio (cellId : float2) (t : Q) : Q := t / maxLife cellId.

Definition startEase (cellId : float2) (t : Q) : Q :=
  Qmin (lifeRatio cellId t * 10) 1.

Definition windX (cellId : float2) (t : Q) : Q :=
  - windSpeed u * t * (0.7 + rnd1 cellId * 0.6).
Definition verticalDir (cellId : float2) : Q := rnd2 cellId * 2 - 1.
Definition windY (cellId : float2) (t : Q) : Q :=
  verticalDir cellId * verticalSpread u * t * (0.5 + rnd3 cellId * 0.5).

Definition turbPhase (cellId : float2) (t : Q) : Q := t * 0.07 + rnd3 cellId * 20.
Definition turbX (cellId : float2) (t : Q) : Q :=
  sin (turbPhase cellId t) * turbulence u * rnd1 cellId.
Definition turbY (cellId : float2) (t : Q) : Q :=
  cos (turbPhase cellId t) * turbulence u * rnd2 cellId.

Definition burstAngle (cellId : float2) : Q := rnd3 cellId * 6.283.
Definition burstDecay (cellId : float2) (t : Q) : Q :=
  1 / (1 + lifeRatio cellId t * 5).
Definition burstX (cellId : float2) (t : Q) : Q :=
  cos (burstAngle cellId) * burstStrength u * burstDecay cellId t.
Definition burstY (cellId : float2) (t : Q) : Q :=
  sin (burstAngle cellId) * burstStrength u * burstDecay cellId t.

Definition floatPhase (cellId : float2) (t : Q) : Q := t * 0.05 + rnd1 cellId * 10.
Definition floatX (cellId : float2) (t : Q) : Q :=
  sin (floatPhase cellId t) * floatAmp u * 0.5.
Definition floatY (cellId : float2) (t : Q) : Q :=
  cos (floatPhase cellId t * 0.7) * floatAmp u.

Definition driftDirX (cellId : float2) : Q := (rnd1 cellId - 0.5) * 2.
Definition driftDirY (cellId : float2) : Q := (rnd2 cellId - 0.5) * 2.
Definition tSq (t : Q) : Q := t * t * 0.01.
Definition continuousDriftX (cellId : float2) (t : Q) : Q :=
  driftDirX cellId * driftX u * tSq t.
Definition continuousDriftY (cellId : float2) (t : Q) : Q :=
  driftDirY cellId * driftY u * tSq t.

Definition movement (cellId : float2) (t : Q) : float2 :=
  v2scale
    (Float2
       (windX cellId t + turbX cellId t + burstX cellId t + floatX cellId t
        + continuousDriftX cellId t)
       (windY cellId t + turbY cellId t + burstY cellId t + floatY cellId t
        + continuousDriftY cellId t))
    (startEase cellId t).

Definition halfSize : Q := particleSize u * 0.5.
Definition halfSizeSq : Q := halfSize * halfSize.
Definition invPS : Q := 1 / particleSize u.

Definition cellCenter (cellId : float2) : float2 :=
  v2adds (v2scale cellId (particleSize u)) halfSize.

Definition particlePos (cellId : float2) (t : Q) : float2 :=
  v2add (v2add (imageOffset u) (cellCenter cellId)) (movement cellId t).

Definition inside (diff : float2) : bool :=
  if (isCircle u =? 1)%Z
  then Qleb (dot diff diff) halfSizeSq
  else Qleb (Qabs (vx diff)) halfSize && Qleb (Qabs (vy diff)) halfSize.

(** [alpha] after [alpha = alpha * alpha]. *)
Definition fade (lr : Q) : Q :=
  let alpha := if Qgtb lr (fadeStart u)
               then 1 - (lr - fadeStart u) / (1 - fadeStart u)
               else 1 in
  alpha * alpha.

(** *** The candidate loop *)

Definition imgLocalPos (baseImgPos : float2) (i j : Z) : float2 :=
  v2add baseImgPos (v2scale (Float2 (inject_Z i) (inject_Z j)) (particleSize u)).

Definition outside_image (p : float2) : bool :=
  Qltb (vx p) 0 || Qgeb (vx p) (vx (imageSize u))
  || Qltb (vy p) 0 || Qgeb (vy p) (vy (imageSize u)).

Definition cellOf (baseImgPos : float2) (i j : Z) : float2 :=
  v2floor (v2scale (imgLocalPos baseImgPos i j) invPS).

(** One iteration of the inner loop body: [Some c] is [return c], [None] is
    falling through (or [continue]) to the next candidate. *)
Definition candidate (screenCoord baseImgPos : float2) (t : Q) (i j : Z)
  : option half4 :=
  if outside_image (imgLocalPos baseImgPos i j) then None
  else
    let cellId := cellOf baseImgPos i j in
    if Qgeb (lifeRatio cellId t) 1 then None
    else
      let diff := v2sub screenCoord (particlePos cellId t) in
      if inside diff then
        let alpha := fade (lifeRatio cellId t) in
        if Qgtb alpha 0.01 then
          let color := image (cellCenter cellId) in
          if Qgtb (ca color) 0.1
          then Some (Half4 (cr color) (cg color) (cb color) (ca color * alpha))
          else None
        else None
      else None.

Definition elapsed : Q := time u * timeScale u.

Definition baseImgPos (screenCoord : float2) : float2 :=
  v2sub (v2add screenCoord (Float2 (reverseWindMult u * elapsed) 0))
        (imageOffset u).

Definition main (fragCoord : float2) : half4 :=
  let screenCoord := v2add fragCoord (canvasOffset u) in
  let t := elapsed in
  if Qgtb t (maxTime u) then transparent
  else
    match
      for_range (- SEARCH_RAD) SEARCH_RAD (fun i =>
        for_range (- SEARCH_RAD) SEARCH_RAD (fun j =>
          candidate screenCoord (baseImgPos screenCoord) t i j))
    with
    | Some c => c
    | None => transparent
    end.

End Shader.

End DustShader.

(** ** DUST_SNAP_SHADER (BlowAwayImage) *)

Module DustSnapShader.

Record Uniforms := {
  time : Q;
  imageSize : float2;
  imageOffset : float2;
  canvasSize : float2;
  particleSize : Q;
  seed : Q
}.

Definition MAX_SEARCH_X : Z := 8.
Definition MAX_SEARCH_Y : Z := 5.

(** [float3 p3 = fract(float3(p.xyx) * 0.1031); p3 += dot(p3, p3.yzx + 33.33);
    return fract((p3.x + p3.y) * p3.z);] *)
Definition hash (p : float2) : Q :=
  let p3x := fract (vx p * 0.1031) in
  let p3y := fract (vy p * 0.1031) in
  let p3z := fract (vx p * 0.1031) in
  let d := p3x * (p3y + 33.33) + p3y * (p3z + 33.33) + p3z * (p3x + 33.33) in
  fract (((p3x + d) + (p3y + d)) * (p3z + d)).

Section Shader.

(** The GPU's [sin] and [pow], and the child shader [image]. *)
Variable sin : Q -> Q.
Variable pow : Q -> Q -> Q.
Variable image : float2 -> half4.
Variable u : Uniforms.

Definition rndSeed (cellId : float2) : Q := hash (v2adds cellId (seed u)).

Definition maxLife (cellId : float2) : Q := 60 + rndSeed cellId * 60.
Definition lifeRatio (cellId : float2) (t : Q) : Q := t / maxLife cellId.

Definition windSpeed (cellId : float2) : Q := 10 + rndSeed cellId * 4.
Definition windX (cellId : float2) (t : Q) : Q :=
  - windSpeed cellId * t - (t * t * 0.02).
Definition wave (cellId : float2) (t : Q) : Q :=
  sin (t * 0.12 + rndSeed cellId * 15) * 6.
Definition lift (cellId : float2) (t : Q) : Q :=
  (-1 + (rndSeed cellId - 0.5) * 2.5) * t.
Definition windY (cellId : float2) (t : Q) : Q := lift cellId t + wave cellId t.

Definition cellCenter (cellId : float2) : float2 :=
  v2adds (v2scale cellId (particleSize u)) (particleSize u * 0.5).

Definition particlePos (cellId : float2) (t : Q) : float2 :=
  v2add (v2add (imageOffset u) (cellCenter cellId))
        (Float2 (windX cellId t) (windY cellId t)).

Definition halfSize : Q := particleSize u * 0.5.

Definition inside (diff : float2) : bool :=
  Qleb (Qabs (vx diff)) halfSize && Qleb (Qabs (vy diff)) halfSize.

Definition fade (lr : Q) : Q :=
  if Qgtb lr 0.3 then pow (1 - (lr - 0.3) / 0.7) 1.5 else 1.

Definition imgLocalPos (baseImgPos : float2) (i j : Z) : float2 :=
  v2add baseImgPos (v2scale (Float2 (inject_Z i) (inject_Z j)) (particleSize u)).

Definition outside_image (p : float2) : bool :=
  Qltb (vx p) 0 || Qgeb (vx p) (vx (imageSize u))
  || Qltb (vy p) 0 || Qgeb (vy p) (vy (imageSize u)).

Definition cellOf (baseImgPos : float2) (i j : Z) : float2 :=
  v2floor (Float2 (vx (imgLocalPos baseImgPos i j) / particleSize u)
                  (vy (imgLocalPos baseImgPos i j) / particleSize u)).

Definition candidate (fragCoord baseImgPos : float2) (t : Q) (i j : Z)
  : option half4 :=
  if outside_image (imgLocalPos baseImgPos i j) then None
  else
    let cellId := cellOf baseImgPos i j in
    if Qgeb (lifeRatio cellId t) 1 then None
    else
      let diff := v2sub fragCoord (particlePos cellId t) in
      if inside diff then
        let alpha := fade (lifeRatio cellId t) in
        if Qgtb alpha 0.01 then
          let color := image (cellCenter cellId) in
          Some (Half4 (cr color) (cg color) (cb color) (ca color * alpha))
        else None
      else None.

Definition elapsed : Q := time u * 60.

Definition baseImgPos (fragCoord : float2) : float2 :=
  let reverseWindX := 12 * elapsed + (elapsed * elapsed * 0.02) in
  let reverseWindY := 1.5 * elapsed in
  let estimatedSource := v2add fragCoord (Float2 reverseWindX reverseWindY) in
  v2sub estimatedSource (imageOffset u).

Definition main (fragCoord : float2) : half4 :=
  let t := elapsed in
  if Qgtb t 180 then transparent
  else
    match
      for_range (- MAX_SEARCH_X) MAX_SEARCH_X (fun i =>
        for_range (- MAX_SEARCH_Y) MAX_SEARCH_Y (fun j =>
          candidate fragCoord (baseImgPos fragCoord) t i j))
    with
    | Some c => c
    | None => transparent
    end.

End Shader.

End DustSnapShader.

(** ** The components' uniforms *)

Module ANIMATION_CONFIG.
Definition DURATION_MS : Z := 1000.
Definition TIME_SCALE : Q := 22.0.
Definition MAX_TIME : Q := 250.0.
Definition WIND_SPEED : Q := 12.
Definition VERTICAL_SPREAD : Q := 60.0.
Definition TURBULENCE : Q := 35.0.
Definition BURST_STRENGTH : Q := 45.0.
Definition FLOAT_AMPLITUDE : Q := 25.0.
Definition REVERSE_WIND_MULTIPLIER : Q := 6.0.
Definition LIFETIME_MIN : Q := 180.0.
Definition LIFETIME_RANGE : Q := 100.0.
Definition FADE_START : Q := 0.92.
Definition DRIFT_X : Q := 3.5.
Definition DRIFT_Y : Q := 2.5.
End ANIMATION_CONFIG.

Record Layout := { lx : Q; ly : Q; lwidth : Q; lheight : Q }.

Inductive ParticleShape := circle | square.

(** The [uniforms] derived value of DustSnapGL. *)
Definition DustSnapGL_uniforms (animationTime : Q) (imageLayout : Layout)
    (pieceSize : Q) (particleShape : ParticleShape) (seedValue : Q)
  : DustShader.Uniforms :=
  {| DustShader.time := animationTime;
     DustShader.imageSize := Float2 (lwidth imageLayout) (lheight imageLayout);
     DustShader.imageOffset := Float2 (lx imageLayout) (ly imageLayout);
     DustShader.canvasOffset := Float2 0 0;
     DustShader.particleSize := pieceSize;
     DustShader.seed := seedValue;
     DustShader.isCircle := match particleShape with circle => 1 | square => 0 end;
     DustShader.timeScale := ANIMATION_CONFIG.TIME_SCALE;
     DustShader.maxTime := ANIMATION_CONFIG.MAX_TIME;
     DustShader.windSpeed := ANIMATION_CONFIG.WIND_SPEED;
     DustShader.verticalSpread := ANIMATION_CONFIG.VERTICAL_SPREAD;
     DustShader.turbulence := ANIMATION_CONFIG.TURBULENCE;
     DustShader.burstStrength := ANIMATION_CONFIG.BURST_STRENGTH;
     DustShader.floatAmp := ANIMATION_CONFIG.FLOAT_AMPLITUDE;
     DustShader.reverseWindMult := ANIMATION_CONFIG.REVERSE_WIND_MULTIPLIER;
     DustShader.lifetimeMin := ANIMATION_CONFIG.LIFETIME_MIN;
     DustShader.lifetimeRange := ANIMATION_CONFIG.LIFETIME_RANGE;
     DustShader.fadeStart := ANIMATION_CONFIG.FADE_START;
     DustShader.driftX := ANIMATION_CONFIG.DRIFT_X;
     DustShader.driftY := ANIMATION_CONFIG.DRIFT_Y |}.

(** ** JavaScript numbers

    A component's numeric prop is a JavaScript number: a finite value, an
    infinity or [NaN].  [Math.max] returns [NaN] as soon as one argument is
    [NaN], and the larger argument otherwise. *)
Inductive JSNumber :=
| Finite (q : Q)
| PosInfinity
| NegInfinity
| NaN.

Definition Math_max (a b : JSNumber) : JSNumber :=
  match a, b with
  | NaN, _ | _, NaN => NaN
  | PosInfinity, _ | _, PosInfinity => PosInfinity
  | NegInfinity, x | x, NegInfinity => x
  | Finite p, Finite q => Finite (Qmax p q)
  end.

(** [k <= x] on JavaScript numbers; false of [NaN], as every comparison
    with [NaN] is. *)
Definition at_least (k : Q) (x : JSNumber) : Prop :=
  match x with
  | Finite q => k <= q
  | PosInfinity => True
  | NegInfinity | NaN => False
  end.

(** The uniforms of DUST_SNAP_SHADER, field by field. *)
Definition snap_uniforms (time width height : Q)
    (imageOffsetX imageOffsetY screenWidth screenHeight : Q)
    (particleSize seed : Q) : DustSnapShader.Uniforms :=
  {| DustSnapShader.time := time;
     DustSnapShader.imageSize := Float2 width height;
     DustSnapShader.imageOffset := Float2 imageOffsetX imageOffsetY;
     DustSnapShader.canvasSize := Float2 screenWidth screenHeight;
     DustSnapShader.particleSize := particleSize;
     DustSnapShader.seed := seed |}.

(** The particle size BlowAwayImage hands to its shader,
    [Math.max(2, particleSize)], evaluated every time the derived value is
    rebuilt. *)
Definition BlowAwayImage_particleSize (particleSize : JSNumber) : JSNumber :=
  Math_max (Finite 2) particleSize.

(** The [uniforms] derived value of BlowAwayImage.  The shader is modelled
    over the rationals, so the derived value is given as shader uniforms
    when the particle size it holds is a finite number, and as [None] when
    that is an infinity or [NaN]. *)
Definition BlowAwayImage_uniforms (animationTime width height : Q)
    (imageOffsetX imageOffsetY screenWidth screenHeight : Q)
    (particleSize : JSNumber) (seed : Q) : option DustSnapShader.Uniforms :=
  match BlowAwayImage_particleSize particleSize with
  | Finite ps =>
      Some (snap_uniforms animationTime width height imageOffsetX imageOffsetY
              screenWidth screenHeight ps seed)
  | _ => None
  end.

(** ** The animation driver of DustSnapGL

    The component's [useEffect] on [isSnapped, image, shaderEffect,
    imageLayout.width, onAnimationComplete, animationTime], run against a
    virtual wall clock in milliseconds.  [setTimeout] registers a timer that
    the event loop fires once, at the first clock reading at or after its
    due time; [clearTimeout] removes it; [withTiming] with [Easing.linear]
    moves a shared value linearly from the value it holds to its target
    over [duration] milliseconds. *)

Module Driver.

Inductive SharedValue :=
| Still (v : Q)
| Timing (fromValue toValue : Q) (start duration : Z).

Definition value_at (sv : SharedValue) (now : Z) : Q :=
  match sv with
  | Still v => v
  | Timing a b start duration =>
      if (now <=? start)%Z then a
      else if (start + duration <=? now)%Z then b
      else a + (b - a) * (inject_Z (now - start) / inject_Z duration)
  end.

Record Props := {
  isSnapped : bool;
  image : bool;                 (* the decoded image is there *)
  shaderEffect : bool;          (* the runtime effect compiled *)
  imageLayout : Layout;
  onAnimationComplete : bool    (* the optional callback is given *)
}.

Record Timer := { tid : nat; due : Z; notify : bool }.

Record State := {
  now : Z;
  isAnimating : bool;
  animationTime : SharedValue;
  timeoutRef : option nat;
  next_timer : nat;
  timers : list Timer;
  completions : list Z          (* clock readings at which the callback ran *)
}.

Definition initial (t0 : Z) : State :=
  {| now := t0; isAnimating := false; animationTime := Still 0;
     timeoutRef := None; next_timer := 1; timers := []; completions := [] |}.

Definition clearTimeout (id : nat) (st : State) : State :=
  {| now := now st; isAnimating := isAnimating st;
     animationTime := animationTime st; timeoutRef := timeoutRef st;
     next_timer := next_timer st;
     timers := filter (fun tm => negb (tid tm =? id)%nat) (timers st);
     completions := completions st |}.

(** The function the effect returns. *)
Definition cleanup (st : State) : State :=
  match timeoutRef st with
  | Some id => clearTimeout id st
  | None => st
  end.

(** [isSnapped && image && shaderEffect && imageLayout.width > 0] *)
Definition should_start (p : Props) : bool :=
  isSnapped p && image p && shaderEffect p && Qgtb (lwidth (imageLayout p)) 0.

(** The effect body. *)
Definition effect (p : Props) (st : State) : State :=
  if should_start p
  then
    let duration := ANIMATION_CONFIG.DURATION_MS in
    let id := next_timer st in
    {| now := now st; isAnimating := true;
       animationTime :=
         Timing 0 (inject_Z duration / 1000) (now st) duration;
       timeoutRef := Some id;
       next_timer := S id;
       timers := timers st
                 ++ [{| tid := id; due := (now st + (duration + 100))%Z;
                        notify := onAnimationComplete p |}];
       completions := completions st |}
  else if negb (isSnapped p) then
    {| now := now st; isAnimating := false; animationTime := Still 0;
       timeoutRef := timeoutRef st; next_timer := next_timer st;
       timers := timers st; completions := completions st |}
  else st.

(** The clock moves on by [dt] ms; the timers that are due fire. *)
Definition elapse (dt : nat) (st : State) : State :=
  let now' := (now st + Z.of_nat dt)%Z in
  let fired := filter (fun tm => (due tm <=? now')%Z) (timers st) in
  {| now := now'; isAnimating := isAnimating st;
     animationTime := animationTime st; timeoutRef := timeoutRef st;
     next_timer := next_timer st;
     timers := filter (fun tm => negb (due tm <=? now')%Z) (timers st);
     completions :=
       completions st ++ map (fun _ => now') (filter notify fired) |}.

Inductive Event :=
| Render (p : Props)   (* a render with changed dependencies: the previous
                          cleanup runs, then the effect *)
| Unmount              (* the last cleanup runs *)
| Elapse (dt : nat).

Definition step (st : State) (e : Event) : State :=
  match e with
  | Render p => effect p (cleanup st)
  | Unmount => cleanup st
  | Elapse dt => elapse dt st
  end.

Definition run (evs : list Event) (st : State) : State := fold_left step evs st.

Definition reachable (st : State) : Prop :=
  exists t0 evs, st = run evs (initial t0).

(** Every pending timer is the one [timeoutRef] holds. *)
Definition owned (st : State) : Prop :=
  forall tm, In tm (timers st) -> timeoutRef st = Some (tid tm).

(** The animated time stays within the ramp from 0 to 1. *)
Definition in_ramp (st : State) : Prop :=
  forall at_ms : Z, 0 <= value_at (animationTime st) at_ms
                    /\ value_at (animationTime st) at_ms <= 1.

(** Where a run stands with respect to its timer [tm]: still pending, or
    fired once at a clock reading [tau] at or after its due time; [log] is
    the completion log at the start of the run. *)
Definition phase (tm : Timer) (log : list Z) (st : State) : Prop :=
  (timers st = [tm] /\ (now st < due tm)%Z /\ completions st = log)
  \/ (timers st = []
      /\ exists tau, completions st = log ++ [tau] /\ (due tm <= tau <= now st)%Z).

(** The uniforms the shader sees in a driver state. *)
Definition uniforms (st : State) (p : Props) (pieceSize : Q)
    (particleShape : ParticleShape) (seedValue : Q) : DustShader.Uniforms :=
  DustSnapGL_uniforms (value_at (animationTime st) (now st)) (imageLayout p)
    pieceSize particleShape seedValue.

End Driver.

(** ** Specification-side definitions *)

(** The first element of a list on which a partial function is defined. *)
Fixpoint first_some {A B : Type} (f : A -> option B) (l : list A) : option B :=
  match l with
  | [] => None
  | a :: l' =>
      match f a with
      | Some r => Some r
      | None => first_some f l'
      end
  end.

Module DustShaderSpec.
Section Spec.

Variables sin cos : Q -> Q.
Variable image : float2 -> half4.
Variable u : DustShader.Uniforms.

(** The candidate offsets of DUST_SHADER in enumeration order: [i] (the
    horizontal offset) is the outer counter, [j] (the vertical offset) runs
    fastest. *)
Definition candidates : list (Z * Z) :=
  window (- DustShader.SEARCH_RAD) DustShader.SEARCH_RAD
         (- DustShader.SEARCH_RAD) DustShader.SEARCH_RAD.

Definition in_image (base : float2) (ij : Z * Z) : bool :=
  negb (DustShader.outside_image u (DustShader.imgLocalPos u base (fst ij) (snd ij))).

Definition cell (base : float2) (ij : Z * Z) : float2 :=
  DustShader.cellOf u base (fst ij) (snd ij).

Definition expired (base : float2) (t : Q) (ij : Z * Z) : bool :=
  Qgeb (DustShader.lifeRatio sin u (cell base ij) t) 1.

Definition covers (screenCoord base : float2) (t : Q) (ij : Z * Z) : bool :=
  DustShader.inside u
    (v2sub screenCoord (DustShader.particlePos sin cos u (cell base ij) t)).

Definition fade_alpha (base : float2) (t : Q) (ij : Z * Z) : Q :=
  DustShader.fade u (DustShader.lifeRatio sin u (cell base ij) t).

Definition rest_colour (base : float2) (ij : Z * Z) : half4 :=
  image (DustShader.cellCenter u (cell base ij)).

(** A candidate that lies in the image, has not expired, covers the pixel,
    is still visible and carries an opaque enough source colour. *)
Definition qualifies (screenCoord base : float2) (t : Q) (ij : Z * Z) : bool :=
  in_image base ij && negb (expired base t ij) && covers screenCoord base t ij
  && Qgtb (fade_alpha base t ij) 0.01 && Qgtb (ca (rest_colour base ij)) 0.1.

(** The colour a candidate contributes: its rest-centre colour, the alpha
    multiplied by the fade alpha. *)
Definition carried (base : float2) (t : Q) (ij : Z * Z) : half4 :=
  let c := rest_colour base ij in
  Half4 (cr c) (cg c) (cb c) (ca c * fade_alpha base t ij).

(** Section 4.2, steps 3 to 9, in the specification's words, for a cell with
    random scalars [h], [r2], [r3] and life ratio [lr] at elapsed time [t]. *)
Definition spec_startEase (lr : Q) : Q := Qmin (lr * 10) 1.

Definition spec_displacement (h r2 r3 lr t : Q) : float2 :=
  let windX := - DustShader.windSpeed u * t * (0.7 + 0.6 * h) in
  let verticalDir := 2 * r2 - 1 in
  let windY := verticalDir * DustShader.verticalSpread u * t * (0.5 + 0.5 * r3) in
  let phi_turb := 0.07 * t + 20 * r3 in
  let turbX := sin phi_turb * DustShader.turbulence u * h in
  let turbY := cos phi_turb * DustShader.turbulence u * r2 in
  let theta := 6.283 * r3 in
  let magnitude := DustShader.burstStrength u / (1 + 5 * lr) in
  let burstX := magnitude * cos theta in
  let burstY := magnitude * sin theta in
  let phi_float := 0.05 * t + 10 * h in
  let floatX := sin phi_float * DustShader.floatAmp u * 0.5 in
  let floatY := cos (0.7 * phi_float) * DustShader.floatAmp u in
  let driftX := (2 * h - 1) * (DustShader.driftX u * (t * t) * 0.01) in
  let driftY := (2 * r2 - 1) * (DustShader.driftY u * (t * t) * 0.01) in
  Float2 ((windX + turbX + burstX + floatX + driftX) * spec_startEase lr)
         ((windY + turbY + burstY + floatY + driftY) * spec_startEase lr).

End Spec.
End DustShaderSpec.

Module DustSnapShaderSpec.
Section Spec.

Variable sin : Q -> Q.
Variable pow : Q -> Q -> Q.
Variable image : float2 -> half4.
Variable u : DustSnapShader.Uniforms.

(** The candidate offsets of DUST_SNAP_SHADER in enumeration order. *)
Definition candidates : list (Z * Z) :=
  window (- DustSnapShader.MAX_SEARCH_X) DustSnapShader.MAX_SEARCH_X
         (- DustSnapShader.MAX_SEARCH_Y) DustSnapShader.MAX_SEARCH_Y.

Definition in_image (base : float2) (ij : Z * Z) : bool :=
  negb (DustSnapShader.outside_image u
          (DustSnapShader.imgLocalPos u base (fst ij) (snd ij))).

Definition cell (base : float2) (ij : Z * Z) : float2 :=
  DustSnapShader.cellOf u base (fst ij) (snd ij).

Definition expired (base : float2) (t : Q) (ij : Z * Z) : bool :=
  Qgeb (DustSnapShader.lifeRatio u (cell base ij) t) 1.

Definition covers (fragCoord base : float2) (t : Q) (ij : Z * Z) : bool :=
  DustSnapShader.inside u
    (v2sub fragCoord (DustSnapShader.particlePos sin u (cell base ij) t)).

Definition fade_alpha (base : float2) (t : Q) (ij : Z * Z) : Q :=
  DustSnapShader.fade pow (DustSnapShader.lifeRatio u (cell base ij) t).

Definition rest_colour (base : float2) (ij : Z * Z) : half4 :=
  image (DustSnapShader.cellCenter u (cell base ij)).

(** What DUST_SNAP_SHADER tests: no threshold on the source alpha. *)
Definition visible (fragCoord base : float2) (t : Q) (ij : Z * Z) : bool :=
  in_image base ij && negb (expired base t ij) && covers fragCoord base t ij
  && Qgtb (fade_alpha base t ij) 0.01.

(** The four conditions of the specification. *)
Definition qualifies (fragCoord base : float2) (t : Q) (ij : Z * Z) : bool :=
  visible fragCoord base t ij && Qgtb (ca (rest_colour base ij)) 0.1.

Definition carried (base : float2) (t : Q) (ij : Z * Z) : half4 :=
  let c := rest_colour base ij in
  Half4 (cr c) (cg c) (cb c) (ca c * fade_alpha base t ij).

End Spec.
End DustSnapShaderSpec.


(** The cell a screen position lies in when nothing has moved, and whether
    the particle of that cell, sitting at its rest centre, covers it. *)
Definition rest_cell (u : DustShader.Uniforms) (screenCoord : float2) : float2 :=
  v2floor (v2scale (v2sub screenCoord (DustShader.imageOffset u)) (DustShader.invPS u)).

Definition rest_inside (u : DustShader.Uniforms) (screenCoord cellId : float2) : bool :=
  DustShader.inside u
    (v2sub screenCoord (v2add (DustShader.imageOffset u) (DustShader.cellCenter u cellId))).

(** ** Concrete intrinsics and inputs for running the model

    Rational stand-ins for the GPU intrinsics: Bhaskara's approximation of
    the sine after range reduction with [355/113] for pi, and a Newton
    square root for [pow] at half-integer exponents. *)

Definition pi_q : Q := 355 # 113.

Definition bhaskara (y : Q) : Q :=
  16 * y * (pi_q - y) / (5 * pi_q * pi_q - 4 * y * (pi_q - y)).

Definition sin_q (a : Q) : Q :=
  let y := a - 2 * pi_q * floorQ (a / (2 * pi_q)) in
  Qred (if Qleb y pi_q then bhaskara y else - bhaskara (y - pi_q)).

Definition cos_q (a : Q) : Q := sin_q (a + pi_q / 2).

Fixpoint newton_sqrt (n : nat) (a x : Q) : Q :=
  match n with
  | O => x
  | S n' => newton_sqrt n' a (Qred ((x + a / x) / 2))
  end.

Definition sqrt_q (a : Q) : Q :=
  if Qleb a 0 then 0 else newton_sqrt 5 a ((a + 1) / 2).

Definition pow_q (b e : Q) : Q := Qred (Qpower (sqrt_q b) (Qfloor (2 * e))).

(** A 100 x 100 image placed at (10, 20), opaque, its colour varying with
    the position. *)
Definition demo_layout : Layout :=
  {| lx := 10; ly := 20; lwidth := 100; lheight := 100 |}.

Definition demo_image (p : float2) : half4 :=
  Half4 (vx p / 100) (vy p / 100) 0.5 1.

Definition demo_uniforms (time : Q) (shape : ParticleShape) : DustShader.Uniforms :=
  DustSnapGL_uniforms time demo_layout 3 shape 42.

Definition demo_snap_uniforms (time : Q) : DustSnapShader.Uniforms :=
  snap_uniforms time 100 100 10 20 400 800 4 42.

Definition demo_props : Driver.Props :=
  {| Driver.isSnapped := true; Driver.image := true;
     Driver.shaderEffect := true; Driver.imageLayout := demo_layout;
     Driver.onAnimationComplete := true |}.


(** What is assumed of the GPU's sine where a statement needs it. *)
Definition bounded_sin (sin : Q -> Q) : Prop := forall a, -1 <= sin a /\ sin a <= 1.

(** A 200 x 100 image of two 100-pixel cells at the screen origin: the left
    cell fully transparent, the right cell opaque white; and the pixel on
    their common edge, at mid-height. *)
Definition edge_image (p : float2) : half4 :=
  if Qltb (vx p) 100 then Half4 0 0 0 0 else Half4 1 1 1 1.

Definition edge_uniforms : DustSnapShader.Uniforms :=
  snap_uniforms 0 200 100 0 0 400 800 100 42.

Definition edge_pixel : float2 := Float2 100 50.


(** Circular particles of 10 pixels and the pixel centre nearest the
    top-left corner of the image; square particles of 3 pixels and a
    position on the edge between the first two cells of the top row. *)
Definition corner_uniforms : DustShader.Uniforms :=
  DustSnapGL_uniforms 0 demo_layout 10 circle 42.

Definition corner_pixel : float2 := Float2 10.5 20.5.

Definition seam_uniforms : DustShader.Uniforms := demo_uniforms 0 square.

Definition seam_pixel : float2 := Float2 13 21.5.


(** ** Variations of the uniforms

    The same uniforms with the image placed [d] further, and with another
    particle shape. *)
Definition shift_placement (u : DustShader.Uniforms) (d : float2)
  : DustShader.Uniforms :=
  {| DustShader.time := DustShader.time u;
     DustShader.imageSize := DustShader.imageSize u;
     DustShader.imageOffset := v2add (DustShader.imageOffset u) d;
     DustShader.canvasOffset := DustShader.canvasOffset u;
     DustShader.particleSize := DustShader.particleSize u;
     DustShader.seed := DustShader.seed u;
     DustShader.isCircle := DustShader.isCircle u;
     DustShader.timeScale := DustShader.timeScale u;
     DustShader.maxTime := DustShader.maxTime u;
     DustShader.windSpeed := DustShader.windSpeed u;
     DustShader.verticalSpread := DustShader.verticalSpread u;
     DustShader.turbulence := DustShader.turbulence u;
     DustShader.burstStrength := DustShader.burstStrength u;
     DustShader.floatAmp := DustShader.floatAmp u;
     DustShader.reverseWindMult := DustShader.reverseWindMult u;
     DustShader.lifetimeMin := DustShader.lifetimeMin u;
     DustShader.lifetimeRange := DustShader.lifetimeRange u;
     DustShader.fadeStart := DustShader.fadeStart u;
     DustShader.driftX := DustShader.driftX u;
     DustShader.driftY := DustShader.driftY u |}.

Definition with_shape (u : DustShader.Uniforms) (shape : Z) : DustShader.Uniforms :=
  {| DustShader.time := DustShader.time u;
     DustShader.imageSize := DustShader.imageSize u;
     DustShader.imageOffset := DustShader.imageOffset u;
     DustShader.canvasOffset := DustShader.canvasOffset u;
     DustShader.particleSize := DustShader.particleSize u;
     DustShader.seed := DustShader.seed u;
     DustShader.isCircle := shape;
     DustShader.timeScale := DustShader.timeScale u;
     DustShader.maxTime := DustShader.maxTime u;
     DustShader.windSpeed := DustShader.windSpeed u;
     DustShader.verticalSpread := DustShader.verticalSpread u;
     DustShader.turbulence := DustShader.turbulence u;
     DustShader.burstStrength := DustShader.burstStrength u;
     DustShader.floatAmp := DustShader.floatAmp u;
     DustShader.reverseWindMult := DustShader.reverseWindMult u;
     DustShader.lifetimeMin := DustShader.lifetimeMin u;
     DustShader.lifetimeRange := DustShader.lifetimeRange u;
     DustShader.fadeStart := DustShader.fadeStart u;
     DustShader.driftX := DustShader.driftX u;
     DustShader.driftY := DustShader.driftY u |}.

(** What is assumed of the GPU's cosine where a statement needs it. *)
Definition bounded_cos (cos : Q -> Q) : Prop := forall a, -1 <= cos a /\ cos a <= 1.


(** ** What DustSnapGL renders

    The component returns [null] when
    [!isSnapped || !isAnimating || !image || !shaderEffect], and the canvas
    with the shader otherwise. *)
Definition DustSnapGL_renders (p : Driver.Props) (st : Driver.State) : bool :=
  Driver.isSnapped p && Driver.isAnimating st && Driver.image p
  && Driver.shaderEffect p.

(** Snapped, image and shader there, but a placement that has not been
    measured: the layout the application starts from and goes back to. *)
Definition unmeasured_props : Driver.Props :=
  {| Driver.isSnapped := true; Driver.image := true;
     Driver.shaderEffect := true;
     Driver.imageLayout := {| lx := 0; ly := 0; lwidth := 0; lheight := 0 |};
     Driver.onAnimationComplete := true |}.

(** ** The animation driver of BlowAwayImage

    The [useEffect] on [trigger, image, shaderEffect, duration, onComplete,
    ...] against the same virtual clock.  The effect asks for the position
    of the static view ([measureInWindow], when [containerRef.current] is
    there) and sets the completion timer at once; the animation starts in the
    measurement's callback, which runs later.  The cleanup the effect
    returns clears the timer, nothing else.  [setTimeout] takes a negative
    delay as 0. *)

Module BlowAway.

Record Props := {
  trigger : bool;
  image : bool;                 (* the decoded image is there *)
  shaderEffect : bool;          (* the runtime effect compiled *)
  particleSize : JSNumber;      (* default 4 *)
  duration : Z;                 (* default 2000 *)
  onComplete : bool;            (* the optional callback is given *)
  width : Q;
  height : Q
}.

Record State := {
  now : Z;
  isAnimating : bool;
  animationTime : Driver.SharedValue;
  imageOffsetX : Q;
  imageOffsetY : Q;
  cleanupFn : option nat;       (* the timer the last cleanup closure clears *)
  next_timer : nat;
  timers : list Driver.Timer;
  measuring : list Z;           (* pending measurement callbacks of the effect,
                                   each with the [duration] it captured *)
  completions : list Z
}.

Definition initial (t0 : Z) : State :=
  {| now := t0; isAnimating := false; animationTime := Driver.Still 0;
     imageOffsetX := 0; imageOffsetY := 0; cleanupFn := None;
     next_timer := 1; timers := []; measuring := []; completions := [] |}.

(** The previous effect's cleanup, [() => clearTimeout(timeout)], if it
    returned one. *)
Definition cleanup (st : State) : State :=
  match cleanupFn st with
  | Some id =>
      {| now := now st; isAnimating := isAnimating st;
         animationTime := animationTime st;
         imageOffsetX := imageOffsetX st; imageOffsetY := imageOffsetY st;
         cleanupFn := None; next_timer := next_timer st;
         timers := filter (fun tm => negb (Driver.tid tm =? id)%nat) (timers st);
         measuring := measuring st; completions := completions st |}
  | None => st
  end.

(** [trigger && image && shaderEffect] *)
Definition should_start (p : Props) : bool :=
  trigger p && image p && shaderEffect p.

(** The effect body; [hasRef] tells whether [containerRef.current] is set. *)
Definition effect (p : Props) (hasRef : bool) (st : State) : State :=
  if should_start p then
    let id := next_timer st in
    {| now := now st; isAnimating := isAnimating st;
       animationTime := animationTime st;
       imageOffsetX := imageOffsetX st; imageOffsetY := imageOffsetY st;
       cleanupFn := Some id; next_timer := S id;
       timers := timers st
                 ++ [{| Driver.tid := id;
                        Driver.due := (now st + Z.max 0 (duration p + 100))%Z;
                        Driver.notify := onComplete p |}];
       measuring := measuring st ++ (if hasRef then [duration p] else []);
       completions := completions st |}
  else
    {| now := now st; isAnimating := isAnimating st;
       animationTime := animationTime st;
       imageOffsetX := imageOffsetX st; imageOffsetY := imageOffsetY st;
       cleanupFn := None; next_timer := next_timer st;
       timers := timers st; measuring := measuring st;
       completions := completions st |}.

(** The callback the effect gave to [measureInWindow]. *)
Definition measured (x y : Q) (st : State) : State :=
  match measuring st with
  | [] => st
  | d :: rest =>
      {| now := now st; isAnimating := true;
         animationTime := Driver.Timing 0 3.0 (now st) d;
         imageOffsetX := x; imageOffsetY := y;
         cleanupFn := cleanupFn st; next_timer := next_timer st;
         timers := timers st; measuring := rest;
         completions := completions st |}
  end.

(** The callback of [measurePosition] (the static view's [onLayout]). *)
Definition positioned (x y : Q) (st : State) : State :=
  {| now := now st; isAnimating := isAnimating st;
     animationTime := animationTime st;
     imageOffsetX := x; imageOffsetY := y;
     cleanupFn := cleanupFn st; next_timer := next_timer st;
     timers := timers st; measuring := measuring st;
     completions := completions st |}.

Definition elapse (dt : nat) (st : State) : State :=
  let now' := (now st + Z.of_nat dt)%Z in
  let fired := filter (fun tm => (Driver.due tm <=? now')%Z) (timers st) in
  {| now := now'; isAnimating := isAnimating st;
     animationTime := animationTime st;
     imageOffsetX := imageOffsetX st; imageOffsetY := imageOffsetY st;
     cleanupFn := cleanupFn st; next_timer := next_timer st;
     timers := filter (fun tm => negb (Driver.due tm <=? now')%Z) (timers st);
     measuring := measuring st;
     completions :=
       completions st ++ map (fun _ => now') (filter Driver.notify fired) |}.

Inductive Event :=
| Render (p : Props) (hasRef : bool)
| Unmount
| Measured (x y : Q)
| Positioned (x y : Q)
| Elapse (dt : nat).

Definition step (st : State) (e : Event) : State :=
  match e with
  | Render p hasRef => effect p hasRef (cleanup st)
  | Unmount => cleanup st
  | Measured x y => measured x y st
  | Positioned x y => positioned x y st
  | Elapse dt => elapse dt st
  end.

Definition run (evs : list Event) (st : State) : State := fold_left step evs st.

Definition reachable (st : State) : Prop :=
  exists t0 evs, st = run evs (initial t0).

(** Events that neither re-run the effect nor unmount the component. *)
Definition quiet (e : Event) : bool :=
  match e with
  | Render _ _ | Unmount => false
  | _ => true
  end.

Definition owned (st : State) : Prop :=
  forall tm, In tm (timers st) -> cleanupFn st = Some (Driver.tid tm).

Definition in_ramp (st : State) : Prop :=
  forall at_ms : Z, 0 <= Driver.value_at (animationTime st) at_ms
                    /\ Driver.value_at (animationTime st) at_ms <= 3.

Definition phase (tm : Driver.Timer) (log : list Z) (st : State) : Prop :=
  (timers st = [tm] /\ (now st < Driver.due tm)%Z /\ completions st = log)
  \/ (timers st = []
      /\ exists tau, completions st = log ++ [tau]
                     /\ (Driver.due tm <= tau <= now st)%Z).

(** The uniforms the shader sees in a driver state. *)
Definition uniforms (st : State) (p : Props) (screenWidth screenHeight seed : Q)
  : option DustSnapShader.Uniforms :=
  BlowAwayImage_uniforms (Driver.value_at (animationTime st) (now st))
    (width p) (height p) (imageOffsetX st) (imageOffsetY st)
    screenWidth screenHeight (particleSize p) seed.

(** What the component returns. *)
Inductive View := Placeholder | FullScreenCanvas | StaticImage.

Definition view (p : Props) (st : State) : View :=
  if negb (image p) || negb (shaderEffect p) then Placeholder
  else if isAnimating st then FullScreenCanvas
  else StaticImage.

End BlowAway.

Definition blow_props : BlowAway.Props :=
  {| BlowAway.trigger := true; BlowAway.image := true;
     BlowAway.shaderEffect := true; BlowAway.particleSize := Finite 4;
     BlowAway.duration := 2000; BlowAway.onComplete := true;
     BlowAway.width := 100; BlowAway.height := 100 |}.

Definition blow_idle_props : BlowAway.Props :=
  {| BlowAway.trigger := false; BlowAway.image := true;
     BlowAway.shaderEffect := true; BlowAway.particleSize := Finite 4;
     BlowAway.duration := 2000; BlowAway.onComplete := true;
     BlowAway.width := 100; BlowAway.height := 100 |}.

(** Uniforms with lifetimes of 10 to 15 units of elapsed time, well below
    [maxTime], at the end of the ramp ([t = 22]); the image is placed at
    (200, 20), so that the pixel below searches inside the image. *)
Definition brief_uniforms : DustShader.Uniforms :=
  {| DustShader.time := 1;
     DustShader.imageSize := Float2 100 100;
     DustShader.imageOffset := Float2 200 20;
     DustShader.canvasOffset := Float2 0 0;
     DustShader.particleSize := 3;
     DustShader.seed := 42;
     DustShader.isCircle := 1;
     DustShader.timeScale := ANIMATION_CONFIG.TIME_SCALE;
     DustShader.maxTime := ANIMATION_CONFIG.MAX_TIME;
     DustShader.windSpeed := ANIMATION_CONFIG.WIND_SPEED;
     DustShader.verticalSpread := ANIMATION_CONFIG.VERTICAL_SPREAD;
     DustShader.turbulence := ANIMATION_CONFIG.TURBULENCE;
     DustShader.burstStrength := ANIMATION_CONFIG.BURST_STRENGTH;
     DustShader.floatAmp := ANIMATION_CONFIG.FLOAT_AMPLITUDE;
     DustShader.reverseWindMult := ANIMATION_CONFIG.REVERSE_WIND_MULTIPLIER;
     DustShader.lifetimeMin := 10;
     DustShader.lifetimeRange := 5;
     DustShader.fadeStart := ANIMATION_CONFIG.FADE_START;
     DustShader.driftX := ANIMATION_CONFIG.DRIFT_X;
     DustShader.driftY := ANIMATION_CONFIG.DRIFT_Y |}.

Definition brief_pixel : float2 := Float2 100.5 50.5.

(** ** The end of a run of DustSnapGL

    A 100 x 100 image placed at (290, 350) on a screen of 400 x 800; the
    state of the component one second after the run started, when the ramp
    has reached its end and the completion timer, due 100 ms later, is
    still pending; the uniforms of that state with the application's
    particles (circles of 3 pixels); and a cell of the image with the pixel
    over which its particle then lies. *)
Definition far_layout : Layout :=
  {| lx := 290; ly := 350; lwidth := 100; lheight := 100 |}.

Definition far_props : Driver.Props :=
  {| Driver.isSnapped := true; Driver.image := true;
     Driver.shaderEffect := true; Driver.imageLayout := far_layout;
     Driver.onAnimationComplete := true |}.

Definition end_state : Driver.State :=
  Driver.run [Driver.Render far_props; Driver.Elapse 1000] (Driver.initial 0).

Definition end_uniforms : DustShader.Uniforms :=
  Driver.uniforms end_state far_props 3 circle 42.

Definition stray_cell : float2 := Float2 0 3.

Definition stray_pixel : float2 := Float2 94.5 439.5.

(** [p] lies on a screen of [w] x [h] pixels. *)
Definition on_screen (w h : Q) (p : float2) : bool :=
  Qleb 0 (vx p) && Qltb (vx p) w && Qleb 0 (vy p) && Qltb (vy p) h.

(** * Theorems *)

(** ** Comparisons, [fract] and the hashes *)

Lemma Qltb_true (a b : Q) : Qltb a b = true <-> a < b.
Proof.
  unfold Qltb. rewrite negb_true_iff. split; intro H.
  - apply Qnot_le_lt. intro Hle. apply Qle_bool_iff in Hle. congruence.
  - destruct (Qle_bool b a) eqn:E; [|reflexivity].
    apply Qle_bool_iff in E. exfalso. apply (Qlt_not_le _ _ H E).
Qed.

Lemma Qltb_false (a b : Q) : Qltb a b = false <-> b <= a.
Proof.
  unfold Qltb. rewrite negb_false_iff. apply Qle_bool_iff.
Qed.

Lemma Qgtb_true (a b : Q) : Qgtb a b = true <-> b < a.
Proof. apply Qltb_true. Qed.

Lemma Qgtb_false (a b : Q) : Qgtb a b = false <-> a <= b.
Proof. apply Qltb_false. Qed.

Lemma Qleb_true (a b : Q) : Qleb a b = true <-> a <= b.
Proof. apply Qle_bool_iff. Qed.

Lemma Qleb_false (a b : Q) : Qleb a b = false <-> b < a.
Proof.
  unfold Qleb. split; intro H.
  - apply Qnot_le_lt. intro Hle. apply Qle_bool_iff in Hle. congruence.
  - destruct (Qle_bool a b) eqn:E; [|reflexivity].
    apply Qle_bool_iff in E. exfalso. apply (Qlt_not_le _ _ H E).
Qed.

Lemma Qgeb_true (a b : Q) : Qgeb a b = true <-> b <= a.
Proof. apply Qle_bool_iff. Qed.

Lemma Qgeb_false (a b : Q) : Qgeb a b = false <-> a < b.
Proof. apply Qleb_false. Qed.

Lemma fract_range (a : Q) : 0 <= fract a /\ fract a < 1.
Proof.
  unfold fract, floorQ.
  pose proof (Qfloor_le a) as Hlo.
  pose proof (Qlt_floor a) as Hhi.
  rewrite inject_Z_plus in Hhi. change (inject_Z 1) with 1 in Hhi.
  split; lra.
Qed.

Lemma floorQ_shift (a : Q) (k : Z) : floorQ (a + inject_Z k) = inject_Z (Qfloor a + k).
Proof.
  unfold floorQ. f_equal.
  pose proof (Qfloor_le a) as Hlo.
  pose proof (Qlt_floor a) as Hhi.
  pose proof (Qfloor_le (a + inject_Z k)) as Hlo'.
  pose proof (Qlt_floor (a + inject_Z k)) as Hhi'.
  rewrite inject_Z_plus in Hhi, Hhi'. change (inject_Z 1) with 1 in Hhi, Hhi'.
  assert (H1 : inject_Z (Qfloor (a + inject_Z k)) < inject_Z (Qfloor a + k + 1)).
  { rewrite !inject_Z_plus. change (inject_Z 1) with 1. lra. }
  assert (H2 : inject_Z (Qfloor a + k) < inject_Z (Qfloor (a + inject_Z k) + 1)).
  { rewrite !inject_Z_plus. change (inject_Z 1) with 1. lra. }
  rewrite <- Zlt_Qlt in H1, H2. lia.
Qed.

Lemma Qabs_bounds (a : Q) : - Qabs a <= a /\ a <= Qabs a.
Proof.
  pose proof (Qle_Qabs a) as H1. pose proof (Qle_Qabs (- a)) as H2.
  rewrite Qabs_opp in H2. split; lra.
Qed.

Lemma Qabs_le_intro (a b : Q) : - b <= a /\ a <= b -> Qabs a <= b.
Proof. intro H. apply Qabs_Qle_condition. exact H. Qed.

Lemma Qmult_comm_eq (a b : Q) : a * b = b * a.
Proof.
  destruct a as [an ad], b as [bn bd]. unfold Qmult; simpl.
  f_equal; [apply Z.mul_comm | apply Pos.mul_comm].
Qed.

Section HashRanges.

Variables sin cos : Q -> Q.
Variable u : DustShader.Uniforms.

Lemma hash_range (p : float2) :
  0 <= DustShader.hash sin p /\ DustShader.hash sin p < 1.
Proof. apply fract_range. Qed.

Lemma rnd1_range (c : float2) :
  0 <= DustShader.rnd1 sin u c /\ DustShader.rnd1 sin u c < 1.
Proof. apply fract_range. Qed.

Lemma rnd2_range (c : float2) :
  0 <= DustShader.rnd2 sin u c /\ DustShader.rnd2 sin u c < 1.
Proof. apply fract_range. Qed.

Lemma rnd3_range (c : float2) :
  0 <= DustShader.rnd3 sin u c /\ DustShader.rnd3 sin u c < 1.
Proof. apply fract_range. Qed.

Lemma maxLife_pos (c : float2) :
  0 < DustShader.lifetimeMin u -> 0 <= DustShader.lifetimeRange u ->
  DustShader.lifetimeMin u <= DustShader.maxLife sin u c.
Proof.
  intros Hmin Hrange. unfold DustShader.maxLife.
  destruct (rnd1_range c) as [H0 _].
  pose proof (Qmult_le_0_compat _ _ H0 Hrange). lra.
Qed.

End HashRanges.

Lemma snap_hash_range (p : float2) :
  0 <= DustSnapShader.hash p /\ DustSnapShader.hash p < 1.
Proof. apply fract_range. Qed.

(** ** Loops as searches *)

Lemma for_loop_first_some {A : Type} (body : Z -> option A) (n : nat) (k : Z) :
  for_loop n k body = first_some body (count_from n k).
Proof.
  revert k. induction n as [|n IH]; intro k; simpl; [reflexivity|].
  destruct (body k); [reflexivity | apply IH].
Qed.

Lemma first_some_app {A B : Type} (f : A -> option B) (l1 l2 : list A) :
  first_some f (l1 ++ l2) =
  match first_some f l1 with Some r => Some r | None => first_some f l2 end.
Proof.
  induction l1 as [|a l1 IH]; simpl; [reflexivity|].
  destruct (f a); [reflexivity | apply IH].
Qed.

Lemma first_some_map {A B C : Type} (g : A -> B) (f : B -> option C) (l : list A) :
  first_some f (map g l) = first_some (fun a => f (g a)) l.
Proof.
  induction l as [|a l IH]; simpl; [reflexivity|].
  destruct (f (g a)); [reflexivity | apply IH].
Qed.

Lemma nested_loops_window {A : Type} (body : Z -> Z -> option A) (lo1 hi1 lo2 hi2 : Z) :
  for_range lo1 hi1 (fun i => for_range lo2 hi2 (fun j => body i j)) =
  first_some (fun ij => body (fst ij) (snd ij)) (window lo1 hi1 lo2 hi2).
Proof.
  unfold for_range, window, range.
  rewrite for_loop_first_some.
  generalize (count_from (Z.to_nat (hi1 - lo1 + 1)) lo1) as l.
  induction l as [|i l IH]; simpl; [reflexivity|].
  rewrite first_some_app, first_some_map, <- for_loop_first_some. simpl.
  destruct (for_loop _ lo2 _); [reflexivity | apply IH].
Qed.

Lemma first_some_find {A B : Type} (q : A -> bool) (g : A -> B)
    (f : A -> option B) (l : list A) :
  (forall a, f a = if q a then Some (g a) else None) ->
  first_some f l = option_map g (find q l).
Proof.
  intro Hf. induction l as [|a l IH]; simpl; [reflexivity|].
  rewrite Hf. destruct (q a); [reflexivity | apply IH].
Qed.

Lemma first_some_none {A B : Type} (f : A -> option B) (l : list A) :
  (forall a, In a l -> f a = None) -> first_some f l = None.
Proof.
  induction l as [|a l IH]; intro H; simpl; [reflexivity|].
  rewrite (H a (or_introl eq_refl)). apply IH.
  intros b Hb. apply H. right. exact Hb.
Qed.

Lemma find_first {A : Type} (q : A -> bool) (l1 l2 : list A) (a : A) :
  (forall b, In b l1 -> q b = false) -> q a = true ->
  find q (l1 ++ a :: l2) = Some a.
Proof.
  induction l1 as [|b l1 IH]; simpl; intros H Ha.
  - rewrite Ha. reflexivity.
  - rewrite (H b (or_introl eq_refl)). apply IH; [|exact Ha].
    intros c Hc. apply H. right. exact Hc.
Qed.

Lemma forallb_negb_In {A : Type} (q : A -> bool) (l : list A) :
  forallb (fun a => negb (q a)) l = true -> forall a, In a l -> q a = false.
Proof.
  intros H a Ha. rewrite forallb_forall in H.
  apply negb_true_iff. apply H. exact Ha.
Qed.

(** ** The field functions as first-match searches *)

Section DustShaderSearch.

Variables sin cos : Q -> Q.
Variable image : float2 -> half4.
Variable u : DustShader.Uniforms.

Lemma candidate_qualifies (screenCoord base : float2) (t : Q) (ij : Z * Z) :
  DustShader.candidate sin cos image u screenCoord base t (fst ij) (snd ij) =
  if DustShaderSpec.qualifies sin cos image u screenCoord base t ij
  then Some (DustShaderSpec.carried sin image u base t ij)
  else None.
Proof.
  unfold DustShader.candidate, DustShaderSpec.qualifies, DustShaderSpec.carried,
    DustShaderSpec.in_image, DustShaderSpec.expired, DustShaderSpec.covers,
    DustShaderSpec.fade_alpha, DustShaderSpec.rest_colour, DustShaderSpec.cell.
  destruct (DustShader.outside_image _ _); simpl; [reflexivity|].
  destruct (Qgeb _ 1); simpl; [reflexivity|].
  destruct (DustShader.inside _ _); simpl; [|reflexivity].
  destruct (Qgtb (DustShader.fade _ _) _); simpl; [|reflexivity].
  destruct (Qgtb (ca _) _); reflexivity.
Qed.

Lemma main_search (fragCoord : float2) :
  let screenCoord := v2add fragCoord (DustShader.canvasOffset u) in
  let base := DustShader.baseImgPos u screenCoord in
  let t := DustShader.elapsed u in
  DustShader.main sin cos image u fragCoord =
  if Qgtb t (DustShader.maxTime u) then transparent
  else match find (DustShaderSpec.qualifies sin cos image u screenCoord base t)
                  DustShaderSpec.candidates with
       | Some ij => DustShaderSpec.carried sin image u base t ij
       | None => transparent
       end.
Proof.
  intros screenCoord base t. unfold DustShader.main.
  fold screenCoord. fold base. fold t.
  destruct (Qgtb t _); [reflexivity|].
  rewrite nested_loops_window.
  rewrite (first_some_find _ _ _ _ (candidate_qualifies screenCoord base t)).
  fold DustShaderSpec.candidates.
  destruct (find _ _); reflexivity.
Qed.

End DustShaderSearch.

Section DustSnapShaderSearch.

Variable sin : Q -> Q.
Variable pow : Q -> Q -> Q.
Variable image : float2 -> half4.
Variable u : DustSnapShader.Uniforms.

Lemma snap_candidate_visible (fragCoord base : float2) (t : Q) (ij : Z * Z) :
  DustSnapShader.candidate sin pow image u fragCoord base t (fst ij) (snd ij) =
  if DustSnapShaderSpec.visible sin pow u fragCoord base t ij
  then Some (DustSnapShaderSpec.carried pow image u base t ij)
  else None.
Proof.
  unfold DustSnapShader.candidate, DustSnapShaderSpec.visible,
    DustSnapShaderSpec.carried, DustSnapShaderSpec.in_image,
    DustSnapShaderSpec.expired, DustSnapShaderSpec.covers,
    DustSnapShaderSpec.fade_alpha, DustSnapShaderSpec.rest_colour,
    DustSnapShaderSpec.cell.
  destruct (DustSnapShader.outside_image _ _); simpl; [reflexivity|].
  destruct (Qgeb _ 1); simpl; [reflexivity|].
  destruct (DustSnapShader.inside _ _); simpl; [|reflexivity].
  destruct (Qgtb (DustSnapShader.fade _ _) _); reflexivity.
Qed.

Lemma snap_main_search (fragCoord : float2) :
  let base := DustSnapShader.baseImgPos u fragCoord in
  let t := DustSnapShader.elapsed u in
  DustSnapShader.main sin pow image u fragCoord =
  if Qgtb t 180 then transparent
  else match find (DustSnapShaderSpec.visible sin pow u fragCoord base t)
                  DustSnapShaderSpec.candidates with
       | Some ij => DustSnapShaderSpec.carried pow image u base t ij
       | None => transparent
       end.
Proof.
  intros base t. unfold DustSnapShader.main.
  fold base. fold t.
  destruct (Qgtb t 180); [reflexivity|].
  rewrite nested_loops_window.
  rewrite (first_some_find _ _ _ _ (snap_candidate_visible fragCoord base t)).
  fold DustSnapShaderSpec.candidates.
  destruct (find _ _); reflexivity.
Qed.

End DustSnapShaderSearch.

(** ** DUST_SNAP_SHADER at rest

    At [t == 0] the horizontal wind and the lift vanish and only the wave,
    at most 6 pixels, displaces a particle. *)

Section DustSnapShaderRest.

Variable sin : Q -> Q.
Variable pow : Q -> Q -> Q.
Variable u : DustSnapShader.Uniforms.
Hypothesis sin_bounded : bounded_sin sin.

Lemma snap_lifeRatio_rest (c : float2) (t : Q) :
  t == 0 -> DustSnapShader.lifeRatio u c t == 0.
Proof.
  intro Ht. unfold DustSnapShader.lifeRatio, Qdiv. rewrite Ht. apply Qmult_0_l.
Qed.

Lemma snap_fade_rest (c : float2) (t : Q) :
  t == 0 -> DustSnapShader.fade pow (DustSnapShader.lifeRatio u c t) = 1.
Proof.
  intro Ht. unfold DustSnapShader.fade.
  assert (E : Qgtb (DustSnapShader.lifeRatio u c t) 0.3 = false).
  { apply Qgtb_false. rewrite (snap_lifeRatio_rest c t Ht). lra. }
  rewrite E. reflexivity.
Qed.

Lemma snap_visible_rest (fragCoord base : float2) (t : Q) (ij : Z * Z) :
  let c := DustSnapShaderSpec.cell u base ij in
  t == 0 ->
  DustSnapShaderSpec.in_image u base ij = true ->
  Qabs (vx fragCoord
        - (vx (DustSnapShader.imageOffset u) + vx (DustSnapShader.cellCenter u c)))
    <= DustSnapShader.halfSize u ->
  Qabs (vy fragCoord
        - (vy (DustSnapShader.imageOffset u) + vy (DustSnapShader.cellCenter u c)))
    + 6 <= DustSnapShader.halfSize u ->
  DustSnapShaderSpec.visible sin pow u fragCoord base t ij = true.
Proof.
  intros c Ht Hin Hx Hy.
  unfold DustSnapShaderSpec.visible, DustSnapShaderSpec.expired,
    DustSnapShaderSpec.fade_alpha, DustSnapShaderSpec.covers.
  fold c. rewrite Hin.
  assert (Hexp : Qgeb (DustSnapShader.lifeRatio u c t) 1 = false).
  { apply Qgeb_false. rewrite (snap_lifeRatio_rest c t Ht). lra. }
  rewrite Hexp, (snap_fade_rest c t Ht).
  assert (Ewx : DustSnapShader.windX u c t == 0).
  { unfold DustSnapShader.windX. rewrite Ht. ring. }
  assert (Elift : DustSnapShader.lift u c t == 0).
  { unfold DustSnapShader.lift. rewrite Ht. ring. }
  assert (Hwave : -6 <= DustSnapShader.wave sin u c t /\ DustSnapShader.wave sin u c t <= 6).
  { unfold DustSnapShader.wave.
    destruct (sin_bounded (t * 0.12 + DustSnapShader.rndSeed u c * 15)) as [Hlo Hhi].
    split; lra. }
  pose proof (Qabs_bounds (vx fragCoord
     - (vx (DustSnapShader.imageOffset u) + vx (DustSnapShader.cellCenter u c)))).
  pose proof (Qabs_bounds (vy fragCoord
     - (vy (DustSnapShader.imageOffset u) + vy (DustSnapShader.cellCenter u c)))).
  assert (Hins : DustSnapShader.inside u
            (v2sub fragCoord (DustSnapShader.particlePos sin u c t)) = true).
  { unfold DustSnapShader.inside, DustSnapShader.particlePos,
      DustSnapShader.windY, v2sub, v2add. cbn [vx vy].
    apply andb_true_iff; split; apply Qleb_true; apply Qabs_le_intro; lra. }
  rewrite Hins. reflexivity.
Qed.

End DustSnapShaderRest.

(** ** C1: the first match wins *)

Lemma snap_qualifies_needs (sin : Q -> Q) (pow : Q -> Q -> Q)
    (image : float2 -> half4) (u : DustSnapShader.Uniforms)
    (fragCoord base : float2) (t : Q) (ij : Z * Z) :
  DustSnapShaderSpec.in_image u base ij
  && Qgtb (ca (DustSnapShaderSpec.rest_colour image u base ij)) 0.1 = false ->
  DustSnapShaderSpec.qualifies sin pow image u fragCoord base t ij = false.
Proof.
  unfold DustSnapShaderSpec.qualifies, DustSnapShaderSpec.visible.
  destruct (DustSnapShaderSpec.in_image u base ij); simpl; [|reflexivity].
  intro H. rewrite H. apply andb_false_r.
Qed.

Lemma snap_visible_needs (sin : Q -> Q) (pow : Q -> Q -> Q)
    (u : DustSnapShader.Uniforms) (fragCoord base : float2) (t : Q) (ij : Z * Z) :
  DustSnapShaderSpec.in_image u base ij = false ->
  DustSnapShaderSpec.visible sin pow u fragCoord base t ij = false.
Proof.
  unfold DustSnapShaderSpec.visible. intro H. rewrite H. reflexivity.
Qed.

(** C1 (as amended).  While the global cutoff has not struck
    ([t <= maxTime]), each field function returns the colour carried by the
    first candidate, in the order of the source loops (the horizontal offset
    [i] outermost, the vertical offset [j] fastest), that passes its tests;
    the candidates after it are never looked at.  DUST_SHADER tests: the
    image-local position lies in the image, [lifeRatio < 1], the particle
    covers the pixel, the fade alpha exceeds 0.01 and the source alpha at
    the cell's rest centre exceeds 0.1.  DUST_SNAP_SHADER tests the first
    four only: it has no threshold on the source alpha.  The colour returned
    is the source colour at the rest centre of the cell, its alpha
    multiplied by the fade alpha. *)
Theorem first_match_returned :
  forall (sin cos : Q -> Q) (pow : Q -> Q -> Q) (image : float2 -> half4),
    (forall (u : DustShader.Uniforms) (fragCoord : float2)
            (before after : list (Z * Z)) (ij : Z * Z),
        let screenCoord := v2add fragCoord (DustShader.canvasOffset u) in
        let base := DustShader.baseImgPos u screenCoord in
        let t := DustShader.elapsed u in
        t <= DustShader.maxTime u ->
        DustShaderSpec.candidates = before ++ ij :: after ->
        (forall c, In c before ->
           DustShaderSpec.qualifies sin cos image u screenCoord base t c = false) ->
        DustShaderSpec.qualifies sin cos image u screenCoord base t ij = true ->
        DustShader.main sin cos image u fragCoord
        = DustShaderSpec.carried sin image u base t ij)
    /\
    (forall (u : DustSnapShader.Uniforms) (fragCoord : float2)
            (before after : list (Z * Z)) (ij : Z * Z),
        let base := DustSnapShader.baseImgPos u fragCoord in
        let t := DustSnapShader.elapsed u in
        t <= 180 ->
        DustSnapShaderSpec.candidates = before ++ ij :: after ->
        (forall c, In c before ->
           DustSnapShaderSpec.visible sin pow u fragCoord base t c = false) ->
        DustSnapShaderSpec.visible sin pow u fragCoord base t ij = true ->
        DustSnapShader.main sin pow image u fragCoord
        = DustSnapShaderSpec.carried pow image u base t ij).
Proof.
  intros sin cos pow image. split.
  - intros u fragCoord before after ij screenCoord base t Ht Hsplit Hbefore Hij.
    pose proof (main_search sin cos image u fragCoord) as Hm.
    cbv zeta in Hm. fold screenCoord in Hm. fold base in Hm. fold t in Hm.
    rewrite Hm.
    apply Qgtb_false in Ht. rewrite Ht.
    rewrite Hsplit, (find_first _ _ _ _ Hbefore Hij). reflexivity.
  - intros u fragCoord before after ij base t Ht Hsplit Hbefore Hij.
    pose proof (snap_main_search sin pow image u fragCoord) as Hm.
    cbv zeta in Hm. fold base in Hm. fold t in Hm.
    rewrite Hm.
    apply Qgtb_false in Ht. rewrite Ht.
    rewrite Hsplit, (find_first _ _ _ _ Hbefore Hij). reflexivity.
Qed.

Lemma first_match_returned_witness :
  DustShader.main sin_q cos_q demo_image (demo_uniforms 0 circle) (Float2 40.5 50.5)
  = DustShaderSpec.carried sin_q demo_image (demo_uniforms 0 circle)
      (DustShader.baseImgPos (demo_uniforms 0 circle) (Float2 40.5 50.5)) 0 (0, 0)%Z
  /\
  DustSnapShader.main sin_q pow_q edge_image edge_uniforms edge_pixel
  = DustSnapShaderSpec.carried pow_q edge_image edge_uniforms
      (DustSnapShader.baseImgPos edge_uniforms edge_pixel) 0 (-1, 0)%Z.
Proof.
  split.
  - apply (proj1 (first_match_returned sin_q cos_q pow_q demo_image)
             (demo_uniforms 0 circle) (Float2 40.5 50.5)
             (firstn 40 DustShaderSpec.candidates)
             (skipn 41 DustShaderSpec.candidates) (0, 0)%Z).
    + vm_compute. discriminate.
    + vm_compute. reflexivity.
    + apply forallb_negb_In. vm_compute. reflexivity.
    + vm_compute. reflexivity.
  - apply (proj2 (first_match_returned sin_q cos_q pow_q edge_image)
             edge_uniforms edge_pixel
             (firstn 82 DustSnapShaderSpec.candidates)
             (skipn 83 DustSnapShaderSpec.candidates) (-1, 0)%Z).
    + vm_compute. discriminate.
    + vm_compute. reflexivity.
    + apply forallb_negb_In. vm_compute. reflexivity.
    + vm_compute. reflexivity.
Defined.

(** C1 as stated fails on DUST_SNAP_SHADER.  On the two-cell image, at the
    pixel on the common edge and at time 0, the first candidate that covers
    the pixel, has not expired, is visible and has a source alpha above 0.1
    is the right cell, offset (0, 0), whose carried colour has alpha 1; the
    shader returns at the transparent left cell, offset (-1, 0), enumerated
    before it, with alpha 0.  This is so for every sine with values in
    [-1, 1] and every [pow]. *)
Lemma first_match_counterexample :
  DustSnapShaderSpec.candidates
  = firstn 93 DustSnapShaderSpec.candidates
    ++ (0, 0)%Z :: skipn 94 DustSnapShaderSpec.candidates
  /\
  forall (sin : Q -> Q) (pow : Q -> Q -> Q), bounded_sin sin ->
    let base := DustSnapShader.baseImgPos edge_uniforms edge_pixel in
    let t := DustSnapShader.elapsed edge_uniforms in
    t <= 180
    /\ (forall c, In c (firstn 93 DustSnapShaderSpec.candidates) ->
          DustSnapShaderSpec.qualifies sin pow edge_image edge_uniforms
            edge_pixel base t c = false)
    /\ DustSnapShaderSpec.qualifies sin pow edge_image edge_uniforms
         edge_pixel base t (0, 0)%Z = true
    /\ ca (DustSnapShaderSpec.carried pow edge_image edge_uniforms base t (0, 0)%Z) == 1
    /\ ca (DustSnapShader.main sin pow edge_image edge_uniforms edge_pixel) == 0.
Proof.
  split; [vm_compute; reflexivity|].
  intros sin pow Hsin base t.
  assert (Ht : t == 0) by (vm_compute; reflexivity).
  assert (Hvis : forall ij,
             DustSnapShaderSpec.in_image edge_uniforms base ij = true ->
             Qabs (vx edge_pixel
                   - (vx (DustSnapShader.imageOffset edge_uniforms)
                      + vx (DustSnapShader.cellCenter edge_uniforms
                              (DustSnapShaderSpec.cell edge_uniforms base ij))))
               <= DustSnapShader.halfSize edge_uniforms ->
             Qabs (vy edge_pixel
                   - (vy (DustSnapShader.imageOffset edge_uniforms)
                      + vy (DustSnapShader.cellCenter edge_uniforms
                              (DustSnapShaderSpec.cell edge_uniforms base ij))))
               + 6 <= DustSnapShader.halfSize edge_uniforms ->
             DustSnapShaderSpec.visible sin pow edge_uniforms edge_pixel base t ij = true).
  { intros ij. apply (snap_visible_rest sin pow edge_uniforms Hsin edge_pixel base t ij Ht). }
  split; [vm_compute; discriminate|].
  split.
  { intros c Hc. apply snap_qualifies_needs.
    revert c Hc. apply forallb_negb_In. vm_compute. reflexivity. }
  split.
  { unfold DustSnapShaderSpec.qualifies. rewrite Hvis.
    - vm_compute. reflexivity.
    - vm_compute. reflexivity.
    - vm_compute. discriminate.
    - vm_compute. discriminate. }
  split.
  { unfold DustSnapShaderSpec.carried, DustSnapShaderSpec.fade_alpha. cbn [ca].
    rewrite snap_fade_rest by exact Ht. vm_compute. reflexivity. }
  pose proof (snap_main_search sin pow edge_image edge_uniforms edge_pixel) as Hm.
  cbv zeta in Hm. fold base in Hm. fold t in Hm. rewrite Hm.
  assert (Hcut : Qgtb t 180 = false) by (vm_compute; reflexivity).
  rewrite Hcut.
  assert (Hsplit : DustSnapShaderSpec.candidates
                   = firstn 82 DustSnapShaderSpec.candidates
                     ++ (-1, 0)%Z :: skipn 83 DustSnapShaderSpec.candidates)
    by (vm_compute; reflexivity).
  rewrite Hsplit, (find_first _ _ _ (-1, 0)%Z).
  - unfold DustSnapShaderSpec.carried, DustSnapShaderSpec.fade_alpha. cbn [ca].
    rewrite snap_fade_rest by exact Ht. vm_compute. reflexivity.
  - intros c Hc. apply snap_visible_needs.
    revert c Hc. apply forallb_negb_In. vm_compute. reflexivity.
  - apply Hvis.
    + vm_compute. reflexivity.
    + vm_compute. discriminate.
    + vm_compute. discriminate.
Qed.

(** ** C3: the global cutoff *)

(** C3.  Whatever the pixel, the image, the placement, the seed and the
    configuration, each field function returns the fully transparent colour
    when [time * timeScale > maxTime] (60 and 180 in DUST_SNAP_SHADER); no
    per-cell lifetime is consulted. *)
Theorem global_cutoff :
  forall (sin cos : Q -> Q) (pow : Q -> Q -> Q) (image : float2 -> half4),
    (forall (u : DustShader.Uniforms) (fragCoord : float2),
        DustShader.maxTime u < DustShader.time u * DustShader.timeScale u ->
        DustShader.main sin cos image u fragCoord = transparent)
    /\
    (forall (u : DustSnapShader.Uniforms) (fragCoord : float2),
        180 < DustSnapShader.time u * 60 ->
        DustSnapShader.main sin pow image u fragCoord = transparent).
Proof.
  intros sin cos pow image. split; intros u fragCoord H.
  - unfold DustShader.main.
    apply Qgtb_true in H. unfold DustShader.elapsed. rewrite H. reflexivity.
  - unfold DustSnapShader.main.
    apply Qgtb_true in H. unfold DustSnapShader.elapsed. rewrite H. reflexivity.
Qed.

Lemma global_cutoff_witness :
  DustShader.main sin_q cos_q demo_image (demo_uniforms 12 circle) (Float2 40.5 50.5)
  = transparent
  /\ DustSnapShader.main sin_q pow_q demo_image (demo_snap_uniforms 3.5) (Float2 40.5 50.5)
     = transparent.
Proof.
  split.
  - apply (proj1 (global_cutoff sin_q cos_q pow_q demo_image)
             (demo_uniforms 12 circle) (Float2 40.5 50.5)).
    vm_compute. reflexivity.
  - apply (proj2 (global_cutoff sin_q cos_q pow_q demo_image)
             (demo_snap_uniforms 3.5) (Float2 40.5 50.5)).
    vm_compute. reflexivity.
Defined.

(** ** C7: candidates outside the image *)

(** C7.  A candidate whose image-local position is outside
    [[0, imageSize)] is rejected at once, whatever the intrinsics would
    compute; with a placement of zero width or zero height every candidate is
    rejected, so the field function is fully transparent at every pixel and
    time. *)
Theorem outside_candidates_rejected :
  forall (sin cos : Q -> Q) (image : float2 -> half4) (u : DustShader.Uniforms),
    (forall (screenCoord base : float2) (t : Q) (i j : Z),
        DustShader.outside_image u (DustShader.imgLocalPos u base i j) = true ->
        DustShader.candidate sin cos image u screenCoord base t i j = None)
    /\
    (forall fragCoord : float2,
        vx (DustShader.imageSize u) == 0 \/ vy (DustShader.imageSize u) == 0 ->
        DustShader.main sin cos image u fragCoord = transparent).
Proof.
  intros sin cos image u.
  assert (Hrej : forall screenCoord base t i j,
             DustShader.outside_image u (DustShader.imgLocalPos u base i j) = true ->
             DustShader.candidate sin cos image u screenCoord base t i j = None).
  { intros screenCoord base t i j H. unfold DustShader.candidate.
    rewrite H. reflexivity. }
  split; [exact Hrej|].
  intros fragCoord Hdeg. unfold DustShader.main.
  destruct (Qgtb _ _); [reflexivity|].
  rewrite nested_loops_window, first_some_none; [reflexivity|].
  intros [i j] _. cbn [fst snd]. apply Hrej.
  unfold DustShader.outside_image.
  set (p := DustShader.imgLocalPos u _ i j).
  destruct Hdeg as [Hw | Hh].
  - destruct (Qlt_le_dec (vx p) 0) as [Hn | Hp].
    + apply Qltb_true in Hn. rewrite Hn. reflexivity.
    + assert (Hge : Qgeb (vx p) (vx (DustShader.imageSize u)) = true).
      { apply Qgeb_true. lra. }
      rewrite Hge. rewrite orb_true_r. reflexivity.
  - destruct (Qlt_le_dec (vy p) 0) as [Hn | Hp].
    + apply Qltb_true in Hn. rewrite Hn. rewrite orb_true_r. reflexivity.
    + assert (Hge : Qgeb (vy p) (vy (DustShader.imageSize u)) = true).
      { apply Qgeb_true. lra. }
      rewrite Hge. rewrite orb_true_r. reflexivity.
Qed.

Lemma outside_candidates_rejected_witness :
  DustShader.candidate sin_q cos_q demo_image (demo_uniforms 0.5 circle)
    (Float2 40.5 50.5) (Float2 (-2) 30) 11 0 0 = None
  /\ DustShader.main sin_q cos_q demo_image
       (DustSnapGL_uniforms 0.5 {| lx := 10; ly := 20; lwidth := 0; lheight := 100 |}
          3 circle 42)
       (Float2 40.5 50.5) = transparent.
Proof.
  split.
  - apply (proj1 (outside_candidates_rejected sin_q cos_q demo_image
                    (demo_uniforms 0.5 circle))).
    vm_compute. reflexivity.
  - apply (proj2 (outside_candidates_rejected sin_q cos_q demo_image
                    (DustSnapGL_uniforms 0.5
                       {| lx := 10; ly := 20; lwidth := 0; lheight := 100 |}
                       3 circle 42))).
    left. vm_compute. reflexivity.
Defined.

(** ** C5: monotonic expiry *)

Lemma Qdiv_le_mono (a b m : Q) : 0 < m -> a <= b -> a / m <= b / m.
Proof.
  intros Hm Hab. unfold Qdiv.
  apply Qmult_le_compat_r; [exact Hab|].
  apply Qlt_le_weak. apply Qinv_lt_0_compat. exact Hm.
Qed.

(** C5.  With [lifetimeMin > 0] and [lifetimeRange >= 0] the life ratio
    [t / maxLife] of a cell does not decrease with [t]; and once it has
    reached 1 at some [t], the cell returns no colour at any pixel and from
    any candidate offset at every later [t']. *)
Theorem monotonic_expiry :
  forall (sin cos : Q -> Q) (image : float2 -> half4) (u : DustShader.Uniforms)
         (cellId : float2),
    0 < DustShader.lifetimeMin u -> 0 <= DustShader.lifetimeRange u ->
    (forall t t', t <= t' ->
        DustShader.lifeRatio sin u cellId t <= DustShader.lifeRatio sin u cellId t')
    /\
    (forall t t', 1 <= DustShader.lifeRatio sin u cellId t -> t < t' ->
        forall (screenCoord base : float2) (i j : Z),
          DustShader.cellOf u base i j = cellId ->
          DustShader.candidate sin cos image u screenCoord base t' i j = None).
Proof.
  intros sin cos image u cellId Hmin Hrange.
  assert (Hpos : 0 < DustShader.maxLife sin u cellId).
  { pose proof (maxLife_pos sin u cellId Hmin Hrange). lra. }
  assert (Hmono : forall t t', t <= t' ->
            DustShader.lifeRatio sin u cellId t <= DustShader.lifeRatio sin u cellId t').
  { intros t t' Htt. unfold DustShader.lifeRatio. apply Qdiv_le_mono; assumption. }
  split; [exact Hmono|].
  intros t t' Hdead Hlater screenCoord base i j Hcell.
  unfold DustShader.candidate.
  destruct (DustShader.outside_image _ _); [reflexivity|].
  rewrite Hcell.
  assert (Hexp : Qgeb (DustShader.lifeRatio sin u cellId t') 1 = true).
  { apply Qgeb_true. pose proof (Hmono t t' (Qlt_le_weak _ _ Hlater)). lra. }
  rewrite Hexp. reflexivity.
Qed.

Lemma monotonic_expiry_witness :
  DustShader.lifeRatio sin_q (demo_uniforms 0 circle) (Float2 10 10) 100
  <= DustShader.lifeRatio sin_q (demo_uniforms 0 circle) (Float2 10 10) 200
  /\
  DustShader.candidate sin_q cos_q demo_image (demo_uniforms 0 circle)
    (Float2 40.5 50.5) (Float2 30.5 30.5) 301 0 0 = None.
Proof.
  destruct (monotonic_expiry sin_q cos_q demo_image (demo_uniforms 0 circle)
              (Float2 10 10)) as [Hmono Hdead].
  - vm_compute. reflexivity.
  - vm_compute. discriminate.
  - split.
    + apply Hmono. vm_compute. discriminate.
    + apply (Hdead 300 301).
      * vm_compute. discriminate.
      * vm_compute. reflexivity.
      * vm_compute. reflexivity.
Defined.

(** ** C6: the fade *)

(** C6.  With [fadeStart < 1], the fade alpha of DUST_SHADER is 1 up to
    [fadeStart], is [(1 - (lifeRatio - fadeStart) / (1 - fadeStart))^2] above
    it, is 1 at [fadeStart] and 0 at 1, and does not increase on
    [[fadeStart, 1]]. *)
Theorem fade_bounds :
  forall u : DustShader.Uniforms,
    DustShader.fadeStart u < 1 ->
    (forall lr, lr <= DustShader.fadeStart u -> DustShader.fade u lr == 1)
    /\ (forall lr, DustShader.fadeStart u < lr ->
          DustShader.fade u lr
          == (1 - (lr - DustShader.fadeStart u) / (1 - DustShader.fadeStart u)) ^ 2)
    /\ DustShader.fade u (DustShader.fadeStart u) == 1
    /\ DustShader.fade u 1 == 0
    /\ (forall x y, DustShader.fadeStart u <= x -> x <= y -> y <= 1 ->
          DustShader.fade u y <= DustShader.fade u x).
Proof.
  intros u Hfs.
  set (fs := DustShader.fadeStart u) in *.
  assert (Hlow : forall lr, lr <= fs -> DustShader.fade u lr == 1).
  { intros lr Hlr. unfold DustShader.fade. fold fs.
    apply Qgtb_false in Hlr. rewrite Hlr. ring. }
  assert (Hhigh : forall lr, fs < lr ->
            DustShader.fade u lr == (1 - (lr - fs) / (1 - fs)) ^ 2).
  { intros lr Hlr. unfold DustShader.fade. fold fs.
    apply Qgtb_true in Hlr. rewrite Hlr. simpl. ring. }
  assert (Hd : 0 < / (1 - fs)).
  { apply Qinv_lt_0_compat. lra. }
  assert (Hone : (1 - fs) * / (1 - fs) == 1).
  { apply Qmult_inv_r. lra. }
  assert (Hline : forall lr, fs <= lr -> lr <= 1 ->
            0 <= 1 - (lr - fs) / (1 - fs) /\ 1 - (lr - fs) / (1 - fs) <= 1).
  { intros lr H1 H2. unfold Qdiv. split; nra. }
  assert (Hfade : forall lr, fs <= lr ->
            DustShader.fade u lr
            == (1 - (lr - fs) / (1 - fs)) * (1 - (lr - fs) / (1 - fs))).
  { intros lr Hlr. destruct (Qlt_le_dec fs lr) as [Hgt | Hle].
    - rewrite (Hhigh lr Hgt). simpl. ring.
    - rewrite (Hlow lr Hle).
      assert (E : lr == fs) by lra. rewrite E. unfold Qdiv. ring. }
  split; [exact Hlow|]. split; [exact Hhigh|].
  split; [apply Hlow; lra|].
  split.
  - rewrite (Hhigh 1 Hfs). unfold Qdiv. rewrite Hone. simpl. ring.
  - intros x y Hx Hxy Hy.
    rewrite (Hfade x Hx), (Hfade y) by lra.
    destruct (Hline x) as [Hx0 Hx1]; [lra | lra |].
    destruct (Hline y) as [Hy0 Hy1]; [lra | lra |].
    assert (Hle : 1 - (y - fs) / (1 - fs) <= 1 - (x - fs) / (1 - fs)).
    { unfold Qdiv. nra. }
    nra.
Qed.

Lemma fade_bounds_witness :
  DustShader.fade (demo_uniforms 0 circle) 0.92 == 1
  /\ DustShader.fade (demo_uniforms 0 circle) 1 == 0
  /\ DustShader.fade (demo_uniforms 0 circle) 0.98
     <= DustShader.fade (demo_uniforms 0 circle) 0.95.
Proof.
  destruct (fade_bounds (demo_uniforms 0 circle)) as (_ & _ & Hs & He & Hmono).
  - vm_compute. reflexivity.
  - split; [exact Hs|]. split; [exact He|].
    apply Hmono; vm_compute; discriminate.
Defined.

(** ** C2: the displacement *)

(** C2.  The displacement of a cell at elapsed time [t] is the sum of the
    wind, turbulence, burst, float and drift terms of section 4.2, times
    [startEase = min(lifeRatio * 10, 1)], and the particle centre on screen
    is [imageOffset + cellCenter + displacement]. *)
Theorem displacement_formula :
  forall (sin cos : Q -> Q) (u : DustShader.Uniforms) (cellId : float2) (t : Q),
    let h := DustShader.rnd1 sin u cellId in
    let r2 := DustShader.rnd2 sin u cellId in
    let r3 := DustShader.rnd3 sin u cellId in
    let lr := DustShader.lifeRatio sin u cellId t in
    let delta := DustShaderSpec.spec_displacement sin cos u h r2 r3 lr t in
    lr == t / (DustShader.lifetimeMin u + h * DustShader.lifetimeRange u)
    /\ vx (DustShader.movement sin cos u cellId t) == vx delta
    /\ vy (DustShader.movement sin cos u cellId t) == vy delta
    /\ vx (DustShader.particlePos sin cos u cellId t)
       == vx (DustShader.imageOffset u)
          + (vx cellId * DustShader.particleSize u + DustShader.particleSize u / 2)
          + vx delta
    /\ vy (DustShader.particlePos sin cos u cellId t)
       == vy (DustShader.imageOffset u)
          + (vy cellId * DustShader.particleSize u + DustShader.particleSize u / 2)
          + vy delta.
Proof.
  intros sin cos u cellId t h r2 r3 lr delta.
  assert (Ex : vx (DustShader.movement sin cos u cellId t) == vx delta).
  { unfold delta, DustShaderSpec.spec_displacement, DustShaderSpec.spec_startEase,
      DustShader.movement, v2scale. cbn [vx vy].
    unfold DustShader.windX, DustShader.turbX, DustShader.burstX,
      DustShader.floatX, DustShader.continuousDriftX, DustShader.driftDirX,
      DustShader.tSq, DustShader.burstDecay, DustShader.turbPhase,
      DustShader.floatPhase, DustShader.burstAngle, DustShader.startEase.
    fold h. fold r2. fold r3. fold lr.
    rewrite (Qmult_comm_eq 0.07 t), (Qmult_comm_eq 20 r3),
      (Qmult_comm_eq 6.283 r3), (Qmult_comm_eq 0.05 t), (Qmult_comm_eq 10 h),
      (Qmult_comm_eq 5 lr).
    unfold Qdiv. ring. }
  assert (Ey : vy (DustShader.movement sin cos u cellId t) == vy delta).
  { unfold delta, DustShaderSpec.spec_displacement, DustShaderSpec.spec_startEase,
      DustShader.movement, v2scale. cbn [vx vy].
    unfold DustShader.windY, DustShader.verticalDir, DustShader.turbY,
      DustShader.burstY, DustShader.floatY, DustShader.continuousDriftY,
      DustShader.driftDirY, DustShader.tSq, DustShader.burstDecay,
      DustShader.turbPhase, DustShader.floatPhase, DustShader.burstAngle,
      DustShader.startEase.
    fold h. fold r2. fold r3. fold lr.
    rewrite (Qmult_comm_eq 0.07 t), (Qmult_comm_eq 20 r3),
      (Qmult_comm_eq 6.283 r3), (Qmult_comm_eq 0.05 t), (Qmult_comm_eq 10 h),
      (Qmult_comm_eq 5 lr),
      (Qmult_comm_eq 0.7 (t * 0.05 + h * 10)).
    unfold Qdiv. ring. }
  split; [reflexivity|].
  split; [exact Ex|]. split; [exact Ey|].
  unfold DustShader.particlePos, DustShader.cellCenter, DustShader.halfSize,
    v2add, v2adds, v2scale. cbn [vx vy].
  split; [rewrite Ex | rewrite Ey]; field.
Qed.

(** ** DUST_SHADER at rest *)

Lemma floorQ_proper (a b : Q) : a == b -> floorQ a = floorQ b.
Proof. intro H. unfold floorQ. rewrite H. reflexivity. Qed.

Lemma floorQ_bounds (x ps : Q) :
  0 < ps ->
  floorQ (x * (1 / ps)) * ps <= x /\ x < (floorQ (x * (1 / ps)) + 1) * ps.
Proof.
  intro Hps. unfold floorQ.
  pose proof (Qfloor_le (x * (1 / ps))) as Hlo.
  pose proof (Qlt_floor (x * (1 / ps))) as Hhi.
  rewrite inject_Z_plus in Hhi. change (inject_Z 1) with 1 in Hhi.
  assert (E : x * (1 / ps) * ps == x) by (field; lra).
  split.
  - rewrite <- E at 2. apply Qmult_le_compat_r; lra.
  - rewrite <- E at 1. apply Qmult_lt_compat_r; lra.
Qed.

Section DustShaderRest.

Variables sin cos : Q -> Q.
Variable image : float2 -> half4.
Variable u : DustShader.Uniforms.

Lemma lifeRatio_rest (c : float2) (t : Q) :
  t == 0 -> DustShader.lifeRatio sin u c t == 0.
Proof.
  intro Ht. unfold DustShader.lifeRatio, Qdiv. rewrite Ht. ring.
Qed.

Lemma startEase_rest (c : float2) (t : Q) :
  t == 0 -> DustShader.startEase sin u c t == 0.
Proof.
  intro Ht. unfold DustShader.startEase.
  rewrite (lifeRatio_rest c t Ht).
  apply Q.min_l. lra.
Qed.

Lemma movement_rest (c : float2) (t : Q) :
  t == 0 ->
  vx (DustShader.movement sin cos u c t) == 0
  /\ vy (DustShader.movement sin cos u c t) == 0.
Proof.
  intro Ht. unfold DustShader.movement, v2scale. cbn [vx vy].
  rewrite (startEase_rest c t Ht). split; ring.
Qed.

Lemma not_expired_rest (c : float2) (t : Q) :
  t == 0 -> Qgeb (DustShader.lifeRatio sin u c t) 1 = false.
Proof.
  intro Ht. apply Qgeb_false. rewrite (lifeRatio_rest c t Ht). lra.
Qed.

Lemma fade_rest (c : float2) (t : Q) :
  0 <= DustShader.fadeStart u -> t == 0 ->
  DustShader.fade u (DustShader.lifeRatio sin u c t) = 1 * 1.
Proof.
  intros Hfs Ht. unfold DustShader.fade.
  assert (E : Qgtb (DustShader.lifeRatio sin u c t) (DustShader.fadeStart u) = false).
  { apply Qgtb_false. rewrite (lifeRatio_rest c t Ht). exact Hfs. }
  rewrite E. reflexivity.
Qed.

Lemma inside_proper (d d' : float2) :
  vx d == vx d' -> vy d == vy d' -> DustShader.inside u d = DustShader.inside u d'.
Proof.
  intros Hx Hy. unfold DustShader.inside, dot, Qleb.
  destruct (DustShader.isCircle u =? 1)%Z.
  - rewrite Hx, Hy. reflexivity.
  - rewrite (Qleb_comp _ _ (Qabs_wd _ _ Hx) _ _ (Qeq_refl (DustShader.halfSize u))).
    rewrite (Qleb_comp _ _ (Qabs_wd _ _ Hy) _ _ (Qeq_refl (DustShader.halfSize u))).
    reflexivity.
Qed.

(** At rest a particle covers exactly the positions its rest shape covers. *)
Lemma covers_rest (screenCoord base : float2) (t : Q) (ij : Z * Z) :
  t == 0 ->
  DustShaderSpec.covers sin cos u screenCoord base t ij
  = rest_inside u screenCoord (DustShaderSpec.cell u base ij).
Proof.
  intro Ht. unfold DustShaderSpec.covers, rest_inside.
  destruct (movement_rest (DustShaderSpec.cell u base ij) t Ht) as [Hx Hy].
  apply inside_proper; unfold DustShader.particlePos, v2sub, v2add; cbn [vx vy].
  - rewrite Hx. ring.
  - rewrite Hy. ring.
Qed.

Lemma inside_beyond (d : float2) :
  0 < DustShader.particleSize u ->
  DustShader.halfSize u < vx d \/ DustShader.halfSize u < vy d ->
  DustShader.inside u d = false.
Proof.
  intros Hps Hfar.
  assert (Hhalf : 0 < DustShader.halfSize u).
  { unfold DustShader.halfSize. lra. }
  unfold DustShader.inside, DustShader.halfSizeSq.
  destruct (DustShader.isCircle u =? 1)%Z.
  - apply Qleb_false. unfold dot. destruct Hfar as [H | H]; nra.
  - apply andb_false_iff.
    destruct Hfar as [H | H]; [left | right]; apply Qleb_false.
    + pose proof (Qle_Qabs (vx d)). lra.
    + pose proof (Qle_Qabs (vy d)). lra.
Qed.

(** The cell of the candidate at offset [(i, j)] is the cell of the base
    position, shifted by [(i, j)]. *)
Lemma cellOf_shift (base : float2) (i j : Z) :
  0 < DustShader.particleSize u ->
  vx (DustShader.cellOf u base i j)
  == floorQ (vx base * DustShader.invPS u) + inject_Z i
  /\ vy (DustShader.cellOf u base i j)
     == floorQ (vy base * DustShader.invPS u) + inject_Z j.
Proof.
  intro Hps.
  unfold DustShader.cellOf, DustShader.imgLocalPos, v2floor, v2scale, v2add.
  cbn [vx vy]. unfold DustShader.invPS.
  split.
  - rewrite (floorQ_proper _ (vx base * (1 / DustShader.particleSize u) + inject_Z i))
      by (field; lra).
    rewrite floorQ_shift, inject_Z_plus. reflexivity.
  - rewrite (floorQ_proper _ (vy base * (1 / DustShader.particleSize u) + inject_Z j))
      by (field; lra).
    rewrite floorQ_shift, inject_Z_plus. reflexivity.
Qed.

End DustShaderRest.

(** ** C4: the field at time 0 *)

Section DustShaderRestField.

Variables sin cos : Q -> Q.
Variable image : float2 -> half4.
Variable u : DustShader.Uniforms.
Variable fragCoord : float2.

Let screenCoord := v2add fragCoord (DustShader.canvasOffset u).
Let local := v2sub screenCoord (DustShader.imageOffset u).
Let base := DustShader.baseImgPos u screenCoord.
Let t := DustShader.elapsed u.
Let c0 := rest_cell u screenCoord.

Hypothesis time_zero : DustShader.time u == 0.
Hypothesis size_pos : 0 < DustShader.particleSize u.

Lemma rest_elapsed : t == 0.
Proof.
  unfold t, DustShader.elapsed. rewrite time_zero. ring.
Qed.

Lemma rest_base : vx base == vx local /\ vy base == vy local.
Proof.
  pose proof rest_elapsed as Ht. unfold t in Ht.
  unfold base, local, DustShader.baseImgPos, v2sub, v2add. cbn [vx vy].
  rewrite Ht. split; ring.
Qed.

Lemma rest_cell_shift (ij : Z * Z) :
  vx (DustShaderSpec.cell u base ij) == vx c0 + inject_Z (fst ij)
  /\ vy (DustShaderSpec.cell u base ij) == vy c0 + inject_Z (snd ij).
Proof.
  destruct rest_base as [Hbx Hby].
  destruct (cellOf_shift u base (fst ij) (snd ij) size_pos) as [Hx Hy].
  unfold DustShaderSpec.cell. rewrite Hx, Hy.
  unfold c0, rest_cell, v2floor, v2scale. cbn [vx vy]. fold local.
  rewrite (floorQ_proper (vx base * DustShader.invPS u) (vx local * DustShader.invPS u))
    by (rewrite Hbx; reflexivity).
  rewrite (floorQ_proper (vy base * DustShader.invPS u) (vy local * DustShader.invPS u))
    by (rewrite Hby; reflexivity).
  split; reflexivity.
Qed.

Lemma rest_cell_origin : DustShaderSpec.cell u base (0, 0)%Z = c0.
Proof.
  destruct rest_base as [Hbx Hby].
  unfold DustShaderSpec.cell, DustShader.cellOf, c0, rest_cell, v2floor. cbn [fst snd].
  f_equal; apply floorQ_proper;
    unfold DustShader.imgLocalPos, v2scale, v2add; cbn [vx vy]; fold local.
  - rewrite Hbx. change (inject_Z 0) with 0. ring.
  - rewrite Hby. change (inject_Z 0) with 0. ring.
Qed.

(** The pixel lies in the half-open square of its rest cell. *)
Lemma rest_cell_bounds :
  vx c0 * DustShader.particleSize u <= vx local
  /\ vx local < (vx c0 + 1) * DustShader.particleSize u
  /\ vy c0 * DustShader.particleSize u <= vy local
  /\ vy local < (vy c0 + 1) * DustShader.particleSize u.
Proof.
  unfold c0, rest_cell, v2floor, v2scale, DustShader.invPS. cbn [vx vy]. fold local.
  destruct (floorQ_bounds (vx local) _ size_pos).
  destruct (floorQ_bounds (vy local) _ size_pos).
  repeat split; assumption.
Qed.

(** A candidate enumerated before offset (0, 0) does not cover a pixel that
    is off the left and top edges of its rest cell. *)
Lemma earlier_candidate_misses (ij : Z * Z) :
  vx c0 * DustShader.particleSize u < vx local ->
  vy c0 * DustShader.particleSize u < vy local ->
  ((fst ij <? 0) || ((fst ij =? 0) && (snd ij <? 0)))%Z = true ->
  DustShaderSpec.qualifies sin cos image u screenCoord base t ij = false.
Proof.
  intros Hfx Hfy Hearly.
  assert (Hcov : DustShaderSpec.covers sin cos u screenCoord base t ij = false).
  { rewrite (covers_rest sin cos u screenCoord base t ij rest_elapsed).
    unfold rest_inside. apply inside_beyond; [exact size_pos|].
    destruct (rest_cell_shift ij) as [Hx Hy].
    unfold v2sub, v2add, DustShader.cellCenter, v2adds, v2scale. cbn [vx vy].
    rewrite Hx, Hy. unfold DustShader.halfSize.
    fold (vx local). unfold local, v2sub in Hfx, Hfy. cbn [vx vy] in Hfx, Hfy.
    apply orb_true_iff in Hearly. destruct Hearly as [Hi | Hij].
    - left. apply Z.ltb_lt in Hi.
      assert (Hq : inject_Z (fst ij) <= -1).
      { change (-1) with (inject_Z (-1)). rewrite <- Zle_Qle. lia. }
      nra.
    - right. apply andb_true_iff in Hij. destruct Hij as [_ Hj].
      apply Z.ltb_lt in Hj.
      assert (Hq : inject_Z (snd ij) <= -1).
      { change (-1) with (inject_Z (-1)). rewrite <- Zle_Qle. lia. }
      nra. }
  unfold DustShaderSpec.qualifies. rewrite Hcov.
  rewrite andb_false_r. reflexivity.
Qed.

Lemma origin_candidate_qualifies :
  0 <= DustShader.fadeStart u ->
  0 <= vx local -> vx local < vx (DustShader.imageSize u) ->
  0 <= vy local -> vy local < vy (DustShader.imageSize u) ->
  rest_inside u screenCoord c0 = true ->
  0.1 < ca (image (DustShader.cellCenter u c0)) ->
  DustShaderSpec.qualifies sin cos image u screenCoord base t (0, 0)%Z = true.
Proof.
  intros Hfs Hx0 Hx1 Hy0 Hy1 Hins Hsrc.
  destruct rest_base as [Hbx Hby].
  unfold DustShaderSpec.qualifies.
  assert (H1 : DustShaderSpec.in_image u base (0, 0)%Z = true).
  { unfold DustShaderSpec.in_image, DustShader.outside_image,
      DustShader.imgLocalPos, v2add, v2scale. cbn [vx vy fst snd].
    change (inject_Z 0) with 0.
    apply negb_true_iff.
    repeat (apply orb_false_iff; split);
      first [apply Qltb_false | apply Qgeb_false];
      first [rewrite Hbx | rewrite Hby]; lra. }
  assert (H2 : DustShaderSpec.expired sin u base t (0, 0)%Z = false).
  { apply not_expired_rest. exact rest_elapsed. }
  assert (H3 : DustShaderSpec.covers sin cos u screenCoord base t (0, 0)%Z = true).
  { rewrite (covers_rest sin cos u screenCoord base t _ rest_elapsed).
    rewrite rest_cell_origin. exact Hins. }
  assert (H4 : Qgtb (DustShaderSpec.fade_alpha sin u base t (0, 0)%Z) 0.01 = true).
  { unfold DustShaderSpec.fade_alpha.
    rewrite (fade_rest sin u _ t Hfs rest_elapsed). reflexivity. }
  assert (H5 : Qgtb (ca (DustShaderSpec.rest_colour image u base (0, 0)%Z)) 0.1 = true).
  { unfold DustShaderSpec.rest_colour. rewrite rest_cell_origin.
    apply Qgtb_true. exact Hsrc. }
  rewrite H1, H2, H3, H4, H5. reflexivity.
Qed.

Lemma rest_field :
  0 <= DustShader.maxTime u -> 0 <= DustShader.fadeStart u ->
  0 <= vx local -> vx local < vx (DustShader.imageSize u) ->
  0 <= vy local -> vy local < vy (DustShader.imageSize u) ->
  vx c0 * DustShader.particleSize u < vx local ->
  vy c0 * DustShader.particleSize u < vy local ->
  rest_inside u screenCoord c0 = true ->
  0.1 < ca (image (DustShader.cellCenter u c0)) ->
  half4_eq (DustShader.main sin cos image u fragCoord)
           (image (DustShader.cellCenter u c0)).
Proof.
  intros Hmax Hfs Hx0 Hx1 Hy0 Hy1 Hfx Hfy Hins Hsrc.
  pose proof (main_search sin cos image u fragCoord) as Hm.
  cbv zeta in Hm. fold screenCoord in Hm. fold base in Hm. fold t in Hm.
  rewrite Hm.
  assert (Hcut : Qgtb t (DustShader.maxTime u) = false).
  { apply Qgtb_false. rewrite rest_elapsed. exact Hmax. }
  rewrite Hcut.
  assert (Hsplit : DustShaderSpec.candidates
                   = firstn 40 DustShaderSpec.candidates
                     ++ (0, 0)%Z :: skipn 41 DustShaderSpec.candidates)
    by (vm_compute; reflexivity).
  rewrite Hsplit, (find_first _ _ _ (0, 0)%Z).
  - unfold DustShaderSpec.carried, DustShaderSpec.fade_alpha,
      DustShaderSpec.rest_colour.
    rewrite (fade_rest sin u _ t Hfs rest_elapsed), rest_cell_origin.
    unfold half4_eq. cbn [cr cg cb ca]. repeat split; ring.
  - intros c Hc. apply earlier_candidate_misses; [exact Hfx | exact Hfy |].
    revert c Hc. apply forallb_forall. vm_compute. reflexivity.
  - apply origin_candidate_qualifies; assumption.
Qed.

Lemma square_rest_inside :
  DustShader.isCircle u <> 1%Z -> rest_inside u screenCoord c0 = true.
Proof.
  intro Hsq. apply Z.eqb_neq in Hsq.
  unfold rest_inside, DustShader.inside. rewrite Hsq.
  destruct rest_cell_bounds as (Hx0 & Hx1 & Hy0 & Hy1).
  unfold local, v2sub in Hx0, Hx1, Hy0, Hy1. cbn [vx vy] in Hx0, Hx1, Hy0, Hy1.
  unfold v2sub, v2add, DustShader.cellCenter, v2adds, v2scale,
    DustShader.halfSize. cbn [vx vy].
  apply andb_true_iff; split; apply Qleb_true; apply Qabs_le_intro; split; nra.
Qed.

End DustShaderRestField.

Lemma find_none {A : Type} (q : A -> bool) (l : list A) :
  (forall a, In a l -> q a = false) -> find q l = None.
Proof.
  induction l as [|a l IH]; intro H; simpl; [reflexivity|].
  rewrite (H a (or_introl eq_refl)). apply IH.
  intros b Hb. apply H. right. exact Hb.
Qed.

(** At rest the tests of a candidate do not involve the intrinsics. *)
Lemma qualifies_rest (sin cos : Q -> Q) (image : float2 -> half4)
    (u : DustShader.Uniforms) (screenCoord base : float2) (t : Q) (ij : Z * Z) :
  0 <= DustShader.fadeStart u -> t == 0 ->
  DustShaderSpec.qualifies sin cos image u screenCoord base t ij
  = DustShaderSpec.in_image u base ij
    && rest_inside u screenCoord (DustShaderSpec.cell u base ij)
    && Qgtb (ca (DustShaderSpec.rest_colour image u base ij)) 0.1.
Proof.
  intros Hfs Ht. unfold DustShaderSpec.qualifies.
  rewrite (covers_rest sin cos u screenCoord base t ij Ht).
  unfold DustShaderSpec.expired, DustShaderSpec.fade_alpha.
  rewrite (not_expired_rest sin u _ t Ht), (fade_rest sin u _ t Hfs Ht).
  change (Qgtb (1 * 1) 0.01) with true.
  cbn [negb]. rewrite !andb_true_r. reflexivity.
Qed.

(** C4 (as amended).  At [t == 0] the displacement of every cell is zero.
    At time 0, with [particleSize > 0], [maxTime >= 0] and [fadeStart >= 0],
    at a pixel inside the placement rectangle that is off the left and top
    edges of its rest cell, is covered by the rest shape of that cell (the
    disc of radius [particleSize / 2] around the cell centre for circles,
    the whole cell for squares) and whose cell has a source alpha above 0.1
    at its centre, DUST_SHADER returns the image colour at that cell centre.
    For square particles the rest shape covers every pixel of the cell. *)
Theorem rest_identity :
  forall (sin cos : Q -> Q) (image : float2 -> half4) (u : DustShader.Uniforms),
    (forall (cellId : float2) (t : Q), t == 0 ->
        vx (DustShader.movement sin cos u cellId t) == 0
        /\ vy (DustShader.movement sin cos u cellId t) == 0)
    /\
    (forall fragCoord : float2,
        let screenCoord := v2add fragCoord (DustShader.canvasOffset u) in
        let local := v2sub screenCoord (DustShader.imageOffset u) in
        let c0 := rest_cell u screenCoord in
        DustShader.time u == 0 ->
        0 < DustShader.particleSize u ->
        0 <= DustShader.maxTime u -> 0 <= DustShader.fadeStart u ->
        0 <= vx local -> vx local < vx (DustShader.imageSize u) ->
        0 <= vy local -> vy local < vy (DustShader.imageSize u) ->
        vx c0 * DustShader.particleSize u < vx local ->
        vy c0 * DustShader.particleSize u < vy local ->
        rest_inside u screenCoord c0 = true ->
        0.1 < ca (image (DustShader.cellCenter u c0)) ->
        half4_eq (DustShader.main sin cos image u fragCoord)
                 (image (DustShader.cellCenter u c0)))
    /\
    (forall fragCoord : float2,
        let screenCoord := v2add fragCoord (DustShader.canvasOffset u) in
        0 < DustShader.particleSize u -> DustShader.isCircle u <> 1%Z ->
        rest_inside u screenCoord (rest_cell u screenCoord) = true).
Proof.
  intros sin cos image u. split; [|split].
  - intros cellId t Ht. apply movement_rest. exact Ht.
  - intros fragCoord screenCoord local c0 Htime Hps. intros.
    apply rest_field; assumption.
  - intros fragCoord screenCoord Hps Hsq.
    apply square_rest_inside; assumption.
Qed.

Lemma rest_identity_witness :
  (vx (DustShader.movement sin_q cos_q (demo_uniforms 0 circle) (Float2 10 10) 0) == 0
   /\ vy (DustShader.movement sin_q cos_q (demo_uniforms 0 circle) (Float2 10 10) 0) == 0)
  /\ half4_eq
       (DustShader.main sin_q cos_q demo_image (demo_uniforms 0 circle) (Float2 40.5 50.5))
       (demo_image (Float2 31.5 31.5))
  /\ rest_inside (demo_uniforms 0 square) (Float2 40.5 50.5)
       (rest_cell (demo_uniforms 0 square) (Float2 40.5 50.5)) = true.
Proof.
  destruct (rest_identity sin_q cos_q demo_image (demo_uniforms 0 circle))
    as (Hmove & Hfield & _).
  destruct (rest_identity sin_q cos_q demo_image (demo_uniforms 0 square))
    as (_ & _ & Hsquare).
  split; [|split].
  - apply Hmove. reflexivity.
  - apply (Hfield (Float2 40.5 50.5)); vm_compute; first [reflexivity | discriminate].
  - apply (Hsquare (Float2 40.5 50.5)); vm_compute; first [reflexivity | discriminate].
Defined.

(** C4 as stated fails.  With circular particles of 10 pixels, the pixel
    centre nearest the corner of the image lies outside the disc of its rest
    cell: the image is opaque at the rest centre of that cell, yet the field
    is fully transparent there at time 0.  With square particles of 3
    pixels, at a position on the edge between two cells the field returns
    the colour of the cell on the left, enumerated first, and not that of
    the rest cell.  Both hold whatever the intrinsics. *)
Lemma rest_identity_counterexample :
  (ca (demo_image (DustShader.cellCenter corner_uniforms
                     (rest_cell corner_uniforms corner_pixel))) == 1
   /\ forall sin cos : Q -> Q,
        DustShader.main sin cos demo_image corner_uniforms corner_pixel = transparent)
  /\
  (DustShader.cellCenter seam_uniforms (rest_cell seam_uniforms seam_pixel)
   = Float2 4.5 1.5
   /\ ~ cr (demo_image (Float2 1.5 1.5)) == cr (demo_image (Float2 4.5 1.5))
   /\ forall sin cos : Q -> Q,
        half4_eq (DustShader.main sin cos demo_image seam_uniforms seam_pixel)
                 (demo_image (Float2 1.5 1.5))).
Proof.
  split; split.
  - vm_compute. reflexivity.
  - intros sin cos.
    pose proof (main_search sin cos demo_image corner_uniforms corner_pixel) as Hm.
    cbv zeta in Hm. rewrite Hm.
    change (Qgtb (DustShader.elapsed corner_uniforms)
                 (DustShader.maxTime corner_uniforms)) with false.
    rewrite find_none; [reflexivity|].
    intros c Hc. rewrite qualifies_rest.
    + revert c Hc. apply forallb_negb_In. vm_compute. reflexivity.
    + vm_compute. discriminate.
    + vm_compute. reflexivity.
  - vm_compute. reflexivity.
  - split; [vm_compute; discriminate|].
    intros sin cos.
    pose proof (main_search sin cos demo_image seam_uniforms seam_pixel) as Hm.
    cbv zeta in Hm. rewrite Hm.
    change (Qgtb (DustShader.elapsed seam_uniforms)
                 (DustShader.maxTime seam_uniforms)) with false.
    assert (Hsplit : DustShaderSpec.candidates
                     = firstn 31 DustShaderSpec.candidates
                       ++ (-1, 0)%Z :: skipn 32 DustShaderSpec.candidates)
      by (vm_compute; reflexivity).
    rewrite Hsplit, (find_first _ _ _ (-1, 0)%Z).
    + unfold DustShaderSpec.carried, DustShaderSpec.fade_alpha.
      rewrite fade_rest;
        [ vm_compute; repeat split; reflexivity
        | vm_compute; discriminate
        | vm_compute; reflexivity ].
    + intros c Hc. rewrite qualifies_rest.
      * revert c Hc. apply forallb_negb_In. vm_compute. reflexivity.
      * vm_compute. discriminate.
      * vm_compute. reflexivity.
    + rewrite qualifies_rest.
      * vm_compute. reflexivity.
      * vm_compute. discriminate.
      * vm_compute. reflexivity.
Qed.

(** ** C8: the particle size *)

(** C8 (as amended).  BlowAwayImage does not assert anything about the
    particle size: it hands [Math.max(2, particleSize)] to its shader each
    time its uniforms are rebuilt.  For every supplied particle size that is
    not [NaN] that value is at least 2; every supplied finite value, zero
    and the negative ones included, is accepted and yields uniforms; and
    whenever the shader is given a finite particle size it is the clamped
    one, at least 2 and so positive. *)
Theorem particle_size_uniform :
  forall (animationTime width height imageOffsetX imageOffsetY screenWidth
          screenHeight : Q) (particleSize : JSNumber) (seed : Q),
    particleSize <> NaN ->
    at_least 2 (BlowAwayImage_particleSize particleSize)
    /\ (forall q, particleSize = Finite q ->
          exists u,
            BlowAwayImage_uniforms animationTime width height imageOffsetX
              imageOffsetY screenWidth screenHeight particleSize seed = Some u
            /\ DustSnapShader.particleSize u = Qmax 2 q)
    /\ (forall u,
          BlowAwayImage_uniforms animationTime width height imageOffsetX
            imageOffsetY screenWidth screenHeight particleSize seed = Some u ->
          Finite (DustSnapShader.particleSize u)
          = BlowAwayImage_particleSize particleSize
          /\ 2 <= DustSnapShader.particleSize u
          /\ 0 < DustSnapShader.particleSize u).
Proof.
  intros animationTime width height imageOffsetX imageOffsetY screenWidth
         screenHeight particleSize seed Hnan.
  assert (Hclamp : at_least 2 (BlowAwayImage_particleSize particleSize)).
  { destruct particleSize as [q | | |]; cbn.
    - apply Q.le_max_l.
    - exact I.
    - apply Qle_refl.
    - congruence. }
  split; [exact Hclamp |]. split.
  - intros q Hq. subst particleSize. eexists. split; reflexivity.
  - intros u Hu. unfold BlowAwayImage_uniforms in Hu.
    destruct (BlowAwayImage_particleSize particleSize) as [ps | | |]
      eqn:Hps; try discriminate.
    injection Hu as Hu. subst u. cbn [snap_uniforms DustSnapShader.particleSize].
    cbn in Hclamp. split; [reflexivity |]. split; [exact Hclamp |].
    apply Qlt_le_trans with 2; [reflexivity | exact Hclamp].
Qed.

Lemma particle_size_uniform_witness :
  Finite (-1) <> NaN
  /\ at_least 2 (BlowAwayImage_particleSize (Finite (-1))).
Proof.
  assert (H : Finite (-1) <> NaN) by discriminate.
  split; [exact H |].
  exact (proj1 (particle_size_uniform 0 100 100 10 20 400 800 (Finite (-1)) 42 H)).
Defined.

(** C8 as stated fails: a particle size of -1 given to BlowAwayImage is
    accepted, nothing fails, and the uniforms are built with the value
    silently replaced by 2. *)
Lemma particle_size_counterexample :
  exists u,
    BlowAwayImage_uniforms 0 100 100 10 20 400 800 (Finite (-1)) 42 = Some u
    /\ DustSnapShader.particleSize u == 2.
Proof.
  eexists. split; [reflexivity |]. vm_compute. reflexivity.
Qed.

(** ** The driver *)

Module DriverFacts.
Import Driver.

Lemma cleanup_clears (st : State) : owned st -> timers (cleanup st) = [].
Proof.
  intro Hown. unfold cleanup.
  destruct (timeoutRef st) as [id|] eqn:Href.
  - unfold clearTimeout. cbn [timers].
    assert (H : forall l, (forall tm, In tm l -> Some id = Some (tid tm)) ->
                          filter (fun tm => negb (tid tm =? id)%nat) l = []).
    { induction l as [|tm l IH]; intro Hl; simpl; [reflexivity|].
      assert (E : tid tm = id).
      { specialize (Hl tm (or_introl eq_refl)). congruence. }
      rewrite E, Nat.eqb_refl. simpl. apply IH.
      intros tm' Hin. apply Hl. right. exact Hin. }
    apply H. intros tm Hin. rewrite <- Href. apply Hown. exact Hin.
  - destruct (timers st) as [|tm l] eqn:Ht; [reflexivity|].
    specialize (Hown tm). rewrite Ht in Hown.
    specialize (Hown (or_introl eq_refl)). congruence.
Qed.

Lemma cleanup_keeps (st : State) :
  now (cleanup st) = now st
  /\ completions (cleanup st) = completions st
  /\ animationTime (cleanup st) = animationTime st.
Proof.
  unfold cleanup. destruct (timeoutRef st); repeat split; reflexivity.
Qed.

Lemma ramp_range (start k : Z) :
  0 <= value_at (Timing 0 (inject_Z ANIMATION_CONFIG.DURATION_MS / 1000) start
                   ANIMATION_CONFIG.DURATION_MS) k
  /\ value_at (Timing 0 (inject_Z ANIMATION_CONFIG.DURATION_MS / 1000) start
                 ANIMATION_CONFIG.DURATION_MS) k <= 1.
Proof.
  unfold value_at, ANIMATION_CONFIG.DURATION_MS.
  destruct (k <=? start)%Z eqn:E1; [split; lra|].
  destruct (start + 1000 <=? k)%Z eqn:E2.
  - split; [vm_compute; discriminate | vm_compute; discriminate].
  - apply Z.leb_gt in E1. apply Z.leb_gt in E2.
    assert (H0 : 0 < inject_Z (k - start)).
    { change 0 with (inject_Z 0). rewrite <- Zlt_Qlt. lia. }
    assert (H1 : inject_Z (k - start) < 1000).
    { change 1000 with (inject_Z 1000). rewrite <- Zlt_Qlt. lia. }
    change (inject_Z 1000) with 1000.
    assert (E : 0 + (1000 / 1000 - 0) * (inject_Z (k - start) / 1000)
                == inject_Z (k - start) / 1000) by field.
    rewrite E. split.
    + apply Qle_shift_div_l; lra.
    + apply Qle_shift_div_r; lra.
Qed.

Lemma step_invariant (st : State) (e : Event) :
  owned st /\ in_ramp st -> owned (step st e) /\ in_ramp (step st e).
Proof.
  intros [Hown Hramp].
  assert (Hclean : owned (cleanup st) /\ in_ramp (cleanup st)).
  { split.
    - intros tm Hin. rewrite (cleanup_clears st Hown) in Hin. destruct Hin.
    - unfold in_ramp. destruct (cleanup_keeps st) as (_ & _ & E). rewrite E.
      exact Hramp. }
  destruct e as [p | | dt]; cbn [step].
  - pose proof (cleanup_clears st Hown) as Hnil.
    unfold effect. destruct (should_start p).
    + split.
      * intros tm Hin. cbn [timers timeoutRef] in *. rewrite Hnil in Hin.
        simpl in Hin. destruct Hin as [E | []]. subst tm. reflexivity.
      * intro k. cbn [animationTime]. apply ramp_range.
    + destruct (negb (isSnapped p)); [|exact Hclean].
      split.
      * intros tm Hin. cbn [timers] in Hin. rewrite Hnil in Hin. destruct Hin.
      * intro k. cbn [animationTime value_at]. split; lra.
  - exact Hclean.
  - split.
    + intros tm Hin. unfold elapse in *. cbn [timers timeoutRef] in *.
      apply filter_In in Hin. apply Hown. apply Hin.
    + exact Hramp.
Qed.

Lemma run_invariant (evs : list Event) (st : State) :
  owned st /\ in_ramp st -> owned (run evs st) /\ in_ramp (run evs st).
Proof.
  revert st. induction evs as [|e evs IH]; intros st H; [exact H|].
  cbn [run fold_left]. apply IH. apply step_invariant. exact H.
Qed.

Lemma reachable_invariant (st : State) :
  reachable st -> owned st /\ in_ramp st.
Proof.
  intros (t0 & evs & E). subst st. apply run_invariant. split.
  - intros tm [].
  - intro k. cbn. split; lra.
Qed.

Lemma start_state (st : State) (p : Props) :
  owned st -> should_start p = true ->
  let st1 := step st (Render p) in
  now st1 = now st
  /\ completions st1 = completions st
  /\ timers st1 = [{| tid := next_timer (cleanup st);
                      due := (now st + (ANIMATION_CONFIG.DURATION_MS + 100))%Z;
                      notify := onAnimationComplete p |}]
  /\ timeoutRef st1 = Some (next_timer (cleanup st))
  /\ animationTime st1
     = Timing 0 (inject_Z ANIMATION_CONFIG.DURATION_MS / 1000) (now st)
         ANIMATION_CONFIG.DURATION_MS.
Proof.
  intros Hown Hstart st1. unfold st1. cbn [step]. unfold effect. rewrite Hstart.
  destruct (cleanup_keeps st) as (Hnow & Hlog & _).
  cbn [now completions timers timeoutRef animationTime].
  rewrite (cleanup_clears st Hown), Hnow, Hlog.
  repeat split; reflexivity.
Qed.

Lemma elapse_phase (tm : Timer) (log : list Z) (dt : nat) (st : State) :
  notify tm = true -> phase tm log st -> phase tm log (elapse dt st).
Proof.
  intros Hnotify [(Htm & Hnow & Hlog) | (Htm & tau & Hlog & Htau)];
    unfold phase, elapse; cbn [timers now completions]; rewrite Htm; simpl.
  - destruct (due tm <=? now st + Z.of_nat dt)%Z eqn:E; simpl.
    + right. split; [reflexivity|].
      exists (now st + Z.of_nat dt)%Z. rewrite Hnotify, Hlog. simpl.
      apply Z.leb_le in E. split; [reflexivity | lia].
    + left. apply Z.leb_gt in E. rewrite Hlog, app_nil_r.
      repeat split; [exact E].
  - right. split; [reflexivity|].
    exists tau. rewrite app_nil_r. split; [exact Hlog | lia].
Qed.

Lemma run_phase (tm : Timer) (log : list Z) (dts : list nat) (st : State) :
  notify tm = true -> phase tm log st ->
  phase tm log (run (map Elapse dts) st)
  /\ timeoutRef (run (map Elapse dts) st) = timeoutRef st.
Proof.
  intro Hnotify. revert st.
  induction dts as [|dt dts IH]; intros st Hph; [split; [exact Hph | reflexivity]|].
  cbn [map run fold_left step].
  destruct (IH (elapse dt st) (elapse_phase tm log dt st Hnotify Hph)) as [H1 H2].
  split; [exact H1 | exact H2].
Qed.

Lemma run_idle (dts : list nat) (st : State) :
  timers st = [] -> completions (run (map Elapse dts) st) = completions st.
Proof.
  revert st. induction dts as [|dt dts IH]; intros st Hnil; [reflexivity|].
  cbn [map run fold_left step].
  change (fold_left step (map Elapse dts) (elapse dt st))
    with (run (map Elapse dts) (elapse dt st)).
  rewrite IH.
  - unfold elapse. cbn [completions]. rewrite Hnil. simpl. apply app_nil_r.
  - unfold elapse. cbn [timers]. rewrite Hnil. reflexivity.
Qed.

Lemma ramp_linear (start e : Z) :
  (0 <= e <= ANIMATION_CONFIG.DURATION_MS)%Z ->
  value_at (Timing 0 (inject_Z ANIMATION_CONFIG.DURATION_MS / 1000) start
              ANIMATION_CONFIG.DURATION_MS) (start + e)
  == inject_Z e / 1000.
Proof.
  unfold ANIMATION_CONFIG.DURATION_MS, value_at. intro He.
  destruct (start + e <=? start)%Z eqn:E1.
  - apply Z.leb_le in E1. assert (E : e = 0%Z) by lia. subst e. reflexivity.
  - destruct (start + 1000 <=? start + e)%Z eqn:E2.
    + apply Z.leb_le in E2. assert (E : e = 1000%Z) by lia. subst e. reflexivity.
    + replace (start + e - start)%Z with e by lia.
      change (inject_Z 1000) with 1000. field.
Qed.

(** ** C9: the completion callback *)

(** C9.  When the effect of DustSnapGL starts a run at clock reading [T]
    (snapped, image and shader present, positive width, callback given):
    the animated time is [e / 1000] after [e] of the 1000 milliseconds;
    however the clock advances afterwards, the callback has not run while
    the clock is below [T + 1000 + 100] and has run exactly once, at a
    reading at or after [T + 1000 + 100], as soon as the clock is there; and
    when the component is unmounted or rendered with [isSnapped] false
    before that reading, the callback never runs, and un-snapping puts the
    animated time back to 0. *)
Theorem completion_once :
  forall (st : State) (p : Props),
    reachable st -> should_start p = true -> onAnimationComplete p = true ->
    let st1 := step st (Render p) in
    let deadline := (now st + ANIMATION_CONFIG.DURATION_MS + 100)%Z in
    (forall e : Z, (0 <= e <= ANIMATION_CONFIG.DURATION_MS)%Z ->
        value_at (animationTime st1) (now st + e) == inject_Z e / 1000)
    /\
    (forall dts : list nat,
        let st2 := run (map Elapse dts) st1 in
        ((now st2 < deadline)%Z -> completions st2 = completions st)
        /\ ((deadline <= now st2)%Z ->
            exists tau, completions st2 = completions st ++ [tau]
                        /\ (deadline <= tau <= now st2)%Z))
    /\
    (forall (dts1 : list nat) (cancel : Event) (dts2 : list nat),
        let sta := run (map Elapse dts1) st1 in
        (now sta < deadline)%Z ->
        cancel = Unmount \/ (exists p', cancel = Render p' /\ isSnapped p' = false) ->
        completions (run (map Elapse dts2) (step sta cancel)) = completions st
        /\ (cancel <> Unmount ->
            animationTime (step sta cancel) = Still 0
            /\ isAnimating (step sta cancel) = false)).
Proof.
  intros st p Hreach Hstart Hcb st1 deadline.
  destruct (reachable_invariant st Hreach) as [Hown _].
  destruct (start_state st p Hown Hstart) as (Hnow & Hlog & Htimers & Href & Hanim).
  fold st1 in Hnow, Hlog, Htimers, Href, Hanim.
  rewrite Hcb in Htimers.
  set (tm := {| tid := next_timer (cleanup st);
                due := (now st + (ANIMATION_CONFIG.DURATION_MS + 100))%Z;
                notify := true |}) in *.
  assert (Hdue : due tm = deadline) by (unfold tm, deadline; cbn [due]; lia).
  assert (Hph : phase tm (completions st) st1).
  { left. rewrite Htimers, Hnow, Hlog. repeat split.
    unfold tm, ANIMATION_CONFIG.DURATION_MS. cbn [due]. lia. }
  split; [|split].
  - intros e He. rewrite Hanim. apply ramp_linear. exact He.
  - intros dts st2.
    destruct (run_phase tm (completions st) dts st1 eq_refl Hph) as [Hph2 _].
    fold st2 in Hph2. unfold phase in Hph2. rewrite Hdue in Hph2.
    destruct Hph2 as [(_ & Hlt & Hc) | (_ & tau & Hc & Htau)].
    + split; [intros _; exact Hc | intro Hge; lia].
    + split; [intro Hlt; lia | intros _; exists tau; split; assumption].
  - intros dts1 cancel dts2 sta Hearly Hcancel.
    destruct (run_phase tm (completions st) dts1 st1 eq_refl Hph) as [Hpha Hrefa].
    fold sta in Hpha, Hrefa. unfold phase in Hpha. rewrite Hdue in Hpha.
    destruct Hpha as [(Htm & _ & Hc) | (_ & tau & _ & Htau)]; [|lia].
    assert (Hown_a : owned sta).
    { intros tm' Hin. rewrite Htm in Hin. destruct Hin as [E | []].
      subst tm'. rewrite Hrefa, Href. reflexivity. }
    pose proof (cleanup_clears sta Hown_a) as Hnil.
    destruct (cleanup_keeps sta) as (_ & Hclog & _).
    destruct Hcancel as [E | (p' & E & Hsnap)]; subst cancel.
    + split; [|intro H; contradiction].
      cbn [step]. rewrite (run_idle dts2 _ Hnil), Hclog. exact Hc.
    + assert (Hno : should_start p' = false).
      { unfold should_start. rewrite Hsnap. reflexivity. }
      cbn [step]. unfold effect. rewrite Hno, Hsnap. cbn [negb].
      split; [|intros _; split; reflexivity].
      rewrite run_idle; cbn [timers completions]; [|exact Hnil].
      rewrite Hclog. exact Hc.
Qed.

Lemma completion_once_witness :
  value_at (animationTime (run [Render demo_props] (initial 0))) 250 == 0.25
  /\ completions (run [Render demo_props; Elapse 500; Elapse 599] (initial 0)) = []
  /\ completions (run [Render demo_props; Elapse 500; Elapse 700; Elapse 5000] (initial 0))
     = [1200%Z]
  /\ completions (run [Render demo_props; Elapse 500; Unmount; Elapse 5000] (initial 0))
     = [].
Proof.
  assert (Hreach : reachable (initial 0)).
  { exists 0%Z, []. reflexivity. }
  destruct (completion_once (initial 0) demo_props Hreach eq_refl eq_refl)
    as (Hramp & Hfire & Hcancel).
  split; [|split; [|split]].
  - rewrite (Hramp 250%Z); [reflexivity | vm_compute; split; discriminate].
  - apply (proj1 (Hfire [500; 599]%nat)). reflexivity.
  - destruct (proj2 (Hfire [500; 700; 5000]%nat)) as (tau & Hc & _).
    + vm_compute. discriminate.
    + reflexivity.
  - apply (proj1 (Hcancel [500]%nat Unmount [5000]%nat eq_refl (or_introl eq_refl))).
Defined.

(** ** C10: a real run never expires a particle *)

(** C10 (as amended).  In every state the driver of DustSnapGL can reach,
    the animated time lies in [[0, 1]] (a started ramp ends at exactly 1), so
    the elapsed shader time [time * 22] never exceeds 22; with
    [lifetimeMin = 180], [fadeStart = 0.92] and [maxTime = 250] every cell
    has a life ratio below 0.13: no cell is expired, the fade alpha is 1 and
    the global cutoff is not taken. *)
Theorem real_run_never_expires :
  forall (st : State) (p : Props) (pieceSize : Q) (particleShape : ParticleShape)
         (seedValue : Q) (sin : Q -> Q) (cellId : float2),
    reachable st ->
    let u := uniforms st p pieceSize particleShape seedValue in
    let t := DustShader.elapsed u in
    (0 <= DustShader.time u /\ DustShader.time u <= 1)
    /\ (0 <= t /\ t <= 22)
    /\ DustShader.lifeRatio sin u cellId t < 0.13
    /\ Qgeb (DustShader.lifeRatio sin u cellId t) 1 = false
    /\ DustShader.fade u (DustShader.lifeRatio sin u cellId t) == 1
    /\ Qgtb t (DustShader.maxTime u) = false
    /\ (should_start p = true ->
        value_at (animationTime (step st (Render p)))
                 (now st + ANIMATION_CONFIG.DURATION_MS) == 1).
Proof.
  intros st p pieceSize particleShape seedValue sin cellId Hreach u t.
  destruct (reachable_invariant st Hreach) as [Hown Hramp].
  destruct (Hramp (now st)) as [Hlo Hhi].
  assert (Htime : DustShader.time u = value_at (animationTime st) (now st))
    by reflexivity.
  assert (Ht : t == DustShader.time u * 22).
  { unfold t, DustShader.elapsed, u. cbn. unfold ANIMATION_CONFIG.TIME_SCALE.
    apply Qmult_comp; reflexivity. }
  assert (Ht0 : 0 <= t) by (rewrite Ht, Htime; lra).
  assert (Ht1 : t <= 22) by (rewrite Ht, Htime; lra).
  assert (Hlife : 180 <= DustShader.maxLife sin u cellId).
  { assert (Hmin : DustShader.lifetimeMin u == 180) by reflexivity.
    rewrite <- Hmin. apply maxLife_pos; vm_compute; [reflexivity | discriminate]. }
  assert (Hlr : DustShader.lifeRatio sin u cellId t < 0.13).
  { unfold DustShader.lifeRatio. apply Qlt_shift_div_r; lra. }
  split; [rewrite Htime; split; assumption|].
  split; [split; assumption|].
  split; [exact Hlr|].
  split; [apply Qgeb_false; lra|].
  split.
  { unfold DustShader.fade.
    assert (E : Qgtb (DustShader.lifeRatio sin u cellId t) (DustShader.fadeStart u) = false).
    { apply Qgtb_false. change (DustShader.fadeStart u) with 0.92. lra. }
    rewrite E. reflexivity. }
  split.
  { apply Qgtb_false. change (DustShader.maxTime u) with 250.0. lra. }
  intro Hstart.
  destruct (start_state st p Hown Hstart) as (_ & _ & _ & _ & Hanim).
  rewrite Hanim. rewrite (ramp_linear (now st) ANIMATION_CONFIG.DURATION_MS).
  - reflexivity.
  - unfold ANIMATION_CONFIG.DURATION_MS. lia.
Qed.

Lemma real_run_never_expires_witness :
  DustShader.time
    (uniforms (run [Render demo_props; Elapse 400] (initial 0)) demo_props 3 circle 42)
  <= 1
  /\ DustShader.lifeRatio sin_q
       (uniforms (run [Render demo_props; Elapse 400] (initial 0)) demo_props 3 circle 42)
       (Float2 10 10)
       (DustShader.elapsed
          (uniforms (run [Render demo_props; Elapse 400] (initial 0)) demo_props 3 circle 42))
     < 0.13.
Proof.
  assert (Hreach : reachable (run [Render demo_props; Elapse 400] (initial 0))).
  { exists 0%Z, [Render demo_props; Elapse 400]. reflexivity. }
  destruct (real_run_never_expires _ demo_props 3 circle 42 sin_q (Float2 10 10) Hreach)
    as ((_ & Htime) & _ & Hlr & _).
  split; [exact Htime | exact Hlr].
Defined.

End DriverFacts.

(** * Further properties of the shaders *)

(** ** Lists of candidate offsets *)

Lemma In_count_from (n : nat) (k x : Z) :
  In x (count_from n k) <-> (k <= x < k + Z.of_nat n)%Z.
Proof.
  revert k. induction n as [|n IH]; intro k.
  - simpl. split; [intros [] | lia].
  - cbn [count_from In]. rewrite IH. lia.
Qed.

Lemma In_range (lo hi x : Z) : In x (range lo hi) <-> (lo <= x <= hi)%Z.
Proof.
  unfold range. rewrite In_count_from. lia.
Qed.

Lemma In_window (lo1 hi1 lo2 hi2 : Z) (ij : Z * Z) :
  In ij (window lo1 hi1 lo2 hi2)
  <-> (lo1 <= fst ij <= hi1)%Z /\ (lo2 <= snd ij <= hi2)%Z.
Proof.
  unfold window. rewrite in_flat_map. split.
  - intros (i & Hi & Hin). apply in_map_iff in Hin. destruct Hin as (j & E & Hj).
    subst ij. cbn [fst snd]. rewrite In_range in Hi, Hj. split; assumption.
  - intros [Hi Hj]. exists (fst ij). rewrite In_range. split; [exact Hi|].
    apply in_map_iff. exists (snd ij). rewrite In_range.
    split; [destruct ij; reflexivity | exact Hj].
Qed.

Lemma find_some_first {A : Type} (q : A -> bool) (l : list A) (a : A) :
  In a l -> q a = true -> exists b, find q l = Some b.
Proof.
  induction l as [|c l IH]; intros Hin Ha; [destruct Hin|].
  simpl. destruct (q c) eqn:E; [exists c; reflexivity|].
  destruct Hin as [-> | Hin]; [congruence | apply IH; assumption].
Qed.

(** ** DUST_SHADER: what a returned colour is *)

Section DustShaderDrawn.

Variables sin cos : Q -> Q.
Variable image : float2 -> half4.
Variable u : DustShader.Uniforms.

(** Either nothing is drawn or the colour is the one carried by a
    candidate of the window that passes every test. *)
Lemma main_cases (fragCoord : float2) :
  let screenCoord := v2add fragCoord (DustShader.canvasOffset u) in
  let base := DustShader.baseImgPos u screenCoord in
  let t := DustShader.elapsed u in
  DustShader.main sin cos image u fragCoord = transparent
  \/ exists ij,
       In ij DustShaderSpec.candidates
       /\ DustShaderSpec.qualifies sin cos image u screenCoord base t ij = true
       /\ DustShader.main sin cos image u fragCoord
          = DustShaderSpec.carried sin image u base t ij.
Proof.
  intros screenCoord base t.
  pose proof (main_search sin cos image u fragCoord) as Hm.
  cbv zeta in Hm. fold screenCoord in Hm. fold base in Hm. fold t in Hm.
  rewrite Hm.
  destruct (Qgtb t (DustShader.maxTime u)); [left; reflexivity|].
  destruct (find _ _) as [ij|] eqn:Hfind; [|left; reflexivity].
  right. exists ij. apply find_some in Hfind. destruct Hfind as [Hin Hq].
  repeat split; assumption.
Qed.

Lemma qualifies_parts (screenCoord base : float2) (t : Q) (ij : Z * Z) :
  DustShaderSpec.qualifies sin cos image u screenCoord base t ij = true ->
  DustShaderSpec.in_image u base ij = true
  /\ DustShaderSpec.expired sin u base t ij = false
  /\ DustShaderSpec.covers sin cos u screenCoord base t ij = true
  /\ 0.01 < DustShaderSpec.fade_alpha sin u base t ij
  /\ 0.1 < ca (DustShaderSpec.rest_colour image u base ij).
Proof.
  unfold DustShaderSpec.qualifies. intro H.
  repeat (apply andb_true_iff in H; destruct H as [H ?]).
  repeat split; try assumption.
  - apply negb_true_iff. assumption.
  - apply Qgtb_true. assumption.
  - apply Qgtb_true. assumption.
Qed.

Lemma fade_le_one (lr : Q) :
  DustShader.fadeStart u < 1 -> lr < 1 -> DustShader.fade u lr <= 1.
Proof.
  intros Hfs Hlr. unfold DustShader.fade.
  destruct (Qgtb lr (DustShader.fadeStart u)) eqn:E; [|lra].
  apply Qgtb_true in E.
  set (fs := DustShader.fadeStart u) in *.
  assert (Hd : 0 < / (1 - fs)) by (apply Qinv_lt_0_compat; lra).
  assert (Hone : (1 - fs) * / (1 - fs) == 1) by (apply Qmult_inv_r; lra).
  assert (H0 : 0 <= 1 - (lr - fs) / (1 - fs)) by (unfold Qdiv; nra).
  assert (H1 : 1 - (lr - fs) / (1 - fs) <= 1) by (unfold Qdiv; nra).
  nra.
Qed.

End DustShaderDrawn.

(** X1.  Every colour DUST_SHADER returns is fully transparent or is the
    image colour at the rest centre of a candidate cell of the window, with
    its red, green and blue unchanged, a source alpha above 0.1 and an
    output alpha between one hundredth of the source alpha and the source
    alpha (for [fadeStart < 1]). *)
Theorem drawn_colour_is_a_faded_sample :
  forall (sin cos : Q -> Q) (image : float2 -> half4) (u : DustShader.Uniforms)
         (fragCoord : float2),
    DustShader.fadeStart u < 1 ->
    let out := DustShader.main sin cos image u fragCoord in
    let base := DustShader.baseImgPos u (v2add fragCoord (DustShader.canvasOffset u)) in
    out = transparent
    \/ exists i j : Z,
         (- DustShader.SEARCH_RAD <= i <= DustShader.SEARCH_RAD)%Z
         /\ (- DustShader.SEARCH_RAD <= j <= DustShader.SEARCH_RAD)%Z
         /\ let c := image (DustShader.cellCenter u (DustShader.cellOf u base i j)) in
            cr out = cr c /\ cg out = cg c /\ cb out = cb c
            /\ 0.1 < ca c
            /\ 0.01 * ca c < ca out /\ ca out <= ca c.
Proof.
  intros sin cos image u fragCoord Hfs out base.
  destruct (main_cases sin cos image u fragCoord) as [H | (ij & Hin & Hq & Hm)];
    [left; exact H|].
  right. exists (fst ij), (snd ij).
  apply In_window in Hin. destruct Hin as [Hi Hj].
  split; [exact Hi|]. split; [exact Hj|].
  apply qualifies_parts in Hq.
  destruct Hq as (_ & Hlive & _ & Hfade & Hsrc).
  subst out base. rewrite Hm.
  unfold DustShaderSpec.expired in Hlive. apply Qgeb_false in Hlive.
  pose proof (fade_le_one u _ Hfs Hlive) as Hle.
  unfold DustShaderSpec.carried, DustShaderSpec.rest_colour,
    DustShaderSpec.fade_alpha, DustShaderSpec.cell in *.
  cbn [cr cg cb ca].
  repeat split; try reflexivity; try exact Hsrc; nra.
Qed.

Lemma drawn_colour_is_a_faded_sample_witness :
  DustShader.main sin_q cos_q demo_image (demo_uniforms 0.5 circle) (Float2 40.5 50.5)
  = transparent
  \/ exists i j : Z,
       (-4 <= i <= 4)%Z /\ (-4 <= j <= 4)%Z
       /\ 0.1 < ca (demo_image
                      (DustShader.cellCenter (demo_uniforms 0.5 circle)
                         (DustShader.cellOf (demo_uniforms 0.5 circle)
                            (DustShader.baseImgPos (demo_uniforms 0.5 circle)
                               (v2add (Float2 40.5 50.5)
                                  (DustShader.canvasOffset (demo_uniforms 0.5 circle))))
                            i j))).
Proof.
  assert (Hfs : DustShader.fadeStart (demo_uniforms 0.5 circle) < 1)
    by (vm_compute; reflexivity).
  destruct (drawn_colour_is_a_faded_sample sin_q cos_q demo_image
              (demo_uniforms 0.5 circle) (Float2 40.5 50.5) Hfs)
    as [H | (i & j & Hi & Hj & _ & _ & _ & Hsrc & _)].
  - left. exact H.
  - right. exists i, j. split; [exact Hi|]. split; [exact Hj | exact Hsrc].
Defined.

(** ** DUST_SHADER: where a drawn particle can be *)

Lemma inside_within (u : DustShader.Uniforms) (d : float2) :
  0 < DustShader.particleSize u -> DustShader.inside u d = true ->
  (- DustShader.halfSize u <= vx d /\ vx d <= DustShader.halfSize u)
  /\ (- DustShader.halfSize u <= vy d /\ vy d <= DustShader.halfSize u).
Proof.
  intros Hps. unfold DustShader.inside, DustShader.halfSizeSq.
  assert (Hh : 0 < DustShader.halfSize u) by (unfold DustShader.halfSize; lra).
  destruct (DustShader.isCircle u =? 1)%Z.
  - intro H. apply Qleb_true in H. unfold dot in H.
    repeat split.
    + destruct (Qlt_le_dec (vx d) (- DustShader.halfSize u)); [nra | assumption].
    + destruct (Qlt_le_dec (DustShader.halfSize u) (vx d)); [nra | assumption].
    + destruct (Qlt_le_dec (vy d) (- DustShader.halfSize u)); [nra | assumption].
    + destruct (Qlt_le_dec (DustShader.halfSize u) (vy d)); [nra | assumption].
  - intro H. apply andb_true_iff in H. destruct H as [Hx Hy].
    apply Qleb_true in Hx, Hy.
    pose proof (Qabs_bounds (vx d)). pose proof (Qabs_bounds (vy d)).
    repeat split; lra.
Qed.

(** X2.  A particle is drawn at a pixel only when its displacement differs
    from the reverse-wind estimate [(- reverseWindMult * t, 0)] by at most
    [SEARCH_RAD + 1 = 5] particle sizes on each axis: particles that have
    strayed further from the estimate are never found. *)
Theorem drawn_particle_near_estimate :
  forall (sin cos : Q -> Q) (image : float2 -> half4) (u : DustShader.Uniforms)
         (fragCoord : float2),
    0 < DustShader.particleSize u ->
    let base := DustShader.baseImgPos u (v2add fragCoord (DustShader.canvasOffset u)) in
    let t := DustShader.elapsed u in
    DustShader.main sin cos image u fragCoord = transparent
    \/ exists i j : Z,
         let cellId := DustShader.cellOf u base i j in
         let m := DustShader.movement sin cos u cellId t in
         DustShader.main sin cos image u fragCoord
         = DustShaderSpec.carried sin image u base t (i, j)
         /\ Qabs (vx m + DustShader.reverseWindMult u * t)
            <= 5 * DustShader.particleSize u
         /\ Qabs (vy m) <= 5 * DustShader.particleSize u.
Proof.
  intros sin cos image u fragCoord Hps base t.
  destruct (main_cases sin cos image u fragCoord) as [H | (ij & Hin & Hq & Hm)];
    [left; exact H|].
  right. destruct ij as [i j]. exists i, j.
  apply In_window in Hin. cbn [fst snd] in Hin. destruct Hin as [Hi Hj].
  unfold DustShader.SEARCH_RAD in Hi, Hj.
  apply qualifies_parts in Hq. destruct Hq as (_ & _ & Hcov & _ & _).
  fold base in Hcov, Hm. fold t in Hcov, Hm.
  split; [exact Hm|].
  unfold DustShaderSpec.covers, DustShaderSpec.cell in Hcov. cbn [fst snd] in Hcov.
  apply (inside_within u _ Hps) in Hcov.
  destruct Hcov as [[Hx0 Hx1] [Hy0 Hy1]].
  destruct (cellOf_shift u base i j Hps) as [Ecx Ecy].
  destruct (floorQ_bounds (vx base) _ Hps) as [Hbx0 Hbx1].
  destruct (floorQ_bounds (vy base) _ Hps) as [Hby0 Hby1].
  fold (DustShader.invPS u) in Hbx0, Hbx1, Hby0, Hby1.
  set (cellId := DustShader.cellOf u base i j) in *.
  set (m := DustShader.movement sin cos u cellId t) in *.
  set (c0x := floorQ (vx base * DustShader.invPS u)) in *.
  set (c0y := floorQ (vy base * DustShader.invPS u)) in *.
  assert (Ebx : vx base == vx (v2add fragCoord (DustShader.canvasOffset u))
                           + DustShader.reverseWindMult u * t
                           - vx (DustShader.imageOffset u)).
  { unfold base, DustShader.baseImgPos, v2sub, v2add. cbn [vx vy]. fold t. reflexivity. }
  assert (Eby : vy base == vy (v2add fragCoord (DustShader.canvasOffset u))
                           - vy (DustShader.imageOffset u)).
  { unfold base, DustShader.baseImgPos, v2sub, v2add. cbn [vx vy]. ring. }
  unfold DustShader.particlePos, DustShader.cellCenter, v2sub, v2add, v2adds, v2scale
    in Hx0, Hx1, Hy0, Hy1.
  cbn [vx vy] in Hx0, Hx1, Hy0, Hy1.
  fold m in Hx0, Hx1, Hy0, Hy1.
  unfold v2add in Ebx, Eby. cbn [vx vy] in Ebx, Eby.
  assert (Hhalf : DustShader.halfSize u * 2 == DustShader.particleSize u).
  { unfold DustShader.halfSize. ring. }
  assert (Hi0 : -4 <= inject_Z i).
  { change (-4) with (inject_Z (-4)). rewrite <- Zle_Qle. lia. }
  assert (Hi1 : inject_Z i <= 4).
  { change 4 with (inject_Z 4). rewrite <- Zle_Qle. lia. }
  assert (Hj0 : -4 <= inject_Z j).
  { change (-4) with (inject_Z (-4)). rewrite <- Zle_Qle. lia. }
  assert (Hj1 : inject_Z j <= 4).
  { change 4 with (inject_Z 4). rewrite <- Zle_Qle. lia. }
  split; apply Qabs_le_intro; split; nra.
Qed.

Lemma drawn_particle_near_estimate_witness :
  DustShader.main sin_q cos_q demo_image (demo_uniforms 0 circle) (Float2 40.5 50.5)
  = transparent
  \/ exists i j : Z,
       DustShader.main sin_q cos_q demo_image (demo_uniforms 0 circle) (Float2 40.5 50.5)
       = DustShaderSpec.carried sin_q demo_image (demo_uniforms 0 circle)
           (DustShader.baseImgPos (demo_uniforms 0 circle) (Float2 40.5 50.5))
           (DustShader.elapsed (demo_uniforms 0 circle)) (i, j).
Proof.
  assert (Hps : 0 < DustShader.particleSize (demo_uniforms 0 circle))
    by (vm_compute; reflexivity).
  destruct (drawn_particle_near_estimate sin_q cos_q demo_image
              (demo_uniforms 0 circle) (Float2 40.5 50.5) Hps)
    as [H | (i & j & Hm & _)].
  - left. exact H.
  - right. exists i, j. exact Hm.
Defined.

(** X3.  The image is sampled only at rest centres that lie within half a
    particle of an in-image position: the sample position is at least half
    a particle inside the top-left corner and less than half a particle
    beyond the bottom-right edge of the image. *)
Theorem sample_position_bounds :
  forall (u : DustShader.Uniforms) (base : float2) (i j : Z),
    0 < DustShader.particleSize u ->
    DustShader.outside_image u (DustShader.imgLocalPos u base i j) = false ->
    let p := DustShader.imgLocalPos u base i j in
    let c := DustShader.cellCenter u (DustShader.cellOf u base i j) in
    (vx c - DustShader.halfSize u <= vx p /\ vx p < vx c + DustShader.halfSize u)
    /\ (vy c - DustShader.halfSize u <= vy p /\ vy p < vy c + DustShader.halfSize u)
    /\ (DustShader.halfSize u <= vx c
        /\ vx c < vx (DustShader.imageSize u) + DustShader.halfSize u)
    /\ (DustShader.halfSize u <= vy c
        /\ vy c < vy (DustShader.imageSize u) + DustShader.halfSize u).
Proof.
  intros u base i j Hps Hin p c.
  unfold DustShader.outside_image in Hin. fold p in Hin.
  repeat (apply orb_false_iff in Hin; destruct Hin as [Hin ?]).
  apply Qltb_false in Hin. apply Qgeb_false in H1.
  apply Qltb_false in H0. apply Qgeb_false in H.
  destruct (floorQ_bounds (vx p) _ Hps) as [Hx0 Hx1].
  destruct (floorQ_bounds (vy p) _ Hps) as [Hy0 Hy1].
  assert (Hhalf : DustShader.halfSize u * 2 == DustShader.particleSize u).
  { unfold DustShader.halfSize. ring. }
  assert (Ecx : vx c = floorQ (vx p * (1 / DustShader.particleSize u))
                       * DustShader.particleSize u + DustShader.halfSize u)
    by reflexivity.
  assert (Ecy : vy c = floorQ (vy p * (1 / DustShader.particleSize u))
                       * DustShader.particleSize u + DustShader.halfSize u)
    by reflexivity.
  assert (Hfx : 0 <= floorQ (vx p * (1 / DustShader.particleSize u))).
  { unfold floorQ. change 0 with (inject_Z 0). rewrite <- Zle_Qle.
    change 0%Z with (Qfloor 0). apply Qfloor_resp_le.
    apply Qmult_le_0_compat; [exact Hin|].
    apply Qlt_le_weak. apply Qlt_shift_div_l; lra. }
  assert (Hfy : 0 <= floorQ (vy p * (1 / DustShader.particleSize u))).
  { unfold floorQ. change 0 with (inject_Z 0). rewrite <- Zle_Qle.
    change 0%Z with (Qfloor 0). apply Qfloor_resp_le.
    apply Qmult_le_0_compat; [exact H0|].
    apply Qlt_le_weak. apply Qlt_shift_div_l; lra. }
  rewrite Ecx, Ecy.
  repeat split; nra.
Qed.

Lemma sample_position_bounds_witness :
  vx (DustShader.cellCenter (demo_uniforms 0 circle)
        (DustShader.cellOf (demo_uniforms 0 circle) (Float2 99.5 30.5) 0 0))
  < 100 + DustShader.halfSize (demo_uniforms 0 circle)
  /\ 100 < vx (DustShader.cellCenter (demo_uniforms 0 circle)
                 (DustShader.cellOf (demo_uniforms 0 circle) (Float2 99.5 30.5) 0 0)).
Proof.
  split.
  - apply (sample_position_bounds (demo_uniforms 0 circle) (Float2 99.5 30.5) 0 0);
      vm_compute; reflexivity.
  - vm_compute. reflexivity.
Defined.

(** X4.  With [lifetimeMin > 0] and [lifetimeRange >= 0], at any
    [t >= lifetimeMin + lifetimeRange] every cell has expired
    ([lifeRatio >= 1]), so every candidate is skipped, those inside the image
    by the expiry test; and when the elapsed time is such a [t], DUST_SHADER
    is fully transparent at every pixel. *)
Theorem all_cells_expired :
  forall (sin cos : Q -> Q) (image : float2 -> half4) (u : DustShader.Uniforms)
         (t : Q),
    0 < DustShader.lifetimeMin u -> 0 <= DustShader.lifetimeRange u ->
    DustShader.lifetimeMin u + DustShader.lifetimeRange u <= t ->
    (forall cellId : float2, Qgeb (DustShader.lifeRatio sin u cellId t) 1 = true)
    /\ (forall (screenCoord base : float2) (i j : Z),
          DustShader.candidate sin cos image u screenCoord base t i j = None)
    /\ (t = DustShader.elapsed u ->
        forall fragCoord : float2,
          DustShader.main sin cos image u fragCoord = transparent).
Proof.
  intros sin cos image u t Hmin Hrange Hlate.
  assert (Hexp : forall c, Qgeb (DustShader.lifeRatio sin u c t) 1 = true).
  { intro c. apply Qgeb_true. unfold DustShader.lifeRatio.
    pose proof (maxLife_pos sin u c Hmin Hrange) as Hpos.
    destruct (rnd1_range sin u c) as [Hr0 Hr1].
    assert (Hmax : DustShader.maxLife sin u c
                   <= DustShader.lifetimeMin u + DustShader.lifetimeRange u).
    { unfold DustShader.maxLife. nra. }
    apply Qle_shift_div_l; lra. }
  assert (Hskip : forall screenCoord base i j,
             DustShader.candidate sin cos image u screenCoord base t i j = None).
  { intros screenCoord base i j. unfold DustShader.candidate.
    destruct (DustShader.outside_image _ _); [reflexivity|].
    rewrite Hexp. reflexivity. }
  split; [exact Hexp|]. split; [exact Hskip|].
  intros Ht fragCoord. subst t. unfold DustShader.main.
  destruct (Qgtb _ _); [reflexivity|].
  rewrite nested_loops_window, first_some_none; [reflexivity|].
  intros [i j] _. cbn [fst snd]. apply Hskip.
Qed.

Lemma all_cells_expired_witness :
  Qgtb (DustShader.elapsed brief_uniforms) (DustShader.maxTime brief_uniforms) = false
  /\ DustShader.outside_image brief_uniforms
       (DustShader.imgLocalPos brief_uniforms
          (DustShader.baseImgPos brief_uniforms brief_pixel) 0 0) = false
  /\ Qgeb (DustShader.lifeRatio sin_q brief_uniforms
             (DustShader.cellOf brief_uniforms
                (DustShader.baseImgPos brief_uniforms brief_pixel) 0 0)
             (DustShader.elapsed brief_uniforms)) 1 = true
  /\ DustShader.main sin_q cos_q demo_image brief_uniforms brief_pixel = transparent.
Proof.
  assert (Hmin : 0 < DustShader.lifetimeMin brief_uniforms) by (vm_compute; reflexivity).
  assert (Hrange : 0 <= DustShader.lifetimeRange brief_uniforms)
    by (vm_compute; discriminate).
  assert (Hlate : DustShader.lifetimeMin brief_uniforms
                  + DustShader.lifetimeRange brief_uniforms
                  <= DustShader.elapsed brief_uniforms)
    by (vm_compute; discriminate).
  destruct (all_cells_expired sin_q cos_q demo_image brief_uniforms
              (DustShader.elapsed brief_uniforms) Hmin Hrange Hlate)
    as (Hexp & _ & Hblank).
  split; [vm_compute; reflexivity|].
  split; [vm_compute; reflexivity|].
  split; [apply Hexp|].
  apply Hblank. reflexivity.
Defined.

(** ** The stand-in intrinsics are bounded *)

Lemma bhaskara_range (y : Q) :
  0 <= y -> y <= pi_q -> 0 <= bhaskara y /\ bhaskara y <= 1.
Proof.
  intros H0 H1. unfold bhaskara.
  assert (Hpi : pi_q == 355 # 113) by reflexivity.
  set (p := y * (pi_q - y)).
  assert (Hp0 : 0 <= p) by (unfold p; nra).
  assert (Hp1 : 4 * p <= pi_q * pi_q).
  { assert (Hsq : 0 <= (pi_q - 2 * y) * (pi_q - 2 * y)).
    { destruct (Qlt_le_dec (pi_q - 2 * y) 0); nra. }
    assert (E : (pi_q - 2 * y) * (pi_q - 2 * y) == pi_q * pi_q - 4 * p)
      by (unfold p; ring).
    rewrite E in Hsq. lra. }
  assert (HD : 0 < 5 * pi_q * pi_q - 4 * y * (pi_q - y)).
  { fold p. assert (E : 4 * y * (pi_q - y) == 4 * p) by (unfold p; ring).
    rewrite E. nra. }
  assert (E16 : 16 * y * (pi_q - y) == 16 * p) by (unfold p; ring).
  assert (E4 : 4 * y * (pi_q - y) == 4 * p) by (unfold p; ring).
  split.
  - apply Qle_shift_div_l; [exact HD|]. rewrite E16. lra.
  - apply Qle_shift_div_r; [exact HD|]. rewrite E16, E4. lra.
Qed.

Lemma sin_q_bounded : bounded_sin sin_q.
Proof.
  intro a. unfold sin_q.
  set (y := a - 2 * pi_q * floorQ (a / (2 * pi_q))).
  assert (Hpi : pi_q == 355 # 113) by reflexivity.
  assert (Hy : 0 <= y /\ y < 2 * pi_q).
  { unfold y, floorQ.
    pose proof (Qfloor_le (a / (2 * pi_q))) as Hlo.
    pose proof (Qlt_floor (a / (2 * pi_q))) as Hhi.
    rewrite inject_Z_plus in Hhi. change (inject_Z 1) with 1 in Hhi.
    assert (E : a == a / (2 * pi_q) * (2 * pi_q)) by (field; rewrite Hpi; discriminate).
    set (f := inject_Z (Qfloor (a / (2 * pi_q)))) in *.
    set (x := a / (2 * pi_q)) in *.
    assert (E' : a - 2 * pi_q * f == (x - f) * (2 * pi_q)) by (rewrite E at 1; ring).
    rewrite E'. split; nra. }
  rewrite Qred_correct.
  destruct (Qleb y pi_q) eqn:E.
  - apply Qleb_true in E. destruct (bhaskara_range y) as [B0 B1]; [lra | lra |].
    split; lra.
  - apply Qleb_false in E.
    destruct (bhaskara_range (y - pi_q)) as [B0 B1]; [lra | lra |].
    split; lra.
Qed.

Lemma cos_q_bounded : bounded_cos cos_q.
Proof.
  intro a. unfold cos_q. apply sin_q_bounded.
Qed.

(** ** DUST_SHADER: how far a particle travels *)

Lemma product_bound (s a h : Q) :
  -1 <= s -> s <= 1 -> 0 <= a -> 0 <= h -> h <= 1 ->
  - a <= s * a * h /\ s * a * h <= a.
Proof.
  intros Hs0 Hs1 Ha Hh0 Hh1.
  assert (H0 : 0 <= a * h) by nra.
  assert (H1 : a * h <= a) by nra.
  assert (E : s * a * h == s * (a * h)) by ring.
  rewrite E. split; nra.
Qed.

Lemma eased_bound (x e B : Q) :
  - B <= x -> x <= B -> 0 <= e -> e <= 1 -> - B <= x * e /\ x * e <= B.
Proof.
  intros. split; nra.
Qed.

Section DustShaderTravel.

Variables sin cos : Q -> Q.
Variable u : DustShader.Uniforms.
Variable c : float2.
Variable t : Q.

Hypothesis sin_bounded : bounded_sin sin.
Hypothesis cos_bounded : bounded_cos cos.
Hypothesis t_nonneg : 0 <= t.
Hypothesis life_pos : 0 < DustShader.lifetimeMin u.
Hypothesis range_nonneg : 0 <= DustShader.lifetimeRange u.

Lemma lifeRatio_nonneg : 0 <= DustShader.lifeRatio sin u c t.
Proof.
  unfold DustShader.lifeRatio.
  pose proof (maxLife_pos sin u c life_pos range_nonneg).
  apply Qle_shift_div_l; lra.
Qed.

Lemma startEase_range :
  0 <= DustShader.startEase sin u c t /\ DustShader.startEase sin u c t <= 1.
Proof.
  unfold DustShader.startEase. pose proof lifeRatio_nonneg. split.
  - apply Q.min_glb; lra.
  - apply Q.le_min_r.
Qed.

Lemma burstDecay_range :
  0 <= DustShader.burstDecay sin u c t /\ DustShader.burstDecay sin u c t <= 1.
Proof.
  unfold DustShader.burstDecay. pose proof lifeRatio_nonneg. split.
  - apply Qle_shift_div_l; lra.
  - apply Qle_shift_div_r; lra.
Qed.

End DustShaderTravel.

Lemma signed_bound (s q : Q) :
  -1 <= s -> s <= 1 -> 0 <= q -> - q <= s * q /\ s * q <= q.
Proof.
  intros. split; nra.
Qed.

(** X5.  For a sine and a cosine with values in [[-1, 1]], non-negative
    configuration constants and [t >= 0], the displacement of a cell is
    bounded on each axis by the sum of the largest values of its five terms:
    [1.3 * windSpeed * t] (horizontally) or [verticalSpread * t]
    (vertically), [turbulence], [burstStrength], half or all of [floatAmp],
    and the drift [drift * t^2 / 100]. *)
Theorem travel_bound :
  forall (sin cos : Q -> Q) (u : DustShader.Uniforms) (c : float2) (t : Q),
    bounded_sin sin -> bounded_cos cos -> 0 <= t ->
    0 < DustShader.lifetimeMin u -> 0 <= DustShader.lifetimeRange u ->
    0 <= DustShader.windSpeed u -> 0 <= DustShader.verticalSpread u ->
    0 <= DustShader.turbulence u -> 0 <= DustShader.burstStrength u ->
    0 <= DustShader.floatAmp u ->
    0 <= DustShader.driftX u -> 0 <= DustShader.driftY u ->
    Qabs (vx (DustShader.movement sin cos u c t))
    <= 1.3 * (DustShader.windSpeed u * t) + DustShader.turbulence u
       + DustShader.burstStrength u + 0.5 * DustShader.floatAmp u
       + DustShader.driftX u * (t * t * 0.01)
    /\ Qabs (vy (DustShader.movement sin cos u c t))
       <= DustShader.verticalSpread u * t + DustShader.turbulence u
          + DustShader.burstStrength u + DustShader.floatAmp u
          + DustShader.driftY u * (t * t * 0.01).
Proof.
  intros sin cos u c t Hsin Hcos Ht Hlife Hrange Hws Hvs Hturb Hbs Hfa HdX HdY.
  destruct (rnd1_range sin u c) as [Hh0 Hh1].
  destruct (rnd2_range sin u c) as [Hr20 Hr21].
  destruct (rnd3_range sin u c) as [Hr30 Hr31].
  destruct (startEase_range sin u c t Ht Hlife Hrange) as [He0 He1].
  destruct (burstDecay_range sin u c t Ht Hlife Hrange) as [Hd0 Hd1].
  assert (Htsq : 0 <= DustShader.tSq t) by (unfold DustShader.tSq; nra).
  assert (Hw : 0 <= DustShader.windSpeed u * t) by (apply Qmult_le_0_compat; assumption).
  assert (Hv : 0 <= DustShader.verticalSpread u * t)
    by (apply Qmult_le_0_compat; assumption).
  (* the horizontal terms *)
  assert (HwindX : - (1.3 * (DustShader.windSpeed u * t)) <= DustShader.windX sin u c t
                   /\ DustShader.windX sin u c t <= 1.3 * (DustShader.windSpeed u * t)).
  { unfold DustShader.windX.
    set (w := DustShader.windSpeed u * t) in *.
    set (h := DustShader.rnd1 sin u c) in *.
    assert (E : - DustShader.windSpeed u * t * (0.7 + h * 0.6)
                == - (0.7 * w) - 0.6 * (w * h)) by (unfold w; ring).
    assert (0 <= w * h) by nra. assert (w * h <= w) by nra.
    rewrite E. split; lra. }
  assert (HturbX : - DustShader.turbulence u <= DustShader.turbX sin u c t
                   /\ DustShader.turbX sin u c t <= DustShader.turbulence u).
  { unfold DustShader.turbX.
    destruct (Hsin (DustShader.turbPhase sin u c t)).
    apply product_bound; lra. }
  assert (HburstX : - DustShader.burstStrength u <= DustShader.burstX sin cos u c t
                    /\ DustShader.burstX sin cos u c t <= DustShader.burstStrength u).
  { unfold DustShader.burstX.
    destruct (Hcos (DustShader.burstAngle sin u c)).
    apply product_bound; lra. }
  assert (HfloatX : - (0.5 * DustShader.floatAmp u) <= DustShader.floatX sin u c t
                    /\ DustShader.floatX sin u c t <= 0.5 * DustShader.floatAmp u).
  { unfold DustShader.floatX.
    destruct (Hsin (DustShader.floatPhase sin u c t)).
    destruct (signed_bound (sin (DustShader.floatPhase sin u c t))
                (DustShader.floatAmp u)); [lra | lra | lra |].
    split; lra. }
  assert (HdriftX : - (DustShader.driftX u * DustShader.tSq t)
                    <= DustShader.continuousDriftX sin u c t
                    /\ DustShader.continuousDriftX sin u c t
                       <= DustShader.driftX u * DustShader.tSq t).
  { unfold DustShader.continuousDriftX, DustShader.driftDirX.
    assert (Hq : 0 <= DustShader.driftX u * DustShader.tSq t)
      by (apply Qmult_le_0_compat; assumption).
    destruct (signed_bound ((DustShader.rnd1 sin u c - 0.5) * 2)
                (DustShader.driftX u * DustShader.tSq t)); [lra | lra | lra |].
    assert (E : (DustShader.rnd1 sin u c - 0.5) * 2 * DustShader.driftX u
                * DustShader.tSq t
                == (DustShader.rnd1 sin u c - 0.5) * 2
                   * (DustShader.driftX u * DustShader.tSq t)) by ring.
    rewrite E. split; assumption. }
  (* the vertical terms *)
  assert (HwindY : - (DustShader.verticalSpread u * t) <= DustShader.windY sin u c t
                   /\ DustShader.windY sin u c t <= DustShader.verticalSpread u * t).
  { unfold DustShader.windY, DustShader.verticalDir.
    assert (E : (DustShader.rnd2 sin u c * 2 - 1) * DustShader.verticalSpread u * t
                * (0.5 + DustShader.rnd3 sin u c * 0.5)
                == (DustShader.rnd2 sin u c * 2 - 1)
                   * (DustShader.verticalSpread u * t)
                   * (0.5 + DustShader.rnd3 sin u c * 0.5)) by ring.
    rewrite E. apply product_bound; lra. }
  assert (HturbY : - DustShader.turbulence u <= DustShader.turbY sin cos u c t
                   /\ DustShader.turbY sin cos u c t <= DustShader.turbulence u).
  { unfold DustShader.turbY.
    destruct (Hcos (DustShader.turbPhase sin u c t)).
    apply product_bound; lra. }
  assert (HburstY : - DustShader.burstStrength u <= DustShader.burstY sin u c t
                    /\ DustShader.burstY sin u c t <= DustShader.burstStrength u).
  { unfold DustShader.burstY.
    destruct (Hsin (DustShader.burstAngle sin u c)).
    apply product_bound; lra. }
  assert (HfloatY : - DustShader.floatAmp u <= DustShader.floatY sin cos u c t
                    /\ DustShader.floatY sin cos u c t <= DustShader.floatAmp u).
  { unfold DustShader.floatY.
    destruct (Hcos (DustShader.floatPhase sin u c t * 0.7)).
    apply signed_bound; lra. }
  assert (HdriftY : - (DustShader.driftY u * DustShader.tSq t)
                    <= DustShader.continuousDriftY sin u c t
                    /\ DustShader.continuousDriftY sin u c t
                       <= DustShader.driftY u * DustShader.tSq t).
  { unfold DustShader.continuousDriftY, DustShader.driftDirY.
    assert (Hq : 0 <= DustShader.driftY u * DustShader.tSq t)
      by (apply Qmult_le_0_compat; assumption).
    destruct (signed_bound ((DustShader.rnd2 sin u c - 0.5) * 2)
                (DustShader.driftY u * DustShader.tSq t)); [lra | lra | lra |].
    assert (E : (DustShader.rnd2 sin u c - 0.5) * 2 * DustShader.driftY u
                * DustShader.tSq t
                == (DustShader.rnd2 sin u c - 0.5) * 2
                   * (DustShader.driftY u * DustShader.tSq t)) by ring.
    rewrite E. split; assumption. }
  unfold DustShader.movement, v2scale. cbn [vx vy].
  fold (DustShader.tSq t).
  split; apply Qabs_le_intro; apply eased_bound; lra.
Qed.

Lemma travel_bound_witness :
  Qabs (vx (DustShader.movement sin_q cos_q (demo_uniforms 0.5 circle) (Float2 10 10) 11))
  <= 269.
Proof.
  eapply Qle_trans.
  - refine (proj1 (travel_bound sin_q cos_q (demo_uniforms 0.5 circle) (Float2 10 10) 11
                     sin_q_bounded cos_q_bounded _ _ _ _ _ _ _ _ _ _));
      vm_compute; first [reflexivity | discriminate].
  - vm_compute. discriminate.
Defined.

(** ** DUST_SHADER: moving the placement, changing the shape *)

Lemma for_loop_ext {A : Type} (f g : Z -> option A) (n : nat) (k : Z) :
  (forall x, f x = g x) -> for_loop n k f = for_loop n k g.
Proof.
  intro H. revert k. induction n as [|n IH]; intro k; simpl; [reflexivity|].
  rewrite H. destruct (g k); [reflexivity | apply IH].
Qed.

Lemma outside_image_proper (u : DustShader.Uniforms) (p p' : float2) :
  vx p == vx p' -> vy p == vy p' ->
  DustShader.outside_image u p = DustShader.outside_image u p'.
Proof.
  intros Hx Hy. unfold DustShader.outside_image, Qltb, Qgeb.
  rewrite (Qleb_comp 0 0 (Qeq_refl 0) _ _ Hx).
  rewrite (Qleb_comp _ _ (Qeq_refl (vx (DustShader.imageSize u))) _ _ Hx).
  rewrite (Qleb_comp 0 0 (Qeq_refl 0) _ _ Hy).
  rewrite (Qleb_comp _ _ (Qeq_refl (vy (DustShader.imageSize u))) _ _ Hy).
  reflexivity.
Qed.

Lemma candidate_shift (sin cos : Q -> Q) (image : float2 -> half4)
    (u : DustShader.Uniforms) (d screen screen' base base' : float2) (t : Q) (i j : Z) :
  vx base' == vx base -> vy base' == vy base ->
  vx screen' == vx screen + vx d -> vy screen' == vy screen + vy d ->
  DustShader.candidate sin cos image (shift_placement u d) screen' base' t i j
  = DustShader.candidate sin cos image u screen base t i j.
Proof.
  intros Hbx Hby Hsx Hsy.
  assert (Eout : DustShader.outside_image (shift_placement u d)
                   (DustShader.imgLocalPos (shift_placement u d) base' i j)
                 = DustShader.outside_image u (DustShader.imgLocalPos u base i j)).
  { apply (outside_image_proper u);
      unfold DustShader.imgLocalPos, v2add, v2scale; cbn [vx vy].
    - rewrite Hbx. reflexivity.
    - rewrite Hby. reflexivity. }
  assert (Ecell : DustShader.cellOf (shift_placement u d) base' i j
                  = DustShader.cellOf u base i j).
  { unfold DustShader.cellOf, v2floor. f_equal; apply floorQ_proper;
      unfold DustShader.imgLocalPos, v2add, v2scale; cbn [vx vy].
    - rewrite Hbx. reflexivity.
    - rewrite Hby. reflexivity. }
  unfold DustShader.candidate. rewrite Eout, Ecell.
  set (c := DustShader.cellOf u base i j).
  assert (Eins : DustShader.inside (shift_placement u d)
                   (v2sub screen' (DustShader.particlePos sin cos (shift_placement u d) c t))
                 = DustShader.inside u (v2sub screen (DustShader.particlePos sin cos u c t))).
  { apply (inside_proper u); unfold DustShader.particlePos;
      change (DustShader.movement sin cos (shift_placement u d) c t)
        with (DustShader.movement sin cos u c t);
      change (DustShader.cellCenter (shift_placement u d) c)
        with (DustShader.cellCenter u c);
      change (DustShader.imageOffset (shift_placement u d))
        with (v2add (DustShader.imageOffset u) d);
      unfold v2sub, v2add; cbn [vx vy].
    - rewrite Hsx. ring.
    - rewrite Hsy. ring. }
  rewrite Eins. reflexivity.
Qed.

(** X6.  The effect moves with the image.  Placing the image [d] further on
    the screen and looking [d] further gives exactly the same colour. *)
Theorem placement_covariance :
  forall (sin cos : Q -> Q) (image : float2 -> half4) (u : DustShader.Uniforms)
         (d fragCoord : float2),
    DustShader.main sin cos image (shift_placement u d) (v2add fragCoord d)
    = DustShader.main sin cos image u fragCoord.
Proof.
  intros sin cos image u d fragCoord. unfold DustShader.main.
  change (DustShader.elapsed (shift_placement u d)) with (DustShader.elapsed u).
  change (DustShader.maxTime (shift_placement u d)) with (DustShader.maxTime u).
  destruct (Qgtb _ _); [reflexivity|].
  assert (E : for_range (- DustShader.SEARCH_RAD) DustShader.SEARCH_RAD (fun i =>
                for_range (- DustShader.SEARCH_RAD) DustShader.SEARCH_RAD (fun j =>
                  DustShader.candidate sin cos image (shift_placement u d)
                    (v2add (v2add fragCoord d) (DustShader.canvasOffset (shift_placement u d)))
                    (DustShader.baseImgPos (shift_placement u d)
                       (v2add (v2add fragCoord d)
                          (DustShader.canvasOffset (shift_placement u d))))
                    (DustShader.elapsed u) i j))
              = for_range (- DustShader.SEARCH_RAD) DustShader.SEARCH_RAD (fun i =>
                  for_range (- DustShader.SEARCH_RAD) DustShader.SEARCH_RAD (fun j =>
                    DustShader.candidate sin cos image u
                      (v2add fragCoord (DustShader.canvasOffset u))
                      (DustShader.baseImgPos u (v2add fragCoord (DustShader.canvasOffset u)))
                      (DustShader.elapsed u) i j))).
  { unfold for_range. apply for_loop_ext; intro i. apply for_loop_ext; intro j.
    apply candidate_shift;
      cbn [vx vy v2add v2sub shift_placement DustShader.baseImgPos
           DustShader.imageOffset DustShader.canvasOffset
           DustShader.reverseWindMult];
      change (DustShader.elapsed (shift_placement u d)) with (DustShader.elapsed u);
      ring. }
  rewrite E. reflexivity.
Qed.

Lemma inside_square (u : DustShader.Uniforms) (d : float2) :
  0 < DustShader.particleSize u -> DustShader.inside u d = true ->
  DustShader.inside (with_shape u 0) d = true.
Proof.
  intros Hps Hin. destruct (inside_within u d Hps Hin) as [[Hx0 Hx1] [Hy0 Hy1]].
  unfold DustShader.inside. cbn [with_shape DustShader.isCircle Z.eqb].
  change (DustShader.halfSize (with_shape u 0)) with (DustShader.halfSize u).
  apply andb_true_iff; split; apply Qleb_true; apply Qabs_le_intro; split; assumption.
Qed.

(** X7.  Square particles cover at least what circular ones cover: where
    DUST_SHADER draws something (alpha above 0) with the uniforms [u], it
    also draws something when [isCircle] is set to 0, all else equal. *)
Theorem square_draws_where_circle_draws :
  forall (sin cos : Q -> Q) (image : float2 -> half4) (u : DustShader.Uniforms)
         (fragCoord : float2),
    0 < DustShader.particleSize u ->
    0 < ca (DustShader.main sin cos image u fragCoord) ->
    0 < ca (DustShader.main sin cos image (with_shape u 0) fragCoord).
Proof.
  intros sin cos image u fragCoord Hps Hdraw.
  pose proof (main_search sin cos image u fragCoord) as Hm.
  pose proof (main_search sin cos image (with_shape u 0) fragCoord) as Hm'.
  cbv zeta in Hm, Hm'.
  change (DustShader.elapsed (with_shape u 0)) with (DustShader.elapsed u) in Hm'.
  change (DustShader.maxTime (with_shape u 0)) with (DustShader.maxTime u) in Hm'.
  change (DustShader.canvasOffset (with_shape u 0)) with (DustShader.canvasOffset u) in Hm'.
  change (DustShader.baseImgPos (with_shape u 0)) with (DustShader.baseImgPos u) in Hm'.
  rewrite Hm in Hdraw. rewrite Hm'.
  destruct (Qgtb (DustShader.elapsed u) (DustShader.maxTime u));
    [exact Hdraw|].
  set (screen := v2add fragCoord (DustShader.canvasOffset u)) in *.
  set (base := DustShader.baseImgPos u screen) in *.
  set (t := DustShader.elapsed u) in *.
  destruct (find (DustShaderSpec.qualifies sin cos image u screen base t) _)
    as [ij|] eqn:Hfind; [|vm_compute in Hdraw; discriminate].
  apply find_some in Hfind. destruct Hfind as [Hin Hq].
  assert (Hq' : DustShaderSpec.qualifies sin cos image (with_shape u 0) screen base t ij
                = true).
  { apply qualifies_parts in Hq. destruct Hq as (H1 & H2 & H3 & H4 & H5).
    unfold DustShaderSpec.qualifies.
    change (DustShaderSpec.in_image (with_shape u 0) base ij)
      with (DustShaderSpec.in_image u base ij).
    change (DustShaderSpec.expired sin (with_shape u 0) base t ij)
      with (DustShaderSpec.expired sin u base t ij).
    change (DustShaderSpec.fade_alpha sin (with_shape u 0) base t ij)
      with (DustShaderSpec.fade_alpha sin u base t ij).
    change (DustShaderSpec.rest_colour image (with_shape u 0) base ij)
      with (DustShaderSpec.rest_colour image u base ij).
    rewrite H1, H2.
    apply Qgtb_true in H4. apply Qgtb_true in H5. rewrite H4, H5.
    assert (Hc : DustShaderSpec.covers sin cos (with_shape u 0) screen base t ij = true).
    { unfold DustShaderSpec.covers in *. apply inside_square; assumption. }
    rewrite Hc. reflexivity. }
  destruct (find_some_first _ _ ij Hin Hq') as [b Hb].
  rewrite Hb. apply find_some in Hb. destruct Hb as [_ Hqb].
  apply qualifies_parts in Hqb. destruct Hqb as (_ & _ & _ & Hf & Hs).
  unfold DustShaderSpec.carried. cbn [ca]. nra.
Qed.

Lemma square_draws_where_circle_draws_witness :
  0 < ca (DustShader.main sin_q cos_q demo_image
            (with_shape (demo_uniforms 0 circle) 0) (Float2 40.5 50.5)).
Proof.
  apply square_draws_where_circle_draws; vm_compute; reflexivity.
Defined.

(** * Further properties of DUST_SNAP_SHADER *)

Lemma snap_maxLife_range (u : DustSnapShader.Uniforms) (c : float2) :
  60 <= DustSnapShader.maxLife u c /\ DustSnapShader.maxLife u c < 120.
Proof.
  unfold DustSnapShader.maxLife, DustSnapShader.rndSeed.
  destruct (snap_hash_range (v2adds c (DustSnapShader.seed u))). split; lra.
Qed.

(** X8.  Every particle of DUST_SNAP_SHADER lives less than 120 frames, so
    from [time * 60 = 120] on the shader is fully transparent at every
    pixel, well before its cutoff at 180. *)
Theorem snap_all_cells_expired :
  forall (sin : Q -> Q) (pow : Q -> Q -> Q) (image : float2 -> half4)
         (u : DustSnapShader.Uniforms) (fragCoord : float2),
    120 <= DustSnapShader.time u * 60 ->
    DustSnapShader.main sin pow image u fragCoord = transparent.
Proof.
  intros sin pow image u fragCoord Hlate.
  unfold DustSnapShader.main.
  destruct (Qgtb _ _); [reflexivity|].
  rewrite nested_loops_window, first_some_none; [reflexivity|].
  intros [i j] _. cbn [fst snd]. unfold DustSnapShader.candidate.
  destruct (DustSnapShader.outside_image _ _); [reflexivity|].
  set (c := DustSnapShader.cellOf u _ i j).
  assert (Hexp : Qgeb (DustSnapShader.lifeRatio u c (DustSnapShader.elapsed u)) 1 = true).
  { apply Qgeb_true. unfold DustSnapShader.lifeRatio, DustSnapShader.elapsed.
    destruct (snap_maxLife_range u c).
    apply Qle_shift_div_l; lra. }
  rewrite Hexp. reflexivity.
Qed.

Lemma snap_all_cells_expired_witness :
  DustSnapShader.main sin_q pow_q demo_image (demo_snap_uniforms 2.5) (Float2 40.5 50.5)
  = transparent.
Proof.
  apply snap_all_cells_expired. vm_compute. discriminate.
Defined.

(** X9.  DUST_SNAP_SHADER rejects at once every candidate whose image-local
    position is outside [[0, imageSize)]; with a width or a height of zero
    it is fully transparent at every pixel and time. *)
Theorem snap_outside_candidates_rejected :
  forall (sin : Q -> Q) (pow : Q -> Q -> Q) (image : float2 -> half4)
         (u : DustSnapShader.Uniforms),
    (forall (fragCoord base : float2) (t : Q) (i j : Z),
        DustSnapShader.outside_image u (DustSnapShader.imgLocalPos u base i j) = true ->
        DustSnapShader.candidate sin pow image u fragCoord base t i j = None)
    /\
    (forall fragCoord : float2,
        vx (DustSnapShader.imageSize u) == 0 \/ vy (DustSnapShader.imageSize u) == 0 ->
        DustSnapShader.main sin pow image u fragCoord = transparent).
Proof.
  intros sin pow image u.
  assert (Hrej : forall fragCoord base t i j,
             DustSnapShader.outside_image u (DustSnapShader.imgLocalPos u base i j) = true ->
             DustSnapShader.candidate sin pow image u fragCoord base t i j = None).
  { intros fragCoord base t i j H. unfold DustSnapShader.candidate.
    rewrite H. reflexivity. }
  split; [exact Hrej|].
  intros fragCoord Hdeg. unfold DustSnapShader.main.
  destruct (Qgtb _ _); [reflexivity|].
  rewrite nested_loops_window, first_some_none; [reflexivity|].
  intros [i j] _. cbn [fst snd]. apply Hrej.
  unfold DustSnapShader.outside_image.
  set (p := DustSnapShader.imgLocalPos u _ i j).
  destruct Hdeg as [Hw | Hh].
  - destruct (Qlt_le_dec (vx p) 0) as [Hn | Hp].
    + apply Qltb_true in Hn. rewrite Hn. reflexivity.
    + assert (Hge : Qgeb (vx p) (vx (DustSnapShader.imageSize u)) = true).
      { apply Qgeb_true. lra. }
      rewrite Hge. rewrite orb_true_r. reflexivity.
  - destruct (Qlt_le_dec (vy p) 0) as [Hn | Hp].
    + apply Qltb_true in Hn. rewrite Hn. rewrite orb_true_r. reflexivity.
    + assert (Hge : Qgeb (vy p) (vy (DustSnapShader.imageSize u)) = true).
      { apply Qgeb_true. lra. }
      rewrite Hge. rewrite orb_true_r. reflexivity.
Qed.

Lemma snap_outside_candidates_rejected_witness :
  DustSnapShader.main sin_q pow_q demo_image
    (snap_uniforms 0.5 100 0 10 20 400 800 4 42) (Float2 40.5 50.5)
  = transparent.
Proof.
  apply (proj2 (snap_outside_candidates_rejected sin_q pow_q demo_image
                  (snap_uniforms 0.5 100 0 10 20 400 800 4 42))).
  right. vm_compute. reflexivity.
Defined.

(** X10.  In DUST_SNAP_SHADER the wind only ever carries a particle to the
    left, further as time goes on, and the reverse-wind estimate
    [(12 t + 0.02 t^2, 1.5 t)] used to centre the search is off by at most
    [2 t] pixels horizontally and, for a sine with values in [[-1, 1]],
    by at most [1.75 t + 6] pixels vertically. *)
Theorem snap_wind_estimate :
  forall (sin : Q -> Q) (u : DustSnapShader.Uniforms) (c : float2) (t t' : Q),
    bounded_sin sin -> 0 <= t -> t <= t' ->
    (DustSnapShader.windX u c t' <= DustSnapShader.windX u c t
     /\ DustSnapShader.windX u c t <= 0)
    /\ (- (2 * t) <= DustSnapShader.windX u c t + (12 * t + t * t * 0.02)
        /\ DustSnapShader.windX u c t + (12 * t + t * t * 0.02) <= 2 * t)
    /\ (- (0.75 * t + 6) <= DustSnapShader.windY sin u c t + 1.5 * t
        /\ DustSnapShader.windY sin u c t + 1.5 * t <= 1.75 * t + 6).
Proof.
  intros sin u c t t' Hsin Ht Htt.
  unfold DustSnapShader.windX, DustSnapShader.windY, DustSnapShader.windSpeed,
    DustSnapShader.lift, DustSnapShader.wave.
  destruct (snap_hash_range (v2adds c (DustSnapShader.seed u))) as [Hr0 Hr1].
  fold (DustSnapShader.rndSeed u c) in Hr0, Hr1.
  set (r := DustSnapShader.rndSeed u c) in *.
  destruct (Hsin (t * 0.12 + r * 15)) as [Hs0 Hs1].
  set (s := sin (t * 0.12 + r * 15)) in *.
  assert (Hrt0 : 0 <= r * t) by nra.
  assert (Hrt1 : r * t <= t) by nra.
  assert (Hrt' : r * t <= r * t') by nra.
  assert (Hsq : t * t <= t' * t') by nra.
  assert (Hsq0 : 0 <= t * t) by nra.
  repeat split; nra.
Qed.

Lemma snap_wind_estimate_witness :
  - (2 * 8) <= DustSnapShader.windX (demo_snap_uniforms 0) (Float2 7 7) 8
               + (12 * 8 + 8 * 8 * 0.02)
  /\ DustSnapShader.windX (demo_snap_uniforms 0) (Float2 7 7) 8
     + (12 * 8 + 8 * 8 * 0.02) <= 2 * 8.
Proof.
  destruct (snap_wind_estimate sin_q (demo_snap_uniforms 0) (Float2 7 7) 8 9
              sin_q_bounded) as (_ & Hest & _).
  - vm_compute. discriminate.
  - vm_compute. discriminate.
  - exact Hest.
Defined.

(** ** DUST_SNAP_SHADER: when the search window is wide enough *)

Lemma floor_div_bounds (x ps : Q) :
  0 < ps ->
  inject_Z (Qfloor (x / ps)) * ps <= x /\ x < (inject_Z (Qfloor (x / ps)) + 1) * ps.
Proof.
  intro Hps.
  pose proof (Qfloor_le (x / ps)) as Hlo.
  pose proof (Qlt_floor (x / ps)) as Hhi.
  rewrite inject_Z_plus in Hhi. change (inject_Z 1) with 1 in Hhi.
  assert (E : x / ps * ps == x) by (field; lra).
  split.
  - rewrite <- E at 2. apply Qmult_le_compat_r; lra.
  - rewrite <- E at 1. apply Qmult_lt_compat_r; lra.
Qed.

Lemma snap_cellOf_shift (u : DustSnapShader.Uniforms) (base : float2) (i j : Z) :
  0 < DustSnapShader.particleSize u ->
  DustSnapShader.cellOf u base i j
  = Float2 (inject_Z (Qfloor (vx base / DustSnapShader.particleSize u) + i))
           (inject_Z (Qfloor (vy base / DustSnapShader.particleSize u) + j)).
Proof.
  intro Hps.
  unfold DustSnapShader.cellOf, DustSnapShader.imgLocalPos, v2floor, v2scale, v2add.
  cbn [vx vy]. f_equal.
  - rewrite (floorQ_proper _ (vx base / DustSnapShader.particleSize u + inject_Z i))
      by (field; lra).
    apply floorQ_shift.
  - rewrite (floorQ_proper _ (vy base / DustSnapShader.particleSize u + inject_Z j))
      by (field; lra).
    apply floorQ_shift.
Qed.

Lemma snap_inside_within (u : DustSnapShader.Uniforms) (d : float2) :
  DustSnapShader.inside u d = true ->
  (- DustSnapShader.halfSize u <= vx d /\ vx d <= DustSnapShader.halfSize u)
  /\ (- DustSnapShader.halfSize u <= vy d /\ vy d <= DustSnapShader.halfSize u).
Proof.
  unfold DustSnapShader.inside. intro H.
  apply andb_true_iff in H. destruct H as [Hx Hy].
  apply Qleb_true in Hx, Hy.
  pose proof (Qabs_bounds (vx d)). pose proof (Qabs_bounds (vy d)).
  repeat split; lra.
Qed.

Lemma Z_le_of_Q (a b : Z) (k : Z) : inject_Z a <= inject_Z b + inject_Z k -> (a <= b + k)%Z.
Proof.
  intro H. rewrite <- inject_Z_plus in H. rewrite Zle_Qle. exact H.
Qed.

Lemma Z_lt_of_Q (a b : Z) (k : Z) : inject_Z a + inject_Z k < inject_Z b -> (a + k < b)%Z.
Proof.
  intro H. rewrite <- inject_Z_plus in H. rewrite Zlt_Qlt. exact H.
Qed.

(** X11.  During the first frames the search window of DUST_SNAP_SHADER
    misses nothing.  For a sine with values in [[-1, 1]], as long as
    [2 t <= 7 particleSize] and [1.75 t + 6 < 5 particleSize], every grid
    cell whose particle covers the pixel at elapsed time [t] is the cell of
    one of the candidates of the window. *)
Theorem snap_window_complete :
  forall (sin : Q -> Q) (u : DustSnapShader.Uniforms) (fragCoord : float2) (a b : Z),
    let t := DustSnapShader.elapsed u in
    let base := DustSnapShader.baseImgPos u fragCoord in
    let c := Float2 (inject_Z a) (inject_Z b) in
    bounded_sin sin ->
    0 < DustSnapShader.particleSize u ->
    0 <= t ->
    2 * t <= 7 * DustSnapShader.particleSize u ->
    1.75 * t + 6 < 5 * DustSnapShader.particleSize u ->
    DustSnapShader.inside u (v2sub fragCoord (DustSnapShader.particlePos sin u c t)) = true ->
    exists i j : Z,
      In (i, j) DustSnapShaderSpec.candidates
      /\ DustSnapShader.cellOf u base i j = c.
Proof.
  intros sin u fragCoord a b t base c Hsin Hps Ht Hx Hy Hin.
  set (ps := DustSnapShader.particleSize u) in *.
  set (F := Qfloor (vx base / ps)).
  set (G := Qfloor (vy base / ps)).
  exists (a - F)%Z, (b - G)%Z.
  split.
  - apply snap_inside_within in Hin. destruct Hin as [[Hx0 Hx1] [Hy0 Hy1]].
    destruct (snap_wind_estimate sin u c t t Hsin Ht (Qle_refl t))
      as (_ & [Hex0 Hex1] & [Hey0 Hey1]).
    destruct (floor_div_bounds (vx base) ps Hps) as [HF0 HF1].
    destruct (floor_div_bounds (vy base) ps Hps) as [HG0 HG1].
    fold F in HF0, HF1. fold G in HG0, HG1.
    assert (Ebx : vx base == vx fragCoord + (12 * t + t * t * 0.02)
                             - vx (DustSnapShader.imageOffset u)).
    { unfold base, DustSnapShader.baseImgPos, v2sub, v2add. cbn [vx vy]. fold t. ring. }
    assert (Eby : vy base == vy fragCoord + 1.5 * t - vy (DustSnapShader.imageOffset u)).
    { unfold base, DustSnapShader.baseImgPos, v2sub, v2add. cbn [vx vy]. fold t. ring. }
    unfold DustSnapShader.particlePos, DustSnapShader.cellCenter, c,
      v2sub, v2add, v2adds, v2scale in Hx0, Hx1, Hy0, Hy1.
    cbn [vx vy] in Hx0, Hx1, Hy0, Hy1.
    unfold DustSnapShader.halfSize in Hx0, Hx1, Hy0, Hy1.
    fold ps in Hx0, Hx1, Hy0, Hy1. fold c in Hx0, Hx1, Hy0, Hy1.
    set (wx := DustSnapShader.windX u c t) in *.
    set (wy := DustSnapShader.windY sin u c t) in *.
    set (qa := inject_Z a) in *. set (qb := inject_Z b) in *.
    set (qF := inject_Z F) in *. set (qG := inject_Z G) in *.
    assert (HFa : qF <= qa + inject_Z 8).
    { change (inject_Z 8) with 8. apply (Qmult_le_r _ _ ps Hps).
      assert (E : (qa + 8) * ps == qa * ps + 8 * ps) by ring.
      rewrite E. lra. }
    assert (HaF : qa + inject_Z (-8) < qF).
    { change (inject_Z (-8)) with (-8). apply (Qmult_lt_r _ _ ps Hps).
      assert (E : (qa + -8) * ps == qa * ps + ps - 9 * ps) by ring.
      assert (E' : (qF + 1) * ps == qF * ps + ps) by ring.
      rewrite E' in HF1. rewrite E. lra. }
    assert (HGb : qG + inject_Z (-6) < qb).
    { change (inject_Z (-6)) with (-6). apply (Qmult_lt_r _ _ ps Hps).
      assert (E : (qG + -6) * ps == qG * ps - 6 * ps) by ring.
      rewrite E. lra. }
    assert (HbG : qb + inject_Z (-6) < qG).
    { change (inject_Z (-6)) with (-6). apply (Qmult_lt_r _ _ ps Hps).
      assert (E : (qb + -6) * ps == qb * ps + ps - 7 * ps) by ring.
      assert (E' : (qG + 1) * ps == qG * ps + ps) by ring.
      rewrite E' in HG1. rewrite E. lra. }
    apply Z_le_of_Q in HFa. apply Z_lt_of_Q in HaF.
    apply Z_lt_of_Q in HGb. apply Z_lt_of_Q in HbG.
    apply In_window. cbn [fst snd].
    unfold DustSnapShader.MAX_SEARCH_X, DustSnapShader.MAX_SEARCH_Y. lia.
  - rewrite (snap_cellOf_shift u base _ _ Hps). fold ps. fold F. fold G.
    unfold c. f_equal; f_equal; lia.
Qed.

Lemma snap_window_complete_witness :
  exists i j : Z,
    In (i, j) DustSnapShaderSpec.candidates
    /\ DustSnapShader.cellOf edge_uniforms
         (DustSnapShader.baseImgPos edge_uniforms edge_pixel) i j
       = Float2 (inject_Z 1) (inject_Z 0).
Proof.
  apply (snap_window_complete sin_q edge_uniforms edge_pixel 1 0 sin_q_bounded);
    vm_compute; first [reflexivity | discriminate].
Defined.

(** * Further properties of the driver of DustSnapGL *)

Module DriverMore.
Import Driver.

Lemma elapse_idle (dt : nat) (st : State) :
  timers st = [] ->
  timers (elapse dt st) = [] /\ completions (elapse dt st) = completions st.
Proof.
  intro Hnil. unfold elapse. cbn [timers completions]. rewrite Hnil. simpl.
  split; [reflexivity | apply app_nil_r].
Qed.

(** X12.  When the effect runs without its prerequisites (not snapped, image
    or shader missing, or a width that is not positive) no timer is left
    pending and, however long the clock runs, the completion callback is
    never called; while snapped the animated time and [isAnimating] stay as
    they were, and un-snapping resets them. *)
Theorem no_run_without_prerequisites :
  forall (st : State) (p : Props) (dts : list nat),
    reachable st -> should_start p = false ->
    let st1 := step st (Render p) in
    timers st1 = []
    /\ completions (run (map Elapse dts) st1) = completions st
    /\ (isSnapped p = true ->
        animationTime st1 = animationTime st /\ isAnimating st1 = isAnimating st)
    /\ (isSnapped p = false ->
        animationTime st1 = Still 0 /\ isAnimating st1 = false).
Proof.
  intros st p dts Hreach Hno st1.
  destruct (DriverFacts.reachable_invariant st Hreach) as [Hown _].
  pose proof (DriverFacts.cleanup_clears st Hown) as Hnil.
  destruct (DriverFacts.cleanup_keeps st) as (_ & Hlog & Hanim).
  assert (Hanimating : isAnimating (cleanup st) = isAnimating st).
  { unfold cleanup. destruct (timeoutRef st); reflexivity. }
  assert (Ht : timers st1 = []).
  { unfold st1. cbn [step]. unfold effect. rewrite Hno.
    destruct (negb (isSnapped p)); cbn [timers]; exact Hnil. }
  assert (Hc : completions st1 = completions st).
  { unfold st1. cbn [step]. unfold effect. rewrite Hno.
    destruct (negb (isSnapped p)); cbn [completions]; exact Hlog. }
  split; [exact Ht|].
  split; [rewrite (DriverFacts.run_idle dts st1 Ht); exact Hc|].
  split; intro Hs; unfold st1; cbn [step]; unfold effect; rewrite Hno, Hs; cbn [negb].
  - split; assumption.
  - split; reflexivity.
Qed.

Lemma no_run_without_prerequisites_witness :
  completions (run (Render unmeasured_props :: map Elapse [2000; 4000]%nat) (initial 0))
  = []
  /\ animationTime (step (initial 0) (Render unmeasured_props)) = Still 0.
Proof.
  assert (Hreach : reachable (initial 0)) by (exists 0%Z, []; reflexivity).
  destruct (no_run_without_prerequisites (initial 0) unmeasured_props [2000; 4000]%nat
              Hreach eq_refl) as (_ & Hc & Hs & _).
  split; [exact Hc | apply (Hs eq_refl)].
Defined.

(** The state of a run: idle, or one timer pending for a ramp that started
    1100 ms before the timer is due. *)
Lemma step_run_invariant (st : State) (e : Event) :
  (owned st
   /\ (timers st = []
       \/ exists tm, timers st = [tm]
            /\ isAnimating st = true
            /\ animationTime st
               = Timing 0 (inject_Z ANIMATION_CONFIG.DURATION_MS / 1000)
                   (due tm - 1100) ANIMATION_CONFIG.DURATION_MS
            /\ (now st < due tm)%Z)
   /\ (isAnimating st = true <->
       exists a b s d, animationTime st = Timing a b s d)
   /\ (forall tau, In tau (completions st) -> (tau <= now st)%Z)) ->
  (owned (step st e)
   /\ (timers (step st e) = []
       \/ exists tm, timers (step st e) = [tm]
            /\ isAnimating (step st e) = true
            /\ animationTime (step st e)
               = Timing 0 (inject_Z ANIMATION_CONFIG.DURATION_MS / 1000)
                   (due tm - 1100) ANIMATION_CONFIG.DURATION_MS
            /\ (now (step st e) < due tm)%Z)
   /\ (isAnimating (step st e) = true <->
       exists a b s d, animationTime (step st e) = Timing a b s d)
   /\ (forall tau, In tau (completions (step st e)) -> (tau <= now (step st e))%Z)).
Proof.
  intros (Hown & Hpend & Hiff & Hlog).
  pose proof (DriverFacts.cleanup_clears st Hown) as Hnil.
  destruct (DriverFacts.cleanup_keeps st) as (Hcnow & Hclog & Hcanim).
  assert (Hcani : isAnimating (cleanup st) = isAnimating st).
  { unfold cleanup. destruct (timeoutRef st); reflexivity. }
  assert (Hclean : owned (cleanup st)
                   /\ (isAnimating (cleanup st) = true <->
                       exists a b s d, animationTime (cleanup st) = Timing a b s d)
                   /\ (forall tau, In tau (completions (cleanup st)) ->
                                   (tau <= now (cleanup st))%Z)).
  { split; [|split].
    - intros tm Hin. rewrite Hnil in Hin. destruct Hin.
    - rewrite Hcani, Hcanim. exact Hiff.
    - rewrite Hclog, Hcnow. exact Hlog. }
  destruct Hclean as (Hcown & Hciff & Hcl).
  destruct e as [p | | dt]; cbn [step].
  - unfold effect. destruct (should_start p).
    + cbn [timers isAnimating animationTime now completions]. rewrite Hnil. simpl.
      split; [|split; [|split]].
      * intros tm [E | []]. subst tm. reflexivity.
      * right. eexists. split; [reflexivity|]. cbn [due].
        split; [reflexivity|]. split.
        -- f_equal. unfold ANIMATION_CONFIG.DURATION_MS. lia.
        -- unfold ANIMATION_CONFIG.DURATION_MS. lia.
      * split; [intros _; do 4 eexists; reflexivity | reflexivity].
      * exact Hcl.
    + destruct (negb (isSnapped p)).
      * cbn [timers isAnimating animationTime now completions].
        split; [|split; [|split]].
        -- intros tm Hin. cbn [timers] in Hin. rewrite Hnil in Hin. destruct Hin.
        -- left. exact Hnil.
        -- split; [discriminate | intros (a & b & s & d & E); discriminate].
        -- exact Hcl.
      * split; [exact Hcown|]. split; [left; exact Hnil|].
        split; [exact Hciff | exact Hcl].
  - split; [exact Hcown|]. split; [left; exact Hnil|].
    split; [exact Hciff | exact Hcl].
  - unfold elapse. cbn [timers isAnimating animationTime now completions].
    split; [|split; [|split]].
    + intros tm Hin. cbn [timers timeoutRef] in *.
      apply filter_In in Hin. apply Hown. apply Hin.
    + destruct Hpend as [Hnone | (tm & Htm & Hani & Hanim & Hlt)].
      * left. rewrite Hnone. reflexivity.
      * rewrite Htm. simpl.
        destruct (due tm <=? now st + Z.of_nat dt)%Z eqn:E; simpl.
        -- left. reflexivity.
        -- right. exists tm. apply Z.leb_gt in E. repeat split; assumption.
    + exact Hiff.
    + intros tau Hin. apply in_app_or in Hin. destruct Hin as [Hin | Hin].
      * specialize (Hlog tau Hin). lia.
      * apply in_map_iff in Hin. destruct Hin as (tm & E & _). lia.
Qed.

(** X13.  In every state the driver can reach, at most one timer is pending;
    while one is pending the component is animating a ramp that started
    exactly 1100 ms before the timer is due and the clock has not reached
    the due time; [isAnimating] holds exactly when a ramp is installed; and
    no completion is logged ahead of the clock. *)
Theorem run_state_invariant :
  forall st : State,
    reachable st ->
    (timers st = []
     \/ exists tm, timers st = [tm]
          /\ isAnimating st = true
          /\ animationTime st
             = Timing 0 (inject_Z ANIMATION_CONFIG.DURATION_MS / 1000)
                 (due tm - 1100) ANIMATION_CONFIG.DURATION_MS
          /\ (now st < due tm)%Z)
    /\ (isAnimating st = true <->
        exists a b s d, animationTime st = Timing a b s d)
    /\ (forall tau, In tau (completions st) -> (tau <= now st)%Z).
Proof.
  intros st (t0 & evs & E). subst st.
  assert (H : forall evs st,
             (owned st
              /\ (timers st = []
                  \/ exists tm, timers st = [tm]
                       /\ isAnimating st = true
                       /\ animationTime st
                          = Timing 0 (inject_Z ANIMATION_CONFIG.DURATION_MS / 1000)
                              (due tm - 1100) ANIMATION_CONFIG.DURATION_MS
                       /\ (now st < due tm)%Z)
              /\ (isAnimating st = true <->
                  exists a b s d, animationTime st = Timing a b s d)
              /\ (forall tau, In tau (completions st) -> (tau <= now st)%Z)) ->
             (timers (run evs st) = []
              \/ exists tm, timers (run evs st) = [tm]
                   /\ isAnimating (run evs st) = true
                   /\ animationTime (run evs st)
                      = Timing 0 (inject_Z ANIMATION_CONFIG.DURATION_MS / 1000)
                          (due tm - 1100) ANIMATION_CONFIG.DURATION_MS
                   /\ (now (run evs st) < due tm)%Z)
             /\ (isAnimating (run evs st) = true <->
                 exists a b s d, animationTime (run evs st) = Timing a b s d)
             /\ (forall tau, In tau (completions (run evs st)) ->
                             (tau <= now (run evs st))%Z)).
  { induction evs0 as [|e evs0 IH]; intros st Hst.
    - destruct Hst as (_ & H1 & H2 & H3). repeat split; try assumption; apply H2.
    - cbn [run fold_left]. apply IH. apply step_run_invariant. exact Hst. }
  apply H. split; [intros tm []|]. split; [left; reflexivity|].
  split; [|intros tau []].
  split; [discriminate | intros (a & b & s & d & E); discriminate].
Qed.

Lemma run_state_invariant_witness :
  exists tm,
    timers (run [Render demo_props; Elapse 400] (initial 0)) = [tm]
    /\ (now (run [Render demo_props; Elapse 400] (initial 0)) < due tm)%Z.
Proof.
  assert (Hreach : reachable (run [Render demo_props; Elapse 400] (initial 0))).
  { exists 0%Z, [Render demo_props; Elapse 400]. reflexivity. }
  destruct (run_state_invariant _ Hreach) as ([Hnone | (tm & Htm & _ & _ & Hlt)] & _).
  - vm_compute in Hnone. discriminate.
  - exists tm. split; assumption.
Defined.

End DriverMore.

(** * The driver of BlowAwayImage *)

Module BlowAwayFacts.
Import BlowAway.

Lemma blow_cleanup_clears (st : State) : owned st -> timers (cleanup st) = [].
Proof.
  intro Hown. unfold cleanup.
  destruct (cleanupFn st) as [id|] eqn:Href.
  - cbn [timers].
    assert (H : forall l, (forall tm, In tm l -> Some id = Some (Driver.tid tm)) ->
                          filter (fun tm => negb (Driver.tid tm =? id)%nat) l = []).
    { induction l as [|tm l IH]; intro Hl; simpl; [reflexivity|].
      assert (E : Driver.tid tm = id).
      { specialize (Hl tm (or_introl eq_refl)). congruence. }
      rewrite E, Nat.eqb_refl. simpl. apply IH.
      intros tm' Hin. apply Hl. right. exact Hin. }
    apply H. intros tm Hin. rewrite <- Href. apply Hown. exact Hin.
  - destruct (timers st) as [|tm l] eqn:Ht; [reflexivity|].
    specialize (Hown tm). rewrite Ht in Hown.
    specialize (Hown (or_introl eq_refl)). congruence.
Qed.

Lemma blow_cleanup_keeps (st : State) :
  now (cleanup st) = now st
  /\ completions (cleanup st) = completions st
  /\ animationTime (cleanup st) = animationTime st
  /\ isAnimating (cleanup st) = isAnimating st
  /\ measuring (cleanup st) = measuring st.
Proof.
  unfold cleanup. destruct (cleanupFn st); repeat split; reflexivity.
Qed.

Lemma blow_ramp_range (start d k : Z) :
  0 <= Driver.value_at (Driver.Timing 0 3.0 start d) k
  /\ Driver.value_at (Driver.Timing 0 3.0 start d) k <= 3.
Proof.
  unfold Driver.value_at.
  destruct (k <=? start)%Z eqn:E1; [split; lra|].
  destruct (start + d <=? k)%Z eqn:E2; [split; lra|].
  apply Z.leb_gt in E1. apply Z.leb_gt in E2.
  assert (H0 : 0 < inject_Z (k - start)).
  { change 0 with (inject_Z 0). rewrite <- Zlt_Qlt. lia. }
  assert (H1 : inject_Z (k - start) < inject_Z d).
  { rewrite <- Zlt_Qlt. lia. }
  set (f := inject_Z (k - start) / inject_Z d).
  assert (Hf0 : 0 <= f) by (apply Qle_shift_div_l; lra).
  assert (Hf1 : f <= 1) by (apply Qle_shift_div_r; lra).
  assert (E : 0 + (3.0 - 0) * f == 3 * f) by ring.
  rewrite E. split; lra.
Qed.

Lemma blow_step_invariant (st : State) (e : Event) :
  owned st /\ in_ramp st -> owned (step st e) /\ in_ramp (step st e).
Proof.
  intros [Hown Hramp].
  pose proof (blow_cleanup_clears st Hown) as Hnil.
  destruct (blow_cleanup_keeps st) as (_ & _ & Hanim & _ & _).
  assert (Hcramp : in_ramp (cleanup st)).
  { unfold in_ramp. rewrite Hanim. exact Hramp. }
  destruct e as [p r | | x y | x y | dt]; cbn [step].
  - unfold effect. destruct (should_start p).
    + split.
      * intros tm Hin. cbn [timers cleanupFn] in *. rewrite Hnil in Hin.
        simpl in Hin. destruct Hin as [E | []]. subst tm. reflexivity.
      * exact Hcramp.
    + split.
      * intros tm Hin. cbn [timers] in Hin. rewrite Hnil in Hin. destruct Hin.
      * exact Hcramp.
  - split; [|exact Hcramp].
    intros tm Hin. rewrite Hnil in Hin. destruct Hin.
  - unfold measured. destruct (measuring st) as [|d rest]; [split; assumption|].
    split; [exact Hown|]. intro k. cbn [animationTime]. apply blow_ramp_range.
  - split; [exact Hown | exact Hramp].
  - split; [|exact Hramp].
    intros tm Hin. unfold elapse in *. cbn [timers cleanupFn] in *.
    apply filter_In in Hin. apply Hown. apply Hin.
Qed.

Lemma blow_reachable_invariant (st : State) : reachable st -> owned st /\ in_ramp st.
Proof.
  intros (t0 & evs & E). subst st.
  assert (H : forall evs st, owned st /\ in_ramp st ->
                             owned (run evs st) /\ in_ramp (run evs st)).
  { induction evs0 as [|e evs0 IH]; intros st H; [exact H|].
    cbn [run fold_left]. apply IH. apply blow_step_invariant. exact H. }
  apply H. split.
  - intros tm [].
  - intro k. cbn. split; lra.
Qed.

Lemma blow_start_state (st : State) (p : Props) (hasRef : bool) :
  owned st -> should_start p = true ->
  let st1 := step st (Render p hasRef) in
  now st1 = now st
  /\ completions st1 = completions st
  /\ timers st1 = [{| Driver.tid := next_timer (cleanup st);
                      Driver.due := (now st + Z.max 0 (duration p + 100))%Z;
                      Driver.notify := onComplete p |}]
  /\ measuring st1 = measuring st ++ (if hasRef then [duration p] else [])
  /\ animationTime st1 = animationTime st
  /\ isAnimating st1 = isAnimating st.
Proof.
  intros Hown Hstart st1. unfold st1. cbn [step]. unfold effect. rewrite Hstart.
  destruct (blow_cleanup_keeps st) as (Hnow & Hlog & Hanim & Hani & Hmeas).
  cbn [now completions timers measuring animationTime isAnimating].
  rewrite (blow_cleanup_clears st Hown), Hnow, Hlog, Hanim, Hani, Hmeas.
  repeat split; reflexivity.
Qed.

Lemma quiet_phase (tm : Driver.Timer) (log : list Z) (e : Event) (st : State) :
  Driver.notify tm = true -> quiet e = true ->
  phase tm log st -> phase tm log (step st e).
Proof.
  intros Hnotify Hq Hph.
  destruct e as [p r | | x y | x y | dt]; try discriminate; cbn [step].
  - unfold measured. destruct (measuring st); exact Hph.
  - exact Hph.
  - destruct Hph as [(Htm & Hnow & Hlog) | (Htm & tau & Hlog & Htau)];
      unfold phase, elapse; cbn [timers now completions]; rewrite Htm; simpl.
    + destruct (Driver.due tm <=? now st + Z.of_nat dt)%Z eqn:E; simpl.
      * right. split; [reflexivity|].
        exists (now st + Z.of_nat dt)%Z. rewrite Hnotify, Hlog. simpl.
        apply Z.leb_le in E. split; [reflexivity | lia].
      * left. apply Z.leb_gt in E. rewrite Hlog, app_nil_r.
        repeat split; [exact E].
    + right. split; [reflexivity|].
      exists tau. rewrite app_nil_r. split; [exact Hlog | lia].
Qed.

Lemma run_quiet_phase (tm : Driver.Timer) (log : list Z) (evs : list Event) (st : State) :
  Driver.notify tm = true -> forallb quiet evs = true ->
  phase tm log st ->
  phase tm log (run evs st) /\ cleanupFn (run evs st) = cleanupFn st.
Proof.
  intro Hnotify. revert st.
  induction evs as [|e evs IH]; intros st Hq Hph; [split; [exact Hph | reflexivity]|].
  cbn [forallb] in Hq. apply andb_true_iff in Hq. destruct Hq as [Hqe Hq].
  cbn [run fold_left].
  change (fold_left step evs (step st e)) with (run evs (step st e)).
  destruct (IH (step st e) Hq (quiet_phase tm log e st Hnotify Hqe Hph)) as [H1 H2].
  split; [exact H1|]. rewrite H2.
  destruct e as [p r | | x y | x y | dt]; try discriminate; cbn [step];
    try reflexivity.
  unfold measured. destruct (measuring st); reflexivity.
Qed.

Lemma run_quiet_idle (evs : list Event) (st : State) :
  forallb quiet evs = true -> timers st = [] ->
  completions (run evs st) = completions st.
Proof.
  revert st. induction evs as [|e evs IH]; intros st Hq Hnil; [reflexivity|].
  cbn [forallb] in Hq. apply andb_true_iff in Hq. destruct Hq as [Hqe Hq].
  cbn [run fold_left].
  change (fold_left step evs (step st e)) with (run evs (step st e)).
  destruct e as [p r | | x y | x y | dt]; try discriminate; cbn [step].
  - rewrite IH; [|exact Hq|].
    + unfold measured. destruct (measuring st); reflexivity.
    + unfold measured. destruct (measuring st); [exact Hnil | cbn [timers]; exact Hnil].
  - rewrite IH; [reflexivity | exact Hq | exact Hnil].
  - rewrite IH; [|exact Hq|].
    + unfold elapse. cbn [completions]. rewrite Hnil. simpl. apply app_nil_r.
    + unfold elapse. cbn [timers]. rewrite Hnil. reflexivity.
Qed.

(** X14.  When the effect of BlowAwayImage starts at clock reading [T] with a
    duration above -100 and a callback: whatever measurements and clock
    advances follow, the callback has not run while the clock is below
    [T + duration + 100] and has run exactly once, at or after that reading,
    as soon as the clock is there; when the component is unmounted or
    rendered with the trigger off before that reading, it never runs. *)
Theorem blow_completion_once :
  forall (st : State) (p : Props) (hasRef : bool),
    reachable st -> should_start p = true -> onComplete p = true ->
    (-100 < duration p)%Z ->
    let st1 := step st (Render p hasRef) in
    let deadline := (now st + duration p + 100)%Z in
    (forall evs : list Event,
        forallb quiet evs = true ->
        let st2 := run evs st1 in
        ((now st2 < deadline)%Z -> completions st2 = completions st)
        /\ ((deadline <= now st2)%Z ->
            exists tau, completions st2 = completions st ++ [tau]
                        /\ (deadline <= tau <= now st2)%Z))
    /\
    (forall (evs1 : list Event) (cancel : Event) (evs2 : list Event),
        forallb quiet evs1 = true -> forallb quiet evs2 = true ->
        (now (run evs1 st1) < deadline)%Z ->
        cancel = Unmount
        \/ (exists p' r, cancel = Render p' r /\ should_start p' = false) ->
        completions (run evs2 (step (run evs1 st1) cancel)) = completions st).
Proof.
  intros st p hasRef Hreach Hstart Hcb Hdur st1 deadline.
  destruct (blow_reachable_invariant st Hreach) as [Hown _].
  destruct (blow_start_state st p hasRef Hown Hstart)
    as (Hnow & Hlog & Htimers & _ & _ & _).
  fold st1 in Hnow, Hlog, Htimers.
  rewrite Hcb in Htimers.
  set (tm := {| Driver.tid := next_timer (cleanup st);
                Driver.due := (now st + Z.max 0 (duration p + 100))%Z;
                Driver.notify := true |}) in *.
  assert (Hdue : Driver.due tm = deadline).
  { unfold tm, deadline. cbn [Driver.due]. lia. }
  assert (Hph : phase tm (completions st) st1).
  { left. rewrite Htimers, Hnow, Hlog. repeat split. rewrite Hdue.
    unfold deadline. lia. }
  assert (Href : cleanupFn st1 = Some (Driver.tid tm)).
  { unfold st1. cbn [step]. unfold effect. rewrite Hstart. reflexivity. }
  split.
  - intros evs Hq st2.
    destruct (run_quiet_phase tm (completions st) evs st1 eq_refl Hq Hph) as [Hph2 _].
    fold st2 in Hph2. unfold phase in Hph2. rewrite Hdue in Hph2.
    destruct Hph2 as [(_ & Hlt & Hc) | (_ & tau & Hc & Htau)].
    + split; [intros _; exact Hc | intro Hge; lia].
    + split; [intro Hlt; lia | intros _; exists tau; split; assumption].
  - intros evs1 cancel evs2 Hq1 Hq2 Hearly Hcancel.
    destruct (run_quiet_phase tm (completions st) evs1 st1 eq_refl Hq1 Hph)
      as [Hpha Hrefa].
    set (sta := run evs1 st1) in *.
    unfold phase in Hpha. rewrite Hdue in Hpha.
    destruct Hpha as [(Htm & _ & Hc) | (_ & tau & _ & Htau)]; [|lia].
    assert (Hown_a : owned sta).
    { intros tm' Hin. rewrite Htm in Hin. destruct Hin as [E | []].
      subst tm'. rewrite Hrefa, Href. reflexivity. }
    pose proof (blow_cleanup_clears sta Hown_a) as Hnil.
    destruct (blow_cleanup_keeps sta) as (_ & Hclog & _).
    destruct Hcancel as [E | (p' & r & E & Hno)]; subst cancel; cbn [step].
    + rewrite (run_quiet_idle evs2 _ Hq2 Hnil), Hclog. exact Hc.
    + unfold effect. rewrite Hno.
      rewrite run_quiet_idle; cbn [timers completions]; try assumption.
      rewrite Hclog. exact Hc.
Qed.

Lemma blow_completion_once_witness :
  completions (run [Render blow_props true; Elapse 50; Measured 10 20; Elapse 2000]
                 (initial 0)) = []
  /\ completions (run [Render blow_props true; Elapse 50; Measured 10 20; Elapse 2000;
                       Render blow_idle_props false; Elapse 4000] (initial 0)) = [].
Proof.
  assert (Hreach : reachable (initial 0)) by (exists 0%Z, []; reflexivity).
  destruct (blow_completion_once (initial 0) blow_props true Hreach eq_refl eq_refl)
    as (Hfire & Hcancel).
  - vm_compute. reflexivity.
  - split.
    + apply (proj1 (Hfire [Elapse 50; Measured 10 20; Elapse 2000] eq_refl)).
      vm_compute. reflexivity.
    + apply (Hcancel [Elapse 50; Measured 10 20; Elapse 2000]
               (Render blow_idle_props false) [Elapse 4000] eq_refl eq_refl).
      * vm_compute. reflexivity.
      * right. exists blow_idle_props, false. split; reflexivity.
Defined.

Lemma step_keeps_animating (st : State) (e : Event) :
  isAnimating st = true -> isAnimating (step st e) = true.
Proof.
  intro H. destruct (blow_cleanup_keeps st) as (_ & _ & _ & Hani & _).
  destruct e as [p r | | x y | x y | dt]; cbn [step].
  - unfold effect. destruct (should_start p); cbn [isAnimating]; congruence.
  - congruence.
  - unfold measured. destruct (measuring st); [exact H | reflexivity].
  - exact H.
  - exact H.
Qed.

Lemma run_keeps_animating (evs : list Event) (st : State) :
  isAnimating st = true -> isAnimating (run evs st) = true.
Proof.
  revert st. induction evs as [|e evs IH]; intros st H; [exact H|].
  cbn [run fold_left]. apply IH. apply step_keeps_animating. exact H.
Qed.

(** X15.  BlowAwayImage never stops animating.  Once [isAnimating] is set no
    event resets it, so with image and shader present the full-screen
    canvas stays; switching the trigger off leaves the animated time and
    the pending measurement callbacks as they are; and a measurement that
    is answered after such a cancellation still starts the animation, for
    which no completion callback will ever run. *)
Theorem blow_animation_never_stops :
  forall (st : State) (p p' : Props) (hasRef : bool) (x y : Q) (evs : list Event),
    reachable st -> measuring st = [] ->
    should_start p = true -> should_start p' = false ->
    (isAnimating st = true -> isAnimating (run evs st) = true)
    /\ (isAnimating st = true -> image p = true -> shaderEffect p = true ->
        view p (run evs st) = FullScreenCanvas)
    /\ (animationTime (step st (Render p' hasRef)) = animationTime st
        /\ isAnimating (step st (Render p' hasRef)) = isAnimating st
        /\ measuring (step st (Render p' hasRef)) = measuring st)
    /\ (forallb quiet evs = true ->
        let st3 := run (Render p true :: Render p' hasRef :: Measured x y :: evs) st in
        isAnimating st3 = true /\ completions st3 = completions st).
Proof.
  intros st p p' hasRef x y evs Hreach Hmeas Hstart Hno.
  destruct (blow_reachable_invariant st Hreach) as [Hown _].
  split; [apply run_keeps_animating|].
  split.
  { intros Hani Himg Hsh. unfold view. rewrite Himg, Hsh. cbn [negb orb].
    rewrite (run_keeps_animating evs st Hani). reflexivity. }
  split.
  { destruct (blow_cleanup_keeps st) as (_ & _ & Hanim & Hani & Hm).
    cbn [step]. unfold effect. rewrite Hno.
    cbn [animationTime isAnimating measuring]. repeat split; assumption. }
  intros Hq st3.
  destruct (blow_start_state st p true Hown Hstart) as (_ & Hlog & _ & Hm1 & _ & _).
  set (st1 := step st (Render p true)) in *.
  assert (Hown1 : owned st1).
  { apply (blow_step_invariant st (Render p true)). split; [exact Hown|].
    apply (blow_reachable_invariant st Hreach). }
  pose proof (blow_cleanup_clears st1 Hown1) as Hnil.
  destruct (blow_cleanup_keeps st1) as (_ & Hclog & _ & _ & Hcm).
  set (st2 := step st1 (Render p' hasRef)).
  assert (Ht2 : timers st2 = []).
  { unfold st2. cbn [step]. unfold effect. rewrite Hno. exact Hnil. }
  assert (Hc2 : completions st2 = completions st).
  { unfold st2. cbn [step]. unfold effect. rewrite Hno. cbn [completions].
    rewrite Hclog. exact Hlog. }
  assert (Hm2 : measuring st2 = [duration p]).
  { unfold st2. cbn [step]. unfold effect. rewrite Hno. cbn [measuring].
    rewrite Hcm, Hm1, Hmeas. reflexivity. }
  set (st2' := step st2 (Measured x y)).
  assert (Ha : isAnimating st2' = true).
  { unfold st2'. cbn [step]. unfold measured. rewrite Hm2. reflexivity. }
  assert (Ht : timers st2' = []).
  { unfold st2'. cbn [step]. unfold measured. rewrite Hm2. exact Ht2. }
  assert (Hc : completions st2' = completions st).
  { unfold st2'. cbn [step]. unfold measured. rewrite Hm2. exact Hc2. }
  change st3 with (run evs st2').
  split.
  - apply run_keeps_animating. exact Ha.
  - rewrite (run_quiet_idle evs st2' Hq Ht). exact Hc.
Qed.

Lemma blow_animation_never_stops_witness :
  isAnimating (run [Render blow_props true; Render blow_idle_props false;
                    Measured 10 20; Elapse 4000] (initial 0)) = true
  /\ completions (run [Render blow_props true; Render blow_idle_props false;
                       Measured 10 20; Elapse 4000] (initial 0)) = [].
Proof.
  assert (Hreach : reachable (initial 0)) by (exists 0%Z, []; reflexivity).
  destruct (blow_animation_never_stops (initial 0) blow_props blow_idle_props false
              10 20 [Elapse 4000] Hreach eq_refl eq_refl eq_refl)
    as (_ & _ & _ & Hlate).
  apply (Hlate eq_refl).
Defined.

(** X16.  In every state the driver of BlowAwayImage can reach the animated
    time lies in [[0, 3]]; so, for the uniforms the shader is given in that
    state, the elapsed shader time never exceeds 180 and the cutoff
    [t > 180] of DUST_SNAP_SHADER is never taken; and from an animated time
    of 2 on, the last third of the ramp, the canvas is fully transparent. *)
Theorem blow_run_range :
  forall (st : State) (p : Props) (screenWidth screenHeight seed : Q),
    reachable st ->
    (0 <= Driver.value_at (animationTime st) (now st)
     /\ Driver.value_at (animationTime st) (now st) <= 3)
    /\ (forall u : DustSnapShader.Uniforms,
          uniforms st p screenWidth screenHeight seed = Some u ->
          DustSnapShader.time u = Driver.value_at (animationTime st) (now st)
          /\ Qgtb (DustSnapShader.elapsed u) 180 = false
          /\ (forall (sin : Q -> Q) (pow : Q -> Q -> Q) (image : float2 -> half4)
                     (fragCoord : float2),
                2 <= DustSnapShader.time u ->
                DustSnapShader.main sin pow image u fragCoord = transparent)).
Proof.
  intros st p screenWidth screenHeight seed Hreach.
  destruct (blow_reachable_invariant st Hreach) as [_ Hramp].
  destruct (Hramp (now st)) as [Hlo Hhi].
  split; [split; assumption|].
  intros u Hu.
  assert (Htime : DustSnapShader.time u = Driver.value_at (animationTime st) (now st)).
  { unfold uniforms, BlowAwayImage_uniforms in Hu.
    destruct (BlowAwayImage_particleSize (particleSize p)); try discriminate.
    injection Hu as Hu. subst u. reflexivity. }
  split; [exact Htime|].
  split.
  { apply Qgtb_false. unfold DustSnapShader.elapsed. rewrite Htime. lra. }
  intros sin pow image fragCoord Hlate.
  apply snap_all_cells_expired. lra.
Qed.

Lemma blow_run_range_witness :
  exists u : DustSnapShader.Uniforms,
    uniforms (run [Render blow_props true; Measured 10 20; Elapse 1500] (initial 0))
      blow_props 400 800 42 = Some u
    /\ Qgtb (DustSnapShader.elapsed u) 180 = false
    /\ DustSnapShader.main sin_q pow_q demo_image u (Float2 40.5 50.5) = transparent.
Proof.
  assert (Hreach : reachable
            (run [Render blow_props true; Measured 10 20; Elapse 1500] (initial 0))).
  { exists 0%Z, [Render blow_props true; Measured 10 20; Elapse 1500]. reflexivity. }
  eexists. split; [reflexivity|].
  destruct (blow_run_range _ blow_props 400 800 42 Hreach) as [_ Hu].
  destruct (Hu _ eq_refl) as (_ & Hcut & Hblank).
  split; [exact Hcut|].
  apply Hblank. vm_compute. discriminate.
Defined.

(** X17.  The completion timer of BlowAwayImage runs from the effect, its ramp
    from the measurement callback.  When the measurement is answered [L] ms
    after the effect (before the timer fires), the callback runs at
    [T + duration + 100] all the same, and the animated time is then 3, the
    end of the ramp, only if [L <= 100]: with a later answer the callback
    runs while the ramp is still short of its end. *)
Theorem blow_callback_and_ramp :
  forall (st : State) (p : Props) (x y : Q) (L k : nat),
    reachable st -> measuring st = [] ->
    should_start p = true -> onComplete p = true ->
    (0 < duration p)%Z ->
    (0 < Z.of_nat k)%Z ->
    (Z.of_nat L + Z.of_nat k = duration p + 100)%Z ->
    let st4 := run [Render p true; Elapse L; Measured x y; Elapse k] st in
    completions st4 = completions st ++ [(now st + duration p + 100)%Z]
    /\ now st4 = (now st + duration p + 100)%Z
    /\ ((Z.of_nat L <= 100)%Z ->
        Driver.value_at (animationTime st4) (now st4) == 3)
    /\ ((100 < Z.of_nat L)%Z ->
        Driver.value_at (animationTime st4) (now st4) < 3).
Proof.
  intros st p x y L k Hreach Hmeas Hstart Hcb Hdur Hk HLk st4.
  destruct (blow_reachable_invariant st Hreach) as [Hown _].
  destruct (blow_start_state st p true Hown Hstart)
    as (Hnow & Hlog & Htimers & Hm1 & _ & _).
  set (st1 := step st (Render p true)) in *.
  rewrite Hcb in Htimers. rewrite Hmeas in Hm1. cbn [app] in Hm1.
  replace (Z.max 0 (duration p + 100)) with (duration p + 100)%Z in Htimers by lia.
  set (d := duration p) in *.
  assert (E2 : (now st + (d + 100) <=? now st + Z.of_nat L)%Z = false)
    by (apply Z.leb_gt; lia).
  assert (E4 : (now st + (d + 100) <=? now st + Z.of_nat L + Z.of_nat k)%Z = true)
    by (apply Z.leb_le; lia).
  set (tm := {| Driver.tid := next_timer (cleanup st);
                Driver.due := (now st + (d + 100))%Z;
                Driver.notify := true |}) in *.
  set (st2 := elapse L st1).
  assert (H2 : timers st2 = [tm] /\ now st2 = (now st + Z.of_nat L)%Z
               /\ completions st2 = completions st /\ measuring st2 = [d]).
  { unfold st2, elapse. cbn [timers now completions measuring].
    rewrite Htimers, Hnow, Hlog, Hm1. cbn [filter tm Driver.due]. rewrite E2.
    cbn [negb filter map]. rewrite app_nil_r. repeat split; reflexivity. }
  destruct H2 as (Ht2 & Hn2 & Hc2 & Hm2).
  set (st3 := measured x y st2).
  assert (H3 : timers st3 = [tm] /\ now st3 = (now st + Z.of_nat L)%Z
               /\ completions st3 = completions st
               /\ animationTime st3 = Driver.Timing 0 3.0 (now st + Z.of_nat L) d).
  { unfold st3, measured. rewrite Hm2.
    cbn [timers now completions animationTime]. rewrite Ht2, Hn2, Hc2.
    repeat split; reflexivity. }
  destruct H3 as (Ht3 & Hn3 & Hc3 & Ha3).
  assert (H4 : completions (elapse k st3) = completions st ++ [(now st + d + 100)%Z]
               /\ now (elapse k st3) = (now st + d + 100)%Z
               /\ animationTime (elapse k st3)
                  = Driver.Timing 0 3.0 (now st + Z.of_nat L) d).
  { unfold elapse. cbn [timers now completions animationTime].
    rewrite Ht3, Hn3, Hc3, Ha3. cbn [filter tm Driver.due]. rewrite E4.
    cbn [filter]. change (Driver.notify tm) with true. cbn [map].
    split; [f_equal; f_equal; lia|]. split; [lia | reflexivity]. }
  change st4 with (elapse k st3).
  destruct H4 as (Hc4 & Hn4 & Ha4).
  split; [exact Hc4|]. split; [exact Hn4|].
  rewrite Ha4, Hn4.
  replace (now st + d + 100)%Z with (now st + Z.of_nat L + Z.of_nat k)%Z by lia.
  unfold Driver.value_at.
  assert (E5 : (now st + Z.of_nat L + Z.of_nat k <=? now st + Z.of_nat L)%Z = false)
    by (apply Z.leb_gt; lia).
  rewrite E5.
  split; intro HL.
  - assert (E6 : (now st + Z.of_nat L + d <=? now st + Z.of_nat L + Z.of_nat k)%Z = true)
      by (apply Z.leb_le; lia).
    rewrite E6. reflexivity.
  - assert (E6 : (now st + Z.of_nat L + d <=? now st + Z.of_nat L + Z.of_nat k)%Z = false)
      by (apply Z.leb_gt; lia).
    rewrite E6.
    replace (now st + Z.of_nat L + Z.of_nat k - (now st + Z.of_nat L))%Z
      with (Z.of_nat k) by lia.
    assert (H0 : 0 < inject_Z d).
    { change 0 with (inject_Z 0). rewrite <- Zlt_Qlt. exact Hdur. }
    assert (H1 : inject_Z (Z.of_nat k) < inject_Z d).
    { rewrite <- Zlt_Qlt. lia. }
    set (f := inject_Z (Z.of_nat k) / inject_Z d).
    assert (Hf1 : f < 1) by (apply Qlt_shift_div_r; lra).
    assert (E : 0 + (3.0 - 0) * f == 3 * f) by ring.
    rewrite E. lra.
Qed.

Lemma blow_callback_and_ramp_witness :
  completions (run [Render blow_props true; Elapse 300; Measured 10 20; Elapse 1800]
                 (initial 0)) = [2100%Z]
  /\ Driver.value_at
       (animationTime (run [Render blow_props true; Elapse 300; Measured 10 20;
                            Elapse 1800] (initial 0)))
       (now (run [Render blow_props true; Elapse 300; Measured 10 20; Elapse 1800]
               (initial 0))) < 3.
Proof.
  assert (Hreach : reachable (initial 0)) by (exists 0%Z, []; reflexivity).
  destruct (blow_callback_and_ramp (initial 0) blow_props 10 20 300 1800
              Hreach eq_refl eq_refl eq_refl) as (Hc & _ & _ & Hshort);
    try (vm_compute; reflexivity).
  split; [exact Hc | apply Hshort; vm_compute; reflexivity].
Defined.

End BlowAwayFacts.

(** * DustSnapGL at the end of its run *)

(** A particle that covers a pixel has moved at most five particle sizes
    further left than the reverse-wind estimate. *)
Lemma covering_candidate_offset (sin cos : Q -> Q) (u : DustShader.Uniforms)
    (screenCoord : float2) (i j : Z) :
  0 < DustShader.particleSize u -> (-4 <= i <= 4)%Z ->
  DustShader.inside u
    (v2sub screenCoord
       (DustShader.particlePos sin cos u
          (DustShader.cellOf u (DustShader.baseImgPos u screenCoord) i j)
          (DustShader.elapsed u))) = true ->
  - (5 * DustShader.particleSize u)
  <= vx (DustShader.movement sin cos u
           (DustShader.cellOf u (DustShader.baseImgPos u screenCoord) i j)
           (DustShader.elapsed u))
     + DustShader.reverseWindMult u * DustShader.elapsed u.
Proof.
  intros Hps Hi Hcov.
  set (base := DustShader.baseImgPos u screenCoord) in *.
  set (t := DustShader.elapsed u) in *.
  apply (inside_within u _ Hps) in Hcov.
  destruct Hcov as [[Hx0 Hx1] _].
  destruct (cellOf_shift u base i j Hps) as [Ecx _].
  destruct (floorQ_bounds (vx base) _ Hps) as [Hbx0 Hbx1].
  fold (DustShader.invPS u) in Hbx0, Hbx1.
  set (cellId := DustShader.cellOf u base i j) in *.
  set (m := DustShader.movement sin cos u cellId t) in *.
  set (c0x := floorQ (vx base * DustShader.invPS u)) in *.
  assert (Ebx : vx base == vx screenCoord + DustShader.reverseWindMult u * t
                           - vx (DustShader.imageOffset u)).
  { unfold base, DustShader.baseImgPos, v2sub, v2add. cbn [vx vy]. fold t. reflexivity. }
  unfold DustShader.particlePos, DustShader.cellCenter, v2sub, v2add, v2adds, v2scale
    in Hx0, Hx1.
  cbn [vx vy] in Hx0, Hx1.
  fold m in Hx0, Hx1.
  assert (Hhalf : DustShader.halfSize u * 2 == DustShader.particleSize u).
  { unfold DustShader.halfSize. ring. }
  assert (Hi1 : inject_Z i <= 4).
  { change 4 with (inject_Z 4). rewrite <- Zle_Qle. lia. }
  nra.
Qed.

Section ShippedEnd.

Variables sin cos : Q -> Q.
Hypothesis sin_bounded : bounded_sin sin.
Hypothesis cos_bounded : bounded_cos cos.
Variable time : Q.
Variable imageLayout : Layout.
Variable pieceSize : Q.
Variable particleShape : ParticleShape.
Variable seedValue : Q.

Let u : DustShader.Uniforms :=
  DustSnapGL_uniforms time imageLayout pieceSize particleShape seedValue.

(** With the shipped constants, at [t = 22] every cell has moved more than
    151 pixels to the left: the wind alone carries it at least 184.8 pixels,
    and turbulence, burst, float and drift give back less. *)
Lemma end_movement_left (c : float2) (t : Q) :
  t == 22 -> vx (DustShader.movement sin cos u c t) <= - (151).
Proof.
  intro Ht.
  destruct (rnd1_range sin u c) as [Hh0 Hh1].
  assert (HL : DustShader.maxLife sin u c == 180 + DustShader.rnd1 sin u c * 100).
  { unfold DustShader.maxLife.
    change (DustShader.lifetimeMin u) with 180.0.
    change (DustShader.lifetimeRange u) with 100.0. lra. }
  assert (Hlr0 : (11 # 140) <= DustShader.lifeRatio sin u c t).
  { unfold DustShader.lifeRatio. apply Qle_shift_div_l; lra. }
  assert (He0 : (11 # 14) <= DustShader.startEase sin u c t).
  { unfold DustShader.startEase. apply Q.min_glb; lra. }
  assert (He1 : DustShader.startEase sin u c t <= 1).
  { unfold DustShader.startEase. apply Q.le_min_r. }
  assert (Hd0 : 0 <= DustShader.burstDecay sin u c t).
  { unfold DustShader.burstDecay. apply Qle_shift_div_l; lra. }
  assert (Hd1 : DustShader.burstDecay sin u c t <= 0.72).
  { unfold DustShader.burstDecay. apply Qle_shift_div_r; lra. }
  assert (HwindX : DustShader.windX sin u c t
                   <= - (184.8) - 158.4 * DustShader.rnd1 sin u c).
  { unfold DustShader.windX. change (DustShader.windSpeed u) with 12.
    rewrite Ht. lra. }
  assert (HturbX : DustShader.turbX sin u c t <= 35 * DustShader.rnd1 sin u c).
  { unfold DustShader.turbX. change (DustShader.turbulence u) with 35.0.
    destruct (sin_bounded (DustShader.turbPhase sin u c t)). nra. }
  assert (HburstX : DustShader.burstX sin cos u c t <= 32.4).
  { unfold DustShader.burstX. change (DustShader.burstStrength u) with 45.0.
    destruct (cos_bounded (DustShader.burstAngle sin u c)). nra. }
  assert (HfloatX : DustShader.floatX sin u c t <= 12.5).
  { unfold DustShader.floatX. change (DustShader.floatAmp u) with 25.0.
    destruct (sin_bounded (DustShader.floatPhase sin u c t)). lra. }
  assert (HdriftX : DustShader.continuousDriftX sin u c t
                    == (DustShader.rnd1 sin u c - 0.5) * 33.88).
  { unfold DustShader.continuousDriftX, DustShader.driftDirX, DustShader.tSq.
    change (DustShader.driftX u) with 3.5. rewrite Ht. ring. }
  unfold DustShader.movement, v2scale. cbn [vx vy].
  set (raw := DustShader.windX sin u c t + DustShader.turbX sin u c t
              + DustShader.burstX sin cos u c t + DustShader.floatX sin u c t
              + DustShader.continuousDriftX sin u c t).
  assert (Hraw : raw <= - (156.84) - 89.52 * DustShader.rnd1 sin u c)
    by (unfold raw; lra).
  destruct (Qlt_le_dec 0.4 (DustShader.rnd1 sin u c)) as [Hfar | Hnear].
  - (* the cell is still easing in: the eased part is at least 11/14 *)
    nra.
  - (* the easing is complete *)
    assert (E : DustShader.startEase sin u c t == 1).
    { unfold DustShader.startEase. apply Q.min_r.
      assert ((1 # 10) <= DustShader.lifeRatio sin u c t)
        by (unfold DustShader.lifeRatio; apply Qle_shift_div_l; lra).
      lra. }
    rewrite E. lra.
Qed.

(** At the end of the ramp ([time = 1], so [t = 22]) no pixel shows a
    particle of at most 3 pixels: every cell is more than 19 pixels left of
    the reverse-wind estimate, out of the reach of the 9 x 9 search. *)
Lemma blank_at_end (image : float2 -> half4) (fragCoord : float2) :
  time == 1 -> 0 < pieceSize -> pieceSize <= 3 ->
  DustShader.main sin cos image u fragCoord = transparent.
Proof.
  intros Htime Hps0 Hps1.
  destruct (main_cases sin cos image u fragCoord) as [H | (ij & Hin & Hq & _)];
    [exact H|].
  exfalso. destruct ij as [i j].
  apply In_window in Hin. cbn [fst snd] in Hin. destruct Hin as [Hi _].
  unfold DustShader.SEARCH_RAD in Hi.
  apply qualifies_parts in Hq. destruct Hq as (_ & _ & Hcov & _ & _).
  unfold DustShaderSpec.covers, DustShaderSpec.cell in Hcov. cbn [fst snd] in Hcov.
  assert (Hps : 0 < DustShader.particleSize u) by exact Hps0.
  pose proof (covering_candidate_offset sin cos u _ i j Hps Hi Hcov) as Hnear.
  assert (Ht : DustShader.elapsed u == 22).
  { unfold DustShader.elapsed. change (DustShader.time u) with time.
    change (DustShader.timeScale u) with 22.0. rewrite Htime. reflexivity. }
  pose proof (end_movement_left
                (DustShader.cellOf u
                   (DustShader.baseImgPos u
                      (v2add fragCoord (DustShader.canvasOffset u))) i j)
                (DustShader.elapsed u) Ht) as Hleft.
  change (DustShader.reverseWindMult u) with 6.0 in Hnear.
  change (DustShader.particleSize u) with pieceSize in Hnear.
  rewrite Ht in Hnear at 2. lra.
Qed.

End ShippedEnd.

(** C10 as stated fails in its last clause.  One second after the run
    started the component is mounted and shows its canvas, the ramp has
    reached 1 and the completion callback has not run; the particle of cell
    (0, 3) is alive, carries an opaque colour and lies over the pixel
    (94.5, 439.5) of the 400 x 800 screen (with the stand-in sine and
    cosine); yet that pixel is transparent, and so is every other pixel,
    whatever the sine and the cosine are within [[-1, 1]]: the particles
    have vanished on the screen, before the component unmounts. *)
Lemma real_run_counterexample :
  DustSnapGL_renders far_props end_state = true
  /\ Driver.completions end_state = []
  /\ DustShader.time end_uniforms == 1
  /\ on_screen 400 800 stray_pixel = true
  /\ DustShader.inside end_uniforms
       (v2sub stray_pixel
          (DustShader.particlePos sin_q cos_q end_uniforms stray_cell
             (DustShader.elapsed end_uniforms))) = true
  /\ Qgeb (DustShader.lifeRatio sin_q end_uniforms stray_cell
             (DustShader.elapsed end_uniforms)) 1 = false
  /\ 0.1 < ca (demo_image (DustShader.cellCenter end_uniforms stray_cell))
  /\ DustShader.main sin_q cos_q demo_image end_uniforms stray_pixel = transparent
  /\ (forall (sin cos : Q -> Q) (image : float2 -> half4) (fragCoord : float2),
        bounded_sin sin -> bounded_cos cos ->
        DustShader.main sin cos image end_uniforms fragCoord = transparent).
Proof.
  assert (Hblank : forall (sin cos : Q -> Q) (image : float2 -> half4)
                          (fragCoord : float2),
             bounded_sin sin -> bounded_cos cos ->
             DustShader.main sin cos image end_uniforms fragCoord = transparent).
  { intros sin cos image fragCoord Hsin Hcos.
    unfold end_uniforms, Driver.uniforms.
    apply blank_at_end; try assumption.
    - vm_compute. reflexivity.
    - reflexivity.
    - discriminate. }
  split; [reflexivity|].
  split; [reflexivity|].
  split; [vm_compute; reflexivity|].
  split; [reflexivity|].
  split; [vm_compute; reflexivity|].
  split; [vm_compute; reflexivity|].
  split; [vm_compute; reflexivity|].
  split; [apply Hblank; [exact sin_q_bounded | exact cos_q_bounded]|].
  exact Hblank.
Qed.
